(** * KubeForge Agent: the manifest cleaning rules, the structural diff
      engine, the command dispatcher and the control loop of [src/index.ts],
      embedded as Rocq functions, with the properties the specification
      states about them.

    The repository holds two revisions of the agent.  The functions
    below follow the later one ([src/index.ts]: long polling, dry runs
    and the diff engine).  The earlier one has the same [get_manifests]
    and [cleanManifest] and the same loop over the manifests of
    [apply_manifest], without the dry run and the log; its control loop
    sleeps a fixed interval after every turn; its registration and its
    [list_resources] are those of the later one.

    The dispatcher takes the commands that only read the cluster as one
    request each.  The cases [list_resources] and [get_logs] are
    embedded on their own as well, with the requests each of them
    makes, as is the registration that comes before the loop. *)

From Stdlib Require Import String Ascii List ZArith Bool Arith Lia.
From Stdlib Require Import DecimalString DecimalNat Permutation.
Import ListNotations.
Open Scope list_scope.
Open Scope string_scope.

(** ** Documents

    A parsed manifest, a live resource and every value nested inside
    them is a JavaScript value.  An object is the list of its own
    enumerable properties in enumeration order (the order of
    [Object.entries] and [Object.keys]); a list that stands for an
    object has pairwise distinct keys, so that [o[k]], for a key [k] met
    in the enumeration, is the value listed with it.  Keys that name
    members of [Object.prototype] (such as [constructor] or [__proto__])
    are outside the model.  An object of another class (a [Date]) has no
    own enumerable property: the functions below treat it as the empty
    object.  Numbers are integers or [NaN], the one
    number that [===] does not relate to itself; strings are sequences
    of code units and the literals of the program are ASCII. *)

Inductive number : Type :=
| Int (z : Z)
| NaN.

Unset Elimination Schemes.
Inductive value : Type :=
| VNull
| VUndefined
| VBool (b : bool)
| VNum (n : number)
| VStr (s : string)
| VArr (items : list value)
| VObj (entries : list (string * value)).
Set Elimination Schemes.

(** [Record<string, unknown>] *)
Definition Obj : Type := list (string * value).

(** Induction over documents: the elements of an array and the values of
    an object satisfy the property before the array or object does. *)
Section ValueInduction.
Variable P : value -> Prop.
Hypothesis Hnull : P VNull.
Hypothesis Hundef : P VUndefined.
Hypothesis Hbool : forall b, P (VBool b).
Hypothesis Hnum : forall n, P (VNum n).
Hypothesis Hstr : forall s, P (VStr s).
Hypothesis Harr : forall items, Forall P items -> P (VArr items).
Hypothesis Hobj :
  forall entries, Forall (fun kv => P (snd kv)) entries -> P (VObj entries).

Fixpoint value_ind (v : value) : P v :=
  match v with
  | VNull => Hnull
  | VUndefined => Hundef
  | VBool b => Hbool b
  | VNum n => Hnum n
  | VStr s => Hstr s
  | VArr items =>
      Harr items
        ((fix all (l : list value) : Forall P l :=
            match l with
            | [] => Forall_nil P
            | x :: l' => Forall_cons x (value_ind x) (all l')
            end) items)
  | VObj entries =>
      Hobj entries
        ((fix all (l : Obj) : Forall (fun kv => P (snd kv)) l :=
            match l with
            | [] => Forall_nil _
            | kv :: l' =>
                Forall_cons (P := fun kv => P (snd kv)) kv
                  (value_ind (snd kv)) (all l')
            end) entries)
  end.
End ValueInduction.

(** *** The JavaScript operators the program applies to documents *)

(** [typeof v] *)
Inductive jstype : Type :=
| TUndefined | TObject | TBoolean | TNumber | TString.

Definition typeof (v : value) : jstype :=
  match v with
  | VNull => TObject
  | VUndefined => TUndefined
  | VBool _ => TBoolean
  | VNum _ => TNumber
  | VStr _ => TString
  | VArr _ => TObject
  | VObj _ => TObject
  end.

Definition jstype_eqb (a b : jstype) : bool :=
  match a, b with
  | TUndefined, TUndefined | TObject, TObject | TBoolean, TBoolean
  | TNumber, TNumber | TString, TString => true
  | _, _ => false
  end.

(** Truthiness: [if (v)], [!v], [v && ...]. *)
Definition truthy (v : value) : bool :=
  match v with
  | VNull | VUndefined => false
  | VBool b => b
  | VNum (Int z) => negb (z =? 0)%Z
  | VNum NaN => false
  | VStr s => negb (s =? EmptyString)
  | VArr _ | VObj _ => true
  end.

(** [v === null || v === undefined] *)
Definition is_nullish (v : value) : bool :=
  match v with
  | VNull | VUndefined => true
  | _ => false
  end.

(** [Array.isArray(v)] *)
Definition isArray (v : value) : bool :=
  match v with
  | VArr _ => true
  | _ => false
  end.

(** [String(n)] for an index or a length. *)
Definition nat_to_string (n : nat) : string :=
  NilZero.string_of_uint (Nat.to_uint n).

(** [String(n)] for a number: an integer in digits (as [String] writes
    it below [1e21]), or [NaN]. *)
Definition number_to_string (n : number) : string :=
  match n with
  | Int z => NilZero.string_of_int (Z.to_int z)
  | NaN => "NaN"
  end.

(** *** Objects: property lookup, [in], assignment and [delete] *)

(** [o[k]], [None] when [o] has no own property [k] *)
Fixpoint obj_get (k : string) (o : Obj) : option value :=
  match o with
  | [] => None
  | (k', v) :: rest => if k' =? k then Some v else obj_get k rest
  end.

(** [k in o], for a key [k] that names no member of [Object.prototype]:
    the object has the key itself.  (For a name such as [toString] the
    operator holds of every object.) *)
Definition has_key (k : string) (o : Obj) : bool :=
  match obj_get k o with
  | Some _ => true
  | None => false
  end.

(** [delete o[k]] *)
Definition obj_delete (k : string) (o : Obj) : Obj :=
  filter (fun kv => negb (fst kv =? k)) o.

(** [o[k] = v]: an existing property keeps its place, a new one is
    enumerated last. *)
Fixpoint obj_set (k : string) (v : value) (o : Obj) : Obj :=
  match o with
  | [] => [(k, v)]
  | (k', v') :: rest =>
      if k' =? k then (k, v) :: rest else (k', v') :: obj_set k v rest
  end.

(** [Object.keys(o)] *)
Definition keys (o : Obj) : list string := map fst o.

(** The index properties of an array, ["0"], ["1"], ... from [i] on. *)
Fixpoint index_entries (i : nat) (items : list value) : Obj :=
  match items with
  | [] => []
  | x :: rest => (nat_to_string i, x) :: index_entries (S i) rest
  end.

(** [{ ...v }]: the own enumerable properties of [v]. For an array these
    are its index properties.  The program spreads only values whose
    [typeof] is ['object']. *)
Definition spread (v : value) : Obj :=
  match v with
  | VObj o => o
  | VArr items => index_entries 0 items
  | _ => []
  end.

(** [Object.keys(v).length]: a string has one index key per code unit,
    the other primitives have none. *)
Definition keys_length (v : value) : nat :=
  match v with
  | VObj o => length o
  | VArr items => length items
  | VStr s => String.length s
  | _ => 0
  end.

(** ** Cleaning before a diff: [cleanForDiff] *)

(** The keys skipped as server-managed fields. *)
Definition server_managed (k : string) : bool :=
  (k =? "managedFields") || (k =? "resourceVersion") || (k =? "uid") ||
  (k =? "creationTimestamp") || (k =? "generation") || (k =? "selfLink") ||
  (k =? "status").

Definition last_applied_configuration : string :=
  "kubectl.kubernetes.io/last-applied-configuration".
Definition deployment_revision : string :=
  "deployment.kubernetes.io/revision".

(** The copy of an annotations value with the two injected annotations
    deleted. *)
Definition strip_annotations (v : value) : Obj :=
  obj_delete deployment_revision
    (obj_delete last_applied_configuration (spread v)).

(** [typeof v === 'object' && v] *)
Definition is_object (v : value) : bool :=
  jstype_eqb (typeof v) TObject && truthy v.

(** The loop over [Object.entries(o)] that fills [cleaned]; [rec] is the
    recursive call. *)
Definition clean_entries (rec : value -> value) : Obj -> Obj :=
  fix loop (o : Obj) : Obj :=
    match o with
    | [] => []
    | (k, v) :: rest =>
        if server_managed k then loop rest
        else if (k =? "annotations") && is_object v then
          let annotations := strip_annotations v in
          if Nat.ltb 0 (length (keys annotations))
          then (k, VObj annotations) :: loop rest
          else loop rest
        else if is_nullish v then loop rest
        else (k, rec v) :: loop rest
    end.

Fixpoint cleanForDiff (obj : value) : value :=
  match obj with
  | VArr items => VArr (map cleanForDiff items)
  | VObj o => VObj (clean_entries cleanForDiff o)
  | _ => obj
  end.

(** ** Cleaning for export: [cleanManifest] *)

(** [meta.k && Object.keys(meta.k).length === 0] *)
Definition empty_map_at (k : string) (meta : Obj) : bool :=
  match obj_get k meta with
  | Some v => truthy v && Nat.eqb (keys_length v) 0
  | None => false
  end.

(** The copy of [metadata] with the server-managed members deleted, and
    with [annotations] and [labels] deleted when they are empty. *)
Definition clean_metadata (metadata : value) : Obj :=
  let meta := spread metadata in
  let meta := obj_delete "managedFields" meta in
  let meta := obj_delete "resourceVersion" meta in
  let meta := obj_delete "uid" meta in
  let meta := obj_delete "creationTimestamp" meta in
  let meta := obj_delete "generation" meta in
  let meta := obj_delete "selfLink" meta in
  let meta :=
    if empty_map_at "annotations" meta
    then obj_delete "annotations" meta else meta in
  let meta :=
    if empty_map_at "labels" meta
    then obj_delete "labels" meta else meta in
  meta.

Definition cleanManifest (obj : Obj) : Obj :=
  let cleaned := obj_delete "status" obj in
  match obj_get "metadata" cleaned with
  | Some metadata =>
      if is_object metadata
      then obj_set "metadata" (VObj (clean_metadata metadata)) cleaned
      else cleaned
  | None => cleaned
  end.

(** ** Paths into a document *)

Inductive step : Type :=
| Key (k : string)
| Idx (i : nat).

Fixpoint get_path (v : value) (p : list step) : option value :=
  match p with
  | [] => Some v
  | Key k :: p' =>
      match v with
      | VObj o =>
          match obj_get k o with
          | Some v' => get_path v' p'
          | None => None
          end
      | _ => None
      end
  | Idx i :: p' =>
      match v with
      | VArr items =>
          match nth_error items i with
          | Some v' => get_path v' p'
          | None => None
          end
      | _ => None
      end
  end.

(** ** Rendering values: [formatValue] *)

(** The double quote character. *)
Definition dquote : string := String (ascii_of_nat 34) EmptyString.

Definition quoted (s : string) : string := dquote ++ s ++ dquote.

(** [items.join(sep)] *)
Definition join (sep : string) (items : list string) : string :=
  String.concat sep items.

Fixpoint formatValue (v : value) : string :=
  match v with
  | VNull | VUndefined => "null"
  | VStr s =>
      if Nat.ltb 80 (String.length s)
      then quoted (substring 0 77 s ++ "...")
      else quoted s
  | VBool b => if b then "true" else "false"
  | VNum n => number_to_string n
  | VArr items =>
      if Nat.eqb (length items) 0 then "[]"
      else
        let joined := "[" ++ join ", " (map formatValue items) ++ "]" in
        if Nat.ltb 80 (String.length joined)
        then "[" ++ nat_to_string (length items) ++ " items]"
        else joined
  | VObj o =>
      if Nat.eqb (length (keys o)) 0 then "{}"
      else
        let pairs :=
          map (fun kv => fst kv ++ ": " ++ formatValue (snd kv)) o in
        let joined := "{" ++ join ", " pairs ++ "}" in
        if Nat.leb (length (keys o)) 3 && Nat.leb (String.length joined) 80
        then joined
        else "{" ++ nat_to_string (length (keys o)) ++ " fields}"
  end.

(** ** The structural diff: [deepDiff]

    [out.push(line)] is modelled by returning the lines pushed, in
    order.  A change line starts with its marker: [~] modify, [+] add,
    [-] remove. *)

(** [a === b], for two documents built separately.  On numbers,
    strings, booleans, [null] and [undefined] this is equality of
    values, except that [NaN] differs from itself.  On arrays and
    objects it is identity of reference: [deepDiff] is called on two
    documents built separately ([cleanForDiff] allocates every array and
    object it returns), so two arrays or objects met by the comparison
    are never the same reference.  The diff of two documents that are,
    or share, the same array or object is [deepDiff_ref] below. *)
Definition strict_eq (a b : value) : bool :=
  match a, b with
  | VNull, VNull => true
  | VUndefined, VUndefined => true
  | VBool x, VBool y => Bool.eqb x y
  | VNum (Int x), VNum (Int y) => (x =? y)%Z
  | VStr x, VStr y => x =? y
  | _, _ => false
  end.

Definition arrow : string := " → ".

Definition modify_line (path : string) (live desired : value) : string :=
  "~ " ++ path ++ ": " ++ formatValue live ++ arrow ++ formatValue desired.

Definition add_line (path : string) (v : value) : string :=
  "+ " ++ path ++ ": " ++ formatValue v.

Definition remove_line (path : string) (v : value) : string :=
  "- " ++ path ++ ": " ++ formatValue v.

(** [`${path}[${i}]`] *)
Definition index_path (path : string) (i : nat) : string :=
  path ++ "[" ++ nat_to_string i ++ "]".

(** [path ? `${path}.${key}` : key] *)
Definition key_path (path key : string) : string :=
  if path =? EmptyString then key else path ++ "." ++ key.

(** The lines for the indices [i], [i+1], ... that only the desired
    array has, and for those that only the live array has. *)
Fixpoint added_items (path : string) (i : nat) (items : list value)
  : list string :=
  match items with
  | [] => []
  | x :: rest => add_line (index_path path i) x :: added_items path (S i) rest
  end.

Fixpoint removed_items (path : string) (i : nat) (items : list value)
  : list string :=
  match items with
  | [] => []
  | x :: rest =>
      remove_line (index_path path i) x :: removed_items path (S i) rest
  end.

(** The lines for the keys of [allKeys] that come from the desired
    object only; they follow the keys of the live object in the set. *)
Fixpoint added_keys (path : string) (liveObj desiredObj : Obj)
  : list string :=
  match desiredObj with
  | [] => []
  | (key, v) :: rest =>
      if has_key key liveObj then added_keys path liveObj rest
      else add_line (key_path path key) v :: added_keys path liveObj rest
  end.

(** The loop over the indices below [maxLen]; [rec] is the recursive
    call.  The index is past the end of the live array exactly when the
    live items are used up, and likewise for the desired array. *)
Definition diff_arrays (rec : value -> value -> string -> list string)
    (path : string) : list value -> list value -> nat -> list string :=
  fix loop (ls ds : list value) (i : nat) : list string :=
    match ls, ds with
    | [], _ => added_items path i ds
    | _ :: _, [] => removed_items path i ls
    | l :: ls', d :: ds' =>
        (rec l d (index_path path i) ++ loop ls' ds' (S i))%list
    end.

(** The loop over the keys of [allKeys] that the live object has, in its
    order; [l] is [liveObj[key]]. *)
Definition diff_objects (rec : value -> value -> string -> list string)
    (path : string) (desiredObj : Obj) : Obj -> list string :=
  fix loop (es : Obj) : list string :=
    match es with
    | [] => []
    | (key, l) :: rest =>
        (match obj_get key desiredObj with
         | None => [remove_line (key_path path key) l]
         | Some d => rec l d (key_path path key)
         end ++ loop rest)%list
    end.

Fixpoint deepDiff (live desired : value) (path : string) : list string :=
  if strict_eq live desired then []
  else if negb (jstype_eqb (typeof live) (typeof desired))
          || strict_eq live VNull || strict_eq desired VNull
          || negb (jstype_eqb (typeof live) TObject)
          || negb (jstype_eqb (typeof desired) TObject)
  then
    if negb (strict_eq live desired)
    then [modify_line path live desired] else []
  else
    match live, desired with
    | VArr liveArr, VArr desiredArr =>
        diff_arrays deepDiff path liveArr desiredArr 0
    | VObj liveObj, VObj desiredObj =>
        (diff_objects deepDiff path desiredObj liveObj
         ++ added_keys path liveObj desiredObj)%list
    | _, _ => [modify_line path live desired]
    end.

(** ** The creation summary: [summarizeObject] *)

(** [p.split('.').length] *)
Fixpoint count_dots (p : string) : nat :=
  match p with
  | EmptyString => 0
  | String c rest =>
      (if Ascii.eqb c "."%char then 1 else 0) + count_dots rest
  end.

Definition segments (p : string) : nat := S (count_dots p).

(** [`+ ${path}: [${obj.length} items]`] *)
Definition count_line (path : string) (n : nat) : string :=
  "+ " ++ path ++ ": [" ++ nat_to_string n ++ " items]".

(** [`${path}[0]`] *)
Definition first_path (path : string) : string := path ++ "[0]".

Fixpoint summarizeObject (obj : value) (path : string) : list string :=
  match obj with
  | VNull | VUndefined => []
  | VArr items =>
      match items with
      | [] => []
      | first :: _ =>
          ((if Nat.ltb 1 (length items)
            then [count_line path (length items)]
            else [])
           ++ (if is_object first
               then summarizeObject first (first_path path)
               else [add_line (first_path path) first]))%list
      end
  | VObj o =>
      (fix loop (es : Obj) : list string :=
         match es with
         | [] => []
         | (k, v) :: rest =>
             let p := key_path path k in
             if is_nullish v then loop rest
             else if jstype_eqb (typeof v) TObject && negb (isArray v)
                     && Nat.ltb 0 (keys_length v)
             then ((if Nat.ltb (segments p) 5
                    then summarizeObject v p
                    else [add_line p v]) ++ loop rest)%list
             else add_line p v :: loop rest
         end) o
  | _ => [add_line path obj]
  end.

(** ** The world outside the agent

    The control plane, the cluster and the YAML codec are collaborators
    of the agent.  Every request the agent makes is recorded, in order,
    in a trace; what a collaborator answers may depend on everything
    requested before.  A promise is taken to settle: it resolves with a
    value or rejects with an error, of which the agent reads the
    message. *)

Inductive outcome (A : Type) : Type :=
| Ok (a : A)
| Throw (message : string).
Arguments Ok {A} a.
Arguments Throw {A} message.

Inductive status : Type := completed | failed.

(** The payload of a command, with the types the dispatcher casts its
    members to; [dryRun] is compared with [true]. *)
Record Payload : Type := {
  namespace : string;
  resources : list (string * string);
  manifests : list string;
  dryRun : value
}.

Record Command : Type := {
  id : string;
  type : string;
  payload : Payload
}.

(** One element of [results] in [apply_manifest]. *)
Record apply_entry : Type := {
  resource : string;
  success : bool;
  error : option string;
  log : option string;
  diff : option (list string)
}.

(** What [executeCommand] returns under [result]. *)
Inductive result_payload : Type :=
| Manifests (blob : string)
| Applied (results : list apply_entry) (log : string) (dryRun : bool)
| Listing (v : value).

Inductive level : Type := LogLevel | WarnLevel | ErrorLevel.

Inductive event : Type :=
| ClientRead (resource : value)
| ClientPatch (resource : value) (dryRun : option string)
| ClientCreate (resource : value) (dryRun : option string)
| ReadNamespaced (kind name namespace : string)
| Query (type : string) (payload : Payload)
| Poll
| SubmitResult (commandId : string) (st : status)
               (result : option result_payload) (error : option string)
| Sleep (ms : nat)
| Console (l : level) (text : string).

Definition trace : Type := list event.

(** The response to the poll request: [res.ok], [res.status], and what
    [res.json()] followed by [data.command || null] gives. *)
Record poll_response : Type := {
  ok : bool;
  http_status : nat;
  command : outcome (option Command)
}.

(** The collaborators.  [query] stands for the three operations that
    only read the cluster ([list_namespaces], [list_resources],
    [get_logs]), each taken as one request. *)
Record World : Type := {
  client_read : trace -> value -> outcome value;
  client_patch : trace -> value -> option string -> outcome unit;
  client_create : trace -> value -> option string -> outcome unit;
  read_namespaced : trace -> string -> string -> string -> outcome value;
  query : trace -> string -> Payload -> outcome value;
  fetch_poll : trace -> outcome poll_response;
  fetch_result : trace -> string -> status -> option result_payload
                 -> option string -> outcome unit;
  yaml_load : string -> outcome value;
  yaml_dump : value -> outcome string
}.

(** *** Computations: a trace threaded through, and exceptions *)

Definition M (A : Type) : Type := trace -> outcome A * trace.

Definition ret {A : Type} (a : A) : M A := fun t => (Ok a, t).

Definition bind {A B : Type} (m : M A) (f : A -> M B) : M B :=
  fun t =>
    match m t with
    | (Ok a, t') => f a t'
    | (Throw message, t') => (Throw message, t')
    end.

(** [try { m } catch (err) { handler(err.message) }] *)
Definition try_catch {A : Type} (m : M A) (handler : string -> M A) : M A :=
  fun t =>
    match m t with
    | (Ok a, t') => (Ok a, t')
    | (Throw message, t') => handler message t'
    end.

(** A value or an exception that needs no request. *)
Definition lift {A : Type} (o : outcome A) : M A := fun t => (o, t).

(** A request: the answer is computed from the trace so far, and the
    request is recorded. *)
Definition request {A : Type} (e : event) (answer : trace -> outcome A)
  : M A :=
  fun t => (answer t, (t ++ [e])%list).

Declare Scope agent_scope.
Delimit Scope agent_scope with agent.
Notation "x <- m ;; k" := (bind m (fun x => k))
  (at level 61, m at next level, right associativity) : agent_scope.
Notation "m ;; k" := (bind m (fun _ => k))
  (at level 61, right associativity) : agent_scope.
Open Scope agent_scope.

(** [console.log], [console.warn], [console.error]: the line written.
    Two arguments are written with a space between them (a first
    argument is taken to hold no format directive such as [%s]). *)
Definition console (l : level) (text : string) : M unit :=
  request (Console l text) (fun _ => Ok tt).

(** [await new Promise((r) => setTimeout(r, ms))] *)
Definition sleep (ms : nat) : M unit :=
  request (Sleep ms) (fun _ => Ok tt).

(** *** Members of a value *)

(** [v.k] for a value that is not [null] or [undefined]: the members
    read by the program ([kind], [metadata], [name], [namespace]) are
    own properties of an object, and no other value has them. *)
Definition prop (v : value) (k : string) : value :=
  match v with
  | VObj o =>
      match obj_get k o with
      | Some x => x
      | None => VUndefined
      end
  | _ => VUndefined
  end.

(** [`${v}`]: the string a template literal makes of a value.  An
    array is joined with commas, [null] and [undefined] elements giving
    the empty string. *)
Definition element_string (rec : value -> string) (v : value) : string :=
  if is_nullish v then EmptyString else rec v.

Fixpoint js_string (v : value) : string :=
  match v with
  | VNull => "null"
  | VUndefined => "undefined"
  | VBool b => if b then "true" else "false"
  | VNum n => number_to_string n
  | VStr s => s
  | VArr items => join "," (map (element_string js_string) items)
  | VObj _ => "[object Object]"
  end.

(** The messages of the [TypeError]s, as V8 words them. *)
Definition type_error_read (v : value) (k : string) : string :=
  "Cannot read properties of " ++ js_string v ++ " (reading '" ++ k ++ "')".

Definition type_name (v : value) : string :=
  match typeof v with
  | TUndefined => "undefined"
  | TObject => "object"
  | TBoolean => "boolean"
  | TNumber => "number"
  | TString => "string"
  end.

Definition type_error_assign (v : value) (k : string) : string :=
  if is_nullish v
  then "Cannot set properties of " ++ js_string v
       ++ " (setting '" ++ k ++ "')"
  else "Cannot create property '" ++ k ++ "' on " ++ type_name v
       ++ " '" ++ js_string v ++ "'".

(** [v.k], a [TypeError] when [v] is [null] or [undefined]. *)
Definition member (v : value) (k : string) : outcome value :=
  if is_nullish v then Throw (type_error_read v k) else Ok (prop v k).

(** [v.k = x], the value [v] stands for afterwards.  The module is
    strict code: the assignment throws on a primitive.  An array takes
    the member as a property beside its elements; a document has no
    place for such a property, and the array is kept as it is: what is
    stated below about a member assigned to [metadata] is stated for a
    metadata that is not a sequence. *)
Definition assign (v : value) (k : string) (x : value) : outcome value :=
  match v with
  | VObj o => Ok (VObj (obj_set k x o))
  | VArr items => Ok (VArr items)
  | _ => Throw (type_error_assign v k)
  end.

(** ** The dispatcher: [executeCommand] *)

Section Agent.

Variable world : World.

(** *** [get_manifests] *)

(** The kinds the [switch] of [get_manifests] knows. *)
Definition catalog : list string :=
  ["Deployment"; "Service"; "ConfigMap"; "Secret"; "Ingress";
   "StatefulSet"; "DaemonSet"; "CronJob"; "Job";
   "HorizontalPodAutoscaler"; "PersistentVolumeClaim"].

Definition in_catalog (kind : string) : bool :=
  existsb (String.eqb kind) catalog.

(** [await <api>.readNamespaced<Kind>({ name, namespace })] *)
Definition readNamespaced (kind name namespace : string) : M value :=
  request (ReadNamespaced kind name namespace)
          (fun t => read_namespaced world t kind name namespace).

(** The body of the loop over [requested]: the documents pushed to
    [docs] and the warning of the [catch]. *)
Definition fetch_manifest (namespace : string) (item : string * string)
    (docs : list string) : M (list string) :=
  let (kind, name) := item in
  try_catch
    (raw <- (if in_catalog kind
             then readNamespaced kind name namespace
             else ret VNull) ;;
     if truthy raw
     then
       text <- lift (yaml_dump world (VObj (cleanManifest (spread raw)))) ;;
       ret (docs ++ [text])%list
     else ret docs)
    (fun message =>
       console WarnLevel
         ("Failed to fetch " ++ kind ++ "/" ++ name ++ ": " ++ message) ;;
       ret docs).

Fixpoint fetch_manifests (namespace : string)
    (requested : list (string * string)) (docs : list string)
  : M (list string) :=
  match requested with
  | [] => ret docs
  | item :: rest =>
      docs' <- fetch_manifest namespace item docs ;;
      fetch_manifests namespace rest docs'
  end.

(** The line that separates two documents of the blob. *)
Definition separator : string :=
  "---" ++ String (ascii_of_nat 10) EmptyString.

Definition get_manifests (p : Payload) : M result_payload :=
  docs <- fetch_manifests (namespace p) (resources p) [] ;;
  ret (Manifests (join separator docs)).

(** *** [apply_manifest] *)

(** The member assigned in place: [v] after [v.k = x], for an object;
    an array is kept as it is, as in [assign]. *)
Definition update_member (v : value) (k : string) (x : value) : value :=
  match v with
  | VObj o => VObj (obj_set k x o)
  | _ => v
  end.

(** The two defaulting statements that open the [try] block; [metadata]
    and [name] are the constants read before it.  The result is [obj]
    as the client receives it. *)
Definition apply_defaults (namespace : string) (obj metadata name : value)
  : outcome value :=
  let placeholder :=
    VObj [("name", if truthy name then name else VStr "unnamed")] in
  let missing :=
    negb (truthy metadata) || negb (jstype_eqb (typeof metadata) TObject) in
  match (if missing then assign obj "metadata" placeholder else Ok obj) with
  | Throw message => Throw message
  | Ok obj' =>
      let meta := if missing then placeholder else metadata in
      if negb (truthy (prop meta "namespace"))
      then Ok (update_member obj' "metadata"
                 (update_member meta "namespace" (VStr namespace)))
      else Ok obj'
  end.

Definition clientRead (resource : value) : M value :=
  request (ClientRead resource) (fun t => client_read world t resource).

Definition clientPatch (resource : value) (dryRunParam : option string)
  : M unit :=
  request (ClientPatch resource dryRunParam)
          (fun t => client_patch world t resource dryRunParam).

Definition clientCreate (resource : value) (dryRunParam : option string)
  : M unit :=
  request (ClientCreate resource dryRunParam)
          (fun t => client_create world t resource dryRunParam).

Definition check_mark : string := "  ✓ ".
Definition cross_mark : string := "  ✗ ".
Definition indent (line : string) : string := "      " ++ line.

(** The rest of the [try] block: read the live state, patch or create,
    and the entry and the log lines pushed on success. *)
Definition reconcile (dry : bool) (resourceLabel : string) (resource : value)
  : M (apply_entry * list string) :=
  let dryRunParam := if dry then Some "All" else None in
  liveObj <- try_catch (clientRead resource) (fun _ => ret VNull) ;;
  if truthy liveObj
  then
    clientPatch resource dryRunParam ;;
    let action :=
      if dry then resourceLabel ++ " validated (would update)"
      else resourceLabel ++ " configured" in
    let diffLines :=
      if dry
      then deepDiff (cleanForDiff liveObj) (cleanForDiff resource) EmptyString
      else [] in
    ret ({| resource := resourceLabel; success := true; error := None;
            log := Some action; diff := Some diffLines |},
         (check_mark ++ action)
           :: (if dry
               then if Nat.eqb (length diffLines) 0
                    then ["      (no changes)"]
                    else map indent diffLines
               else []))
  else
    clientCreate resource dryRunParam ;;
    let action :=
      if dry then resourceLabel ++ " validated (would create)"
      else resourceLabel ++ " created" in
    let diffLines :=
      if dry then summarizeObject (cleanForDiff resource) EmptyString
      else [] in
    ret ({| resource := resourceLabel; success := true; error := None;
            log := Some action; diff := Some diffLines |},
         (check_mark ++ action)
           :: (if dry then map indent diffLines else [])).

(** [results] and [logs] *)
Record progress : Type := {
  results : list apply_entry;
  logs : list string
}.

Definition failure_entry (resourceLabel message : string) : apply_entry :=
  {| resource := resourceLabel; success := false; error := Some message;
     log := Some (resourceLabel ++ " failed: " ++ message); diff := None |}.

Definition failure_line (resourceLabel message : string) : string :=
  cross_mark ++ resourceLabel ++ " failed: " ++ message.

(** The body of the loop over [manifests].  The parse and the reads of
    [kind], [metadata] and [name] come before the [try] block. *)
Definition apply_one (namespace : string) (dry : bool) (manifestStr : string)
    (st : progress) : M progress :=
  obj <- lift (yaml_load world manifestStr) ;;
  kind <- lift (member obj "kind") ;;
  let metadata := prop obj "metadata" in
  let name :=
    if is_nullish metadata then VUndefined else prop metadata "name" in
  let resourceLabel := js_string kind ++ "/" ++ js_string name in
  try_catch
    (resource <- lift (apply_defaults namespace obj metadata name) ;;
     pushed <- reconcile dry resourceLabel resource ;;
     ret {| results := (results st ++ [fst pushed])%list;
            logs := (logs st ++ snd pushed ++ [EmptyString])%list |})
    (fun message =>
       ret {| results :=
                (results st ++ [failure_entry resourceLabel message])%list;
              logs :=
                (logs st ++ [failure_line resourceLabel message;
                             EmptyString])%list |}).

Fixpoint apply_all (namespace : string) (dry : bool) (manifests : list string)
    (st : progress) : M progress :=
  match manifests with
  | [] => ret st
  | manifestStr :: rest =>
      st' <- apply_one namespace dry manifestStr st ;;
      apply_all namespace dry rest st'
  end.

Definition newline : string := String (ascii_of_nat 10) EmptyString.

Definition header (dry : bool) (count : nat) (namespace : string) : string :=
  (if dry then "Dry run" else "Deploying") ++ ": " ++ nat_to_string count
  ++ " resource(s) to namespace " ++ quoted namespace.

Definition summary (entries : list apply_entry) : string :=
  "Done: " ++ nat_to_string (length (filter success entries)) ++ " passed, "
  ++ nat_to_string (length (filter (fun r => negb (success r)) entries))
  ++ " failed".

Definition apply_manifest (p : Payload) : M result_payload :=
  let dry := strict_eq (dryRun p) (VBool true) in
  st <- apply_all (namespace p) dry (manifests p)
          {| results := [];
             logs := [header dry (length (manifests p)) (namespace p);
                      EmptyString] |} ;;
  ret (Applied (results st)
               (join newline (logs st ++ [summary (results st)])%list)
               dry).

(** *** The [switch] over the command type *)

(** The object [executeCommand] returns: [{ result }] or [{ error }]. *)
Inductive returned : Type :=
| Result (r : result_payload)
| Error (message : string).

Definition listing (cmd : Command) : M returned :=
  v <- request (Query (type cmd) (payload cmd))
               (fun t => query world t (type cmd) (payload cmd)) ;;
  ret (Result (Listing v)).

Definition executeCommand (cmd : Command) : M returned :=
  if type cmd =? "list_namespaces" then listing cmd
  else if type cmd =? "list_resources" then listing cmd
  else if type cmd =? "get_manifests" then
    r <- get_manifests (payload cmd) ;; ret (Result r)
  else if type cmd =? "apply_manifest" then
    r <- apply_manifest (payload cmd) ;; ret (Result r)
  else if type cmd =? "get_logs" then listing cmd
  else ret (Error ("Unknown command type: " ++ type cmd)).

(** ** The control loop: [poll], [submitResult] and [main] *)

Definition poll : M (option Command) :=
  res <- request Poll (fetch_poll world) ;;
  if negb (ok res)
  then
    console ErrorLevel ("Poll failed: " ++ nat_to_string (http_status res)) ;;
    ret None
  else lift (command res).

Definition submitResult (commandId : string) (st : status)
    (result : option result_payload) (error : option string) : M unit :=
  request (SubmitResult commandId st result error)
          (fun t => fetch_result world t commandId st result error).

(** The statements under [if (cmd)]. *)
Definition execute_and_report (cmd : Command) : M unit :=
  console LogLevel ("Executing command " ++ id cmd ++ ": " ++ type cmd) ;;
  try_catch
    (r <- executeCommand cmd ;;
     match r with
     | Error message =>
         if negb (message =? EmptyString)
         then submitResult (id cmd) failed None (Some message)
         else submitResult (id cmd) completed None None
     | Result r => submitResult (id cmd) completed (Some r) None
     end ;;
     console LogLevel ("Command " ++ id cmd ++ " completed"))
    (fun message =>
       console ErrorLevel ("Command " ++ id cmd ++ " failed: " ++ message) ;;
       submitResult (id cmd) failed None (Some message)).

(** The delay of the backoff, in milliseconds. *)
Definition backoff : nat := 3000.

(** One turn of the [while (running)] loop. *)
Definition iteration : M unit :=
  try_catch
    (cmd <- poll ;;
     match cmd with
     | Some cmd => execute_and_report cmd
     | None => ret tt
     end)
    (fun message =>
       console ErrorLevel ("Poll error: " ++ message) ;;
       sleep backoff).

(** The loop, for the [n] turns it makes before [running] is cleared. *)
Fixpoint main_loop (n : nat) : M unit :=
  match n with
  | 0 => ret tt
  | S n' => iteration ;; main_loop n'
  end.

End Agent.

(** ** The diff of documents in memory

    [live === desired] relates an array or an object to itself only.
    [deepDiff] above is the diff of two documents built separately, as
    the dry run calls it; here a document is taken as it lies in memory,
    every array and every object with the address it is stored at, so
    that the two arguments of the diff may be, or may share, the same
    array or object. *)

Unset Elimination Schemes.
Inductive rvalue : Type :=
| RNull
| RUndefined
| RBool (b : bool)
| RNum (n : number)
| RStr (s : string)
| RArr (address : nat) (items : list rvalue)
| RObj (address : nat) (entries : list (string * rvalue)).
Set Elimination Schemes.

Section RvalueInduction.
Variable P : rvalue -> Prop.
Hypothesis Hnull : P RNull.
Hypothesis Hundef : P RUndefined.
Hypothesis Hbool : forall b, P (RBool b).
Hypothesis Hnum : forall n, P (RNum n).
Hypothesis Hstr : forall s, P (RStr s).
Hypothesis Harr : forall a items, Forall P items -> P (RArr a items).
Hypothesis Hobj :
  forall a entries, Forall (fun kv => P (snd kv)) entries ->
                    P (RObj a entries).

Fixpoint rvalue_ind (v : rvalue) : P v :=
  match v with
  | RNull => Hnull
  | RUndefined => Hundef
  | RBool b => Hbool b
  | RNum n => Hnum n
  | RStr s => Hstr s
  | RArr a items =>
      Harr a items
        ((fix all (l : list rvalue) : Forall P l :=
            match l with
            | [] => Forall_nil P
            | x :: l' => Forall_cons x (rvalue_ind x) (all l')
            end) items)
  | RObj a entries =>
      Hobj a entries
        ((fix all (l : list (string * rvalue))
            : Forall (fun kv => P (snd kv)) l :=
            match l with
            | [] => Forall_nil _
            | kv :: l' =>
                Forall_cons (P := fun kv => P (snd kv)) kv
                  (rvalue_ind (snd kv)) (all l')
            end) entries)
  end.
End RvalueInduction.

(** The document stored: the value without the addresses. *)
Fixpoint content (v : rvalue) : value :=
  match v with
  | RNull => VNull
  | RUndefined => VUndefined
  | RBool b => VBool b
  | RNum n => VNum n
  | RStr s => VStr s
  | RArr _ items => VArr (map content items)
  | RObj _ entries => VObj (map (fun kv => (fst kv, content (snd kv))) entries)
  end.

Definition contents (entries : list (string * rvalue)) : Obj :=
  map (fun kv => (fst kv, content (snd kv))) entries.

(** The addresses of the arrays and objects of a document. *)
Fixpoint addresses (v : rvalue) : list nat :=
  match v with
  | RArr a items => a :: flat_map addresses items
  | RObj a entries => a :: flat_map (fun kv => addresses (snd kv)) entries
  | _ => []
  end.

(** [a === b]: two arrays or two objects are the same when they are
    stored at the same address; scalars are compared as above. *)
Definition strict_eq_ref (a b : rvalue) : bool :=
  match a, b with
  | RArr x _, RArr y _ => Nat.eqb x y
  | RObj x _, RObj y _ => Nat.eqb x y
  | _, _ => strict_eq (content a) (content b)
  end.

(** [o[k]] *)
Fixpoint ref_get (k : string) (o : list (string * rvalue)) : option rvalue :=
  match o with
  | [] => None
  | (k', v) :: rest => if k' =? k then Some v else ref_get k rest
  end.

Definition diff_arrays_ref (rec : rvalue -> rvalue -> string -> list string)
    (path : string) : list rvalue -> list rvalue -> nat -> list string :=
  fix loop (ls ds : list rvalue) (i : nat) : list string :=
    match ls, ds with
    | [], _ => added_items path i (map content ds)
    | _ :: _, [] => removed_items path i (map content ls)
    | l :: ls', d :: ds' =>
        (rec l d (index_path path i) ++ loop ls' ds' (S i))%list
    end.

Definition diff_objects_ref (rec : rvalue -> rvalue -> string -> list string)
    (path : string) (desiredObj : list (string * rvalue))
  : list (string * rvalue) -> list string :=
  fix loop (es : list (string * rvalue)) : list string :=
    match es with
    | [] => []
    | (key, l) :: rest =>
        (match ref_get key desiredObj with
         | None => [remove_line (key_path path key) (content l)]
         | Some d => rec l d (key_path path key)
         end ++ loop rest)%list
    end.

(** [deepDiff], with [===] as it is on documents in memory. *)
Fixpoint deepDiff_ref (live desired : rvalue) (path : string) : list string :=
  if strict_eq_ref live desired then []
  else if negb (jstype_eqb (typeof (content live)) (typeof (content desired)))
          || strict_eq (content live) VNull
          || strict_eq (content desired) VNull
          || negb (jstype_eqb (typeof (content live)) TObject)
          || negb (jstype_eqb (typeof (content desired)) TObject)
  then
    if negb (strict_eq_ref live desired)
    then [modify_line path (content live) (content desired)] else []
  else
    match live, desired with
    | RArr _ liveArr, RArr _ desiredArr =>
        diff_arrays_ref deepDiff_ref path liveArr desiredArr 0
    | RObj _ liveObj, RObj _ desiredObj =>
        (diff_objects_ref deepDiff_ref path desiredObj liveObj
         ++ added_keys path (contents liveObj) (contents desiredObj))%list
    | _, _ => [modify_line path (content live) (content desired)]
    end.

(** ** The commands that only read the cluster, in detail

    The dispatcher above takes [list_resources] and [get_logs] as one
    request each.  What the two cases do with the answers of the cluster
    is spelled out here.  The answers of the client library are taken
    with the types the library declares: a list holds [items], an item
    may hold [metadata], and metadata may hold a [name]. *)

Module V1.

Record ObjectMeta : Type := { name : option string }.

Record Object : Type := { metadata : option ObjectMeta }.

Record List : Type := { items : option (list Object) }.

End V1.

(** [i.metadata?.name || ''] *)
Definition name_of (i : V1.Object) : string :=
  match V1.metadata i with
  | Some meta =>
      match V1.name meta with
      | Some name => name
      | None => EmptyString
      end
  | None => EmptyString
  end.

(** [r.items || []] *)
Definition items_of (r : V1.List) : list V1.Object :=
  match V1.items r with
  | Some items => items
  | None => []
  end.

(** *** [list_resources] *)

Module ListResources.

(** An element of [resources]. *)
Record row : Type := {
  kind : string;
  apiVersion : string;
  name : string;
  namespace : string
}.

(** The eleven fetchers, by the kind and the API version they push. *)
Definition fetchers : list (string * string) :=
  [("Deployment", "apps/v1"); ("Service", "v1"); ("ConfigMap", "v1");
   ("Secret", "v1"); ("Ingress", "networking.k8s.io/v1");
   ("StatefulSet", "apps/v1"); ("DaemonSet", "apps/v1");
   ("CronJob", "batch/v1"); ("Job", "batch/v1");
   ("HorizontalPodAutoscaler", "autoscaling/v1");
   ("PersistentVolumeClaim", "v1")].

(** What one fetcher pushes once its list call has settled: a row per
    item, or nothing when the call was rejected. *)
Definition rows (namespace : string) (fetcher : string * string)
    (answer : outcome V1.List) : list row :=
  match answer with
  | Ok r =>
      map (fun i => {| kind := fst fetcher; apiVersion := snd fetcher;
                       name := name_of i; namespace := namespace |})
          (items_of r)
  | Throw _ => []
  end.

(** [resources] after [Promise.allSettled]: the eleven list calls are
    started together, and each fetcher pushes its rows, in one go, when
    its call settles; [settled] lists the fetchers in the order in which
    their calls settle.  [listNamespaced kind namespace] is the answer
    to the list call of the fetcher of [kind]. *)
Definition list_resources
    (listNamespaced : string -> string -> outcome V1.List)
    (settled : list (string * string)) (namespace : string) : list row :=
  flat_map (fun fetcher =>
              rows namespace fetcher (listNamespaced (fst fetcher) namespace))
           settled.

End ListResources.

(** *** [get_logs] *)

(** [s.split('\n')] *)
Fixpoint split_lines (s : string) : list string :=
  match s with
  | EmptyString => [EmptyString]
  | String c rest =>
      if Ascii.eqb c (ascii_of_nat 10) then EmptyString :: split_lines rest
      else
        match split_lines rest with
        | line :: lines => String c line :: lines
        | [] => [String c EmptyString]
        end
  end.

(** [hay.includes(needle)] *)
Fixpoint includes (needle hay : string) : bool :=
  String.prefix needle hay
  || match hay with
     | EmptyString => false
     | String _ rest => includes needle rest
     end.

Module GetLogs.

(** The payload of the command, with the types the case casts its
    members to. *)
Record Payload : Type := {
  namespace : string;
  podName : option string;
  search : option string;
  tailLines : option number
}.

(** The requests to the cluster. *)
Inductive call : Type :=
| ReadNamespacedPodLog (name namespace : string) (tailLines : number)
| ListNamespacedPod (namespace : string).

(** The cluster: an answer may depend on the requests made before. *)
Record World : Type := {
  readNamespacedPodLog :
    list call -> string -> string -> number -> outcome value;
  listNamespacedPod : list call -> string -> outcome V1.List
}.

(** An element of [pods]. *)
Record pod_logs : Type := {
  name : string;
  logs : string
}.

(** [if (s)] for an optional string. *)
Definition given (s : option string) : bool :=
  match s with
  | Some s => negb (s =? EmptyString)
  | None => false
  end.

(** [(cmd.payload.tailLines as number) || 200] *)
Definition requested_tail (p : Payload) : number :=
  match tailLines p with
  | Some n => if truthy (VNum n) then n else Int 200
  | None => Int 200
  end.

(** [Math.min(tailLines, 100)] *)
Definition capped (n : number) : number :=
  match n with
  | Int z => Int (Z.min z 100)
  | NaN => NaN
  end.

(** [typeof log === 'string' ? log : ''] *)
Definition text_of (log : value) : string :=
  match log with
  | VStr s => s
  | _ => EmptyString
  end.

Section Strings.

(** [String.prototype.toLowerCase] and [String.prototype.trim]. *)
Variables (toLowerCase trim : string -> string).

(** The lines kept by the search, joined again; the text as it is when
    no search is given. *)
Definition matching (search : option string) (lines : string) : string :=
  match search with
  | Some s =>
      if s =? EmptyString then lines
      else join newline
             (filter (fun l => includes (toLowerCase s) (toLowerCase l))
                     (split_lines lines))
  | None => lines
  end.

Variable world : World.

(** The loop over the first fifty pods: [pods] and the requests made. *)
Fixpoint collect (p : Payload) (items : list V1.Object)
    (pods : list pod_logs) (made : list call) : list pod_logs * list call :=
  match items with
  | [] => (pods, made)
  | pod :: rest =>
      let name := name_of pod in
      if name =? EmptyString then collect p rest pods made
      else
        let tail := capped (requested_tail p) in
        let made' :=
          (made ++ [ReadNamespacedPodLog name (namespace p) tail])%list in
        match readNamespacedPodLog world made name (namespace p) tail with
        | Ok log =>
            let lines := matching (search p) (text_of log) in
            if negb (trim lines =? EmptyString)
            then collect p rest
                   (pods ++ [{| name := name; logs := lines |}])%list made'
            else collect p rest pods made'
        | Throw _ => collect p rest pods made'
        end
  end.

(** The case [get_logs]: [pods] of the result, or the exception that
    leaves [executeCommand], and the requests made. *)
Definition get_logs (p : Payload) (made : list call)
  : outcome (list pod_logs) * list call :=
  match podName p with
  | Some name =>
      if negb (name =? EmptyString)
      then
        let made' :=
          (made ++ [ReadNamespacedPodLog name (namespace p)
                      (requested_tail p)])%list in
        match readNamespacedPodLog world made name (namespace p)
                (requested_tail p) with
        | Ok log =>
            (Ok [{| name := name;
                    logs := matching (search p) (text_of log) |}], made')
        | Throw message => (Throw message, made')
        end
      else
        let made' := (made ++ [ListNamespacedPod (namespace p)])%list in
        match listNamespacedPod world made (namespace p) with
        | Ok podList =>
            let (pods, made'') :=
              collect p (firstn 50 (items_of podList)) [] made' in
            (Ok pods, made'')
        | Throw message => (Throw message, made')
        end
  | None =>
      let made' := (made ++ [ListNamespacedPod (namespace p)])%list in
      match listNamespacedPod world made (namespace p) with
      | Ok podList =>
          let (pods, made'') :=
            collect p (firstn 50 (items_of podList)) [] made' in
          (Ok pods, made'')
      | Throw message => (Throw message, made')
      end
  end.

End Strings.

End GetLogs.

(** ** Registration: [register] and the retry loop of [main] *)

Module Registration.

(** The requests of the registration, the console lines and the
    delays. *)
Inductive call : Type :=
| GetCode
| PostRegister (clusterVersion : value)
| Console (l : level) (text : string)
| Sleep (ms : nat).

(** The response to the registration request: [res.ok], [res.status],
    and what [res.text()] and [res.json()] give. *)
Record response : Type := {
  ok : bool;
  status : nat;
  text : outcome string;
  json : outcome value
}.

(** The cluster, asked for its version, and the control plane; an answer
    may depend on what was done before. *)
Record World : Type := {
  getCode : list call -> outcome value;
  fetch_register : list call -> value -> outcome response
}.

Section Agent.

Variable world : World.

(** The [try] block that opens [register]: [clusterVersion], left
    [undefined] when the version cannot be fetched. *)
Definition cluster_version (made : list call) : value * list call :=
  let made' := (made ++ [GetCode])%list in
  let warned :=
    (made' ++ [Console WarnLevel "Could not fetch cluster version"])%list in
  match getCode world made with
  | Ok info =>
      match member info "gitVersion" with
      | Ok gitVersion => (gitVersion, made')
      | Throw _ => (VUndefined, warned)
      end
  | Throw _ => (VUndefined, warned)
  end.

Definition register (made : list call) : outcome value * list call :=
  let (clusterVersion, made1) := cluster_version made in
  let made2 := (made1 ++ [PostRegister clusterVersion])%list in
  match fetch_register world made1 clusterVersion with
  | Throw message => (Throw message, made2)
  | Ok res =>
      if negb (ok res)
      then
        match text res with
        | Ok body =>
            (Throw ("Registration failed: " ++ nat_to_string (status res)
                    ++ " " ++ body), made2)
        | Throw message => (Throw message, made2)
        end
      else
        match json res with
        | Throw message => (Throw message, made2)
        | Ok data =>
            match member data "agentId" with
            | Throw message => (Throw message, made2)
            | Ok agentId =>
                (Ok agentId,
                 (made2
                  ++ [Console LogLevel
                        ("Registered as agent " ++ js_string agentId
                         ++ ", connection "
                         ++ js_string (prop data "connectionId"))])%list)
            end
        end
  end.

(** The delay before a new attempt, in milliseconds. *)
Definition retry_delay : nat := 5000.

(** The loop [while (running && !agentId)], for the [n] turns it can
    make before [running] is cleared: [agentId] when the loop is left,
    and what was done. *)
Fixpoint register_loop (n : nat) (agentId : value) (made : list call)
  : value * list call :=
  if truthy agentId then (agentId, made)
  else
    match n with
    | 0 => (agentId, made)
    | S n' =>
        match register made with
        | (Ok agentId', made') => register_loop n' agentId' made'
        | (Throw message, made') =>
            register_loop n' agentId
              (made'
               ++ [Console ErrorLevel
                     ("Registration failed, retrying in 5s: " ++ message);
                   Sleep retry_delay])%list
        end
    end.

End Agent.

End Registration.

(** * The vocabulary of the properties

    Deep equality of documents, documents that differ in one field, the
    shape of a cleaned document, the events of a trace, and sample
    documents and worlds on which the statements are run. *)

(** ** The shape of a cleaned document *)

(** The two halves of [clean_metadata], named for the proofs. *)
Definition strip_meta (o : Obj) : Obj :=
  obj_delete "selfLink" (obj_delete "generation"
    (obj_delete "creationTimestamp" (obj_delete "uid"
      (obj_delete "resourceVersion" (obj_delete "managedFields" o))))).

Definition drop_empty (k : string) (o : Obj) : Obj :=
  if empty_map_at k o then obj_delete k o else o.

(** The entries of a cleaned object, one by one. *)
Definition kept_as (k : string) (v v' : value) : Prop :=
  server_managed k = false /\
  ((k = "annotations" /\ is_object v = true /\
    strip_annotations v <> [] /\ v' = VObj (strip_annotations v))
   \/
   ((k <> "annotations" \/ is_object v = false) /\
    is_nullish v = false /\ v' = cleanForDiff v)).

(** Whether a path goes through an [annotations] key. *)
Definition through_annotations (p : list step) : bool :=
  existsb (fun s => match s with
                    | Key k => k =? "annotations"
                    | Idx _ => false
                    end) p.

(** ** Equal documents, and documents that differ in one field *)

(** Deep value equality: scalars are compared by [===]; two arrays are
    equal when they have the same length and equal elements at every
    index; two objects are equal when they have the same keys and equal
    values under every key, in whatever order the keys are listed. *)
Definition equal_items (rec : value -> value -> bool)
  : list value -> list value -> bool :=
  fix all (xs ys : list value) : bool :=
    match xs, ys with
    | [], [] => true
    | x :: xs', y :: ys' => rec x y && all xs' ys'
    | _, _ => false
    end.

Definition equal_entries (rec : value -> value -> bool) (o' : Obj)
  : Obj -> bool :=
  fix all (es : Obj) : bool :=
    match es with
    | [] => true
    | (k, x) :: rest =>
        match obj_get k o' with
        | Some y => rec x y
        | None => false
        end && all rest
    end.

Fixpoint deep_equal (a b : value) : bool :=
  match a, b with
  | VArr xs, VArr ys => equal_items deep_equal xs ys
  | VObj o, VObj o' =>
      equal_entries deep_equal o' o
      && forallb (fun kv => has_key (fst kv) o) o'
  | _, _ => strict_eq a b
  end.

(** A document without [NaN] is deeply equal to itself. *)
Fixpoint nan_free (v : value) : bool :=
  match v with
  | VNum NaN => false
  | VArr items => forallb nan_free items
  | VObj o => forallb (fun kv => nan_free (snd kv)) o
  | _ => true
  end.

(** A list of entries stands for an object when its keys are pairwise
    distinct; a document is well formed when this holds of every object
    in it. *)
Fixpoint distinct (ks : list string) : bool :=
  match ks with
  | [] => true
  | k :: rest => negb (existsb (String.eqb k) rest) && distinct rest
  end.

Fixpoint well_formed (v : value) : bool :=
  match v with
  | VArr items => forallb well_formed items
  | VObj o => distinct (keys o) && forallb (fun kv => well_formed (snd kv)) o
  | _ => true
  end.

(** What the induction gives for the parts of the live document. *)
Definition no_output (live : value) : Prop :=
  forall desired path,
    deep_equal live desired = true -> deepDiff live desired path = [].

(** [typeof v !== 'object'], or [v] is [null]: not an array or object. *)
Definition is_scalar (v : value) : bool :=
  match v with
  | VArr _ | VObj _ => false
  | _ => true
  end.


Definition equal_values (x y : value) : Prop := deep_equal x y = true.


(** ** The events of a trace *)

(** The result submissions recorded in a trace. *)
Definition is_submission (e : event) : bool :=
  match e with
  | SubmitResult _ _ _ _ => true
  | _ => false
  end.

Definition submissions (t : trace) : list event := filter is_submission t.

(** The delays recorded in a trace. *)
Definition is_sleep (e : event) : bool :=
  match e with
  | Sleep _ => true
  | _ => false
  end.

Definition delays (t : trace) : list event := filter is_sleep t.

(** A computation is quiet when the events it adds to the trace hold no
    result submission. *)
Definition quiet {A : Type} (m : M A) : Prop :=
  forall t, exists new,
    snd (m t) = (t ++ new)%list /\ submissions new = [].

(** A manifest text is processable when the parser returns a value on
    which [obj.kind] can be read. *)
Definition processable (world : World) (manifestStr : string) : Prop :=
  exists obj, yaml_load world manifestStr = Ok obj /\ is_nullish obj = false.

Definition never_rejects (world : World) : Prop :=
  forall t commandId st result error,
    fetch_result world t commandId st result error = Ok tt.

Definition announce (cmd : Command) : event :=
  Console LogLevel ("Executing command " ++ id cmd ++ ": " ++ type cmd)%string.

(** What [execute_and_report] submits, by what [executeCommand] did. *)
Definition report_of (cmd : Command) (o : outcome returned) : event :=
  match o with
  | Ok (Result r) => SubmitResult (id cmd) completed (Some r) None
  | Ok (Error message) => SubmitResult (id cmd) failed None (Some message)
  | Throw message => SubmitResult (id cmd) failed None (Some message)
  end.

(** ** Sample documents *)



(** A ConfigMap with a data key named [status], and a resource whose
    annotations hold a key named [status] and a [null] value. *)
Definition configmap_status_key : value :=
  VObj [("kind", VStr "ConfigMap");
        ("metadata", VObj [("name", VStr "cfg")]);
        ("data", VObj [("status", VStr "green"); ("mode", VStr "fast")])].

Definition doc_status_annotation : value :=
  VObj [("kind", VStr "ConfigMap");
        ("metadata",
         VObj [("name", VStr "cfg");
               ("annotations", VObj [("status", VStr "x"); ("note", VNull)])])].

(** A live Service as the cluster returns it, with empty [labels] and
    [annotations]. *)
Definition live_service : Obj :=
  [("kind", VStr "Service");
   ("metadata", VObj [("name", VStr "web");
                      ("uid", VStr "7f3a");
                      ("resourceVersion", VStr "42");
                      ("labels", VObj []);
                      ("annotations", VObj [])]);
   ("spec", VObj [("type", VStr "ClusterIP")]);
   ("status", VObj [("loadBalancer", VObj [])])].


Definition deployment_doc_reordered : value :=
  VObj [("kind", VStr "Deployment");
        ("spec", VObj [("ports", VArr [VNum (Int 80); VNum (Int 443)]);
                       ("replicas", VNum (Int 3));
                       ("paused", VBool false)]);
        ("apiVersion", VStr "apps/v1");
        ("metadata", VObj [("labels", VObj [("app", VStr "web")]);
                           ("name", VStr "web")])].



(** ** Sample worlds, for running the agent on explicit inputs *)

Definition configmap_text : string :=
  "{kind: ConfigMap, metadata: {name: cfg}, data: {mode: fast}}".

Definition configmap_doc : value :=
  VObj [("kind", VStr "ConfigMap");
        ("metadata", VObj [("name", VStr "cfg")]);
        ("data", VObj [("mode", VStr "fast")])].

Definition service_text : string :=
  "{kind: Service, metadata: {name: web, namespace: edge}}".

Definition service_doc : value :=
  VObj [("kind", VStr "Service");
        ("metadata", VObj [("name", VStr "web");
                           ("namespace", VStr "edge")])].

(** A manifest whose metadata has labels and no name. *)
Definition unnamed_text : string :=
  "{kind: ConfigMap, metadata: {labels: {app: web}}}".

Definition unnamed_doc : value :=
  VObj [("kind", VStr "ConfigMap");
        ("metadata", VObj [("labels", VObj [("app", VStr "web")])])].

(** A flow mapping that is never closed: the parser throws. *)
Definition malformed_text : string := "{kind: ConfigMap, metadata: {name: cfg".

Definition parse_error : string :=
  "unexpected end of the stream within a flow collection".

Definition sample_load (text : string) : outcome value :=
  if text =? configmap_text then Ok configmap_doc
  else if text =? service_text then Ok service_doc
  else if text =? unnamed_text then Ok unnamed_doc
  else Throw parse_error.

(** A cluster that holds the Service [web] of namespace [edge] and the
    ConfigMap [cfg] of namespace [prod], and accepts every write. *)
Definition sample_read (resource : value) : outcome value :=
  if strict_eq (prop resource "kind") (VStr "Service")
  then Ok (VObj [("kind", VStr "Service");
                 ("metadata", VObj [("name", VStr "web");
                                    ("namespace", VStr "edge");
                                    ("uid", VStr "7f3a")]);
                 ("status", VObj [])])
  else Throw "HTTP-Code: 404".

Definition sample_read_namespaced (kind name namespace : string)
  : outcome value :=
  if (kind =? "ConfigMap") && (name =? "cfg") && (namespace =? "prod")
  then Ok (VObj [("kind", VStr "ConfigMap");
                 ("metadata", VObj [("name", VStr "cfg");
                                    ("namespace", VStr "prod");
                                    ("uid", VStr "91c2")]);
                 ("data", VObj [("mode", VStr "fast")])])
  else Throw "HTTP-Code: 404".

Definition sample_world
    (poll_answer : trace -> outcome poll_response)
    (submit_answer : trace -> outcome unit) : World :=
  {| client_read := fun _ resource => sample_read resource;
     client_patch := fun _ _ _ => Ok tt;
     client_create := fun _ _ _ => Ok tt;
     read_namespaced := fun _ => sample_read_namespaced;
     query := fun _ _ _ => Ok (VArr [VStr "default"; VStr "prod"]);
     fetch_poll := poll_answer;
     fetch_result := fun t _ _ _ _ => submit_answer t;
     yaml_load := sample_load;
     yaml_dump := fun v => Ok (formatValue v) |}.

Definition no_payload : Payload :=
  {| namespace := "prod"; resources := []; manifests := [];
     dryRun := VUndefined |}.

Definition list_command : Command :=
  {| id := "c1"; type := "list_namespaces"; payload := no_payload |}.

Definition get_command : Command :=
  {| id := "c2"; type := "get_manifests";
     payload := {| namespace := "prod";
                   resources := [("ConfigMap", "cfg"); ("Widget", "w")];
                   manifests := []; dryRun := VUndefined |} |}.

(** A batch of three manifests, the second of which is malformed. *)
Definition apply_command : Command :=
  {| id := "c3"; type := "apply_manifest";
     payload := {| namespace := "prod"; resources := [];
                   manifests := [configmap_text; malformed_text;
                                 service_text];
                   dryRun := VBool false |} |}.

(** A batch whose manifests all parse; the cluster holds the second. *)
Definition apply_command_good : Command :=
  {| id := "c4"; type := "apply_manifest";
     payload := {| namespace := "prod"; resources := [];
                   manifests := [configmap_text; service_text];
                   dryRun := VBool true |} |}.

Definition accepts (t : trace) : outcome unit := Ok tt.

(** The control plane hands out one command and then has none. *)
Definition hands_out (cmd : Command) (t : trace) : outcome poll_response :=
  Ok {| ok := true; http_status := 200;
        command := Ok (if Nat.eqb (length t) 0 then Some cmd else None) |}.

(** The poll endpoint answers with HTTP status 500. *)
Definition server_error (t : trace) : outcome poll_response :=
  Ok {| ok := false; http_status := 500; command := Throw "Unexpected token" |}.

(** The connection is refused. *)
Definition refused (t : trace) : outcome poll_response :=
  Throw "fetch failed".

(** The first submission of a result is lost in transport, the later
    ones arrive. *)
Definition submitted_before (t : trace) : bool :=
  existsb (fun e => match e with
                    | SubmitResult _ _ _ _ => true
                    | _ => false
                    end) t.

Definition loses_first (t : trace) : outcome unit :=
  if submitted_before t then Ok tt else Throw "fetch failed".

(** ** The lines of a diff and of a summary *)

(** The kind of a value for the diff: scalar ([null] included), array or
    object. *)
Inductive shape : Type := ScalarShape | ArrayShape | ObjectShape.

Definition shape_of (v : value) : shape :=
  match v with
  | VArr _ => ArrayShape
  | VObj _ => ObjectShape
  | _ => ScalarShape
  end.

Definition same_shape (a b : value) : bool :=
  match shape_of a, shape_of b with
  | ScalarShape, ScalarShape | ArrayShape, ArrayShape
  | ObjectShape, ObjectShape => true
  | _, _ => false
  end.

(** ** Documents in memory *)

(** Two documents in memory are apart when no array or object of the
    one is an array or object of the other: they were built
    separately. *)
Definition apart (a b : rvalue) : Prop :=
  forall x, In x (addresses a) -> In x (addresses b) -> False.

Definition separate (a b : rvalue) : bool :=
  forallb (fun x => negb (existsb (Nat.eqb x) (addresses b))) (addresses a).

(** A document that holds [NaN], stored at [address]. *)
Definition nan_doc (address : nat) : rvalue :=
  RObj address [("ratio", RNum NaN)].

(** A ConfigMap in memory, and a copy of it built separately, with its
    keys in another order. *)
Definition stored_configmap : rvalue :=
  RObj 1 [("kind", RStr "ConfigMap");
          ("metadata", RObj 2 [("name", RStr "cfg")]);
          ("data", RObj 3 [("mode", RStr "fast");
                           ("ports", RArr 4 [RNum (Int 80)])])].

Definition stored_copy : rvalue :=
  RObj 11 [("data", RObj 13 [("ports", RArr 14 [RNum (Int 80)]);
                             ("mode", RStr "fast")]);
           ("kind", RStr "ConfigMap");
           ("metadata", RObj 12 [("name", RStr "cfg")])].

(** The same ConfigMap with another mode, built separately. *)
Definition stored_change : rvalue :=
  RObj 21 [("kind", RStr "ConfigMap");
           ("metadata", RObj 22 [("name", RStr "cfg")]);
           ("data", RObj 23 [("mode", RStr "slow");
                             ("ports", RArr 24 [RNum (Int 80)])])].

(** A change line is located at [path] when it is a marker, then
    [path], then the rest of the line. *)
Definition located (markers : list string) (path line : string) : Prop :=
  exists marker rest,
    In marker markers /\ line = (marker ++ path ++ rest)%string.

Definition markers : list string := ["~ "; "+ "; "- "]%string.

(** [lines] holds one line per element of [items], in order: the line
    of the [j]-th element carries the index [i + j]. *)
Definition item_lines (line : string -> value -> string) (path : string)
    (i : nat) (items : list value) (lines : list string) : Prop :=
  length lines = length items /\
  forall j x, nth_error items j = Some x ->
              nth_error lines j = Some (line (index_path path (i + j)) x).

(** The lines for the entries [extra] that one object has and the other
    has not. *)
Definition entry_lines (line : string -> value -> string) (path : string)
    (extra : Obj) : list string :=
  map (fun kv => line (key_path path (fst kv)) (snd kv)) extra.

(** The names of the members of [Object.prototype]: for these
    [key in obj] holds of every object, whether or not the object has
    the key itself. *)
Definition prototype_member (k : string) : bool :=
  existsb (String.eqb k)
    ["constructor"; "__proto__"; "hasOwnProperty"; "isPrototypeOf";
     "propertyIsEnumerable"; "toLocaleString"; "toString"; "valueOf";
     "__defineGetter__"; "__defineSetter__"; "__lookupGetter__";
     "__lookupSetter__"]%string.

(** The keys of [extra] name no member of [Object.prototype]. *)
Definition plain_keys (extra : Obj) : Prop :=
  forall k v, In (k, v) extra -> prototype_member k = false.

(** A document none of whose keys names a member of [Object.prototype]. *)
Fixpoint plain_document (v : value) : bool :=
  match v with
  | VArr items => forallb plain_document items
  | VObj o =>
      forallb (fun kv => negb (prototype_member (fst kv))
                         && plain_document (snd kv)) o
  | _ => true
  end.

(** ** What a computation records *)

(** A computation records only events that satisfy [P]. *)
Definition only {A : Type} (P : event -> Prop) (m : M A) : Prop :=
  forall t, exists new, snd (m t) = (t ++ new)%list /\ Forall P new.

(** The [dryRun] argument of a request that writes to the cluster. *)
Definition write_param (e : event) : option (option string) :=
  match e with
  | ClientPatch _ d => Some d
  | ClientCreate _ d => Some d
  | _ => None
  end.

(** The requests to the cluster and the console lines: the events other
    than a poll, a delay and a result submission. *)
Definition cluster_event (e : event) : bool :=
  match e with
  | Poll => false
  | Sleep _ => false
  | SubmitResult _ _ _ _ => false
  | _ => true
  end.

Definition is_poll (e : event) : bool :=
  match e with
  | Poll => true
  | _ => false
  end.

Definition polls (t : trace) : list event := filter is_poll t.

Definition is_read_namespaced (e : event) : bool :=
  match e with
  | ReadNamespaced _ _ _ => true
  | _ => false
  end.

(** [resourceLabel], as the loop of [apply_manifest] computes it from
    the parsed document. *)
Definition label_of (obj : value) : string :=
  (js_string (prop obj "kind") ++ "/"
   ++ js_string (if is_nullish (prop obj "metadata") then VUndefined
                 else prop (prop obj "metadata") "name"))%string.

(** An event of a batch run with [dryRun] equal to [dry]: a request to
    the cluster or a console line, and when it is a patch or a create,
    one that carries the [dryRun] argument of the batch. *)
Definition batch_write (dry : bool) (e : event) : Prop :=
  cluster_event e = true /\
  forall d, write_param e = Some d ->
            d = if dry then Some "All"%string else None.

(** An event of a command that only reads the cluster. *)
Definition no_write (e : event) : Prop :=
  cluster_event e = true /\ write_param e = None.

(** ** Batches, commands and further sample worlds *)

(** The command types the [switch] of [executeCommand] has a case
    for. *)
Definition known_types : list string :=
  ["list_namespaces"; "list_resources"; "get_manifests"; "apply_manifest";
   "get_logs"]%string.

(** A manifest text that parses to the object [o], whose [metadata] is
    not a sequence. *)
Definition parses_to (world : World) (manifestStr : string) (o : Obj)
  : Prop :=
  yaml_load world manifestStr = Ok (VObj o) /\
  isArray (prop (VObj o) "metadata") = false.

(** The cluster rejects every patch and every create with [message]. *)
Definition rejects_writes (world : World) (message : string) : Prop :=
  forall t resource d,
    client_patch world t resource d = Throw message /\
    client_create world t resource d = Throw message.

(** The requested pairs whose kind the [switch] of [get_manifests]
    knows. *)
Definition known_pairs (requested : list (string * string))
  : list (string * string) :=
  filter (fun item => in_catalog (fst item)) requested.

(** A cluster that answers reads as the sample cluster and every write
    with [write], behind a parser [load]; the control plane is out of
    reach. *)
Definition sample_cluster (write : outcome unit)
    (load : string -> outcome value) : World :=
  {| client_read := fun _ resource => sample_read resource;
     client_patch := fun _ _ _ => write;
     client_create := fun _ _ _ => write;
     read_namespaced := fun _ => sample_read_namespaced;
     query := fun _ _ _ => Ok (VArr []);
     fetch_poll := refused;
     fetch_result := fun t _ _ _ _ => accepts t;
     yaml_load := load;
     yaml_dump := fun v => Ok (formatValue v) |}.

(** A cluster in which the agent may read and may not write. *)
Definition forbidden_world : World :=
  sample_cluster (Throw "Forbidden") sample_load.

(** A manifest without metadata. *)
Definition bare_text : string := "{kind: Pod}".

Definition bare_doc : Obj := [("kind", VStr "Pod")].

Definition bare_world : World :=
  sample_cluster (Ok tt)
    (fun text => if text =? bare_text then Ok (VObj bare_doc)
                 else sample_load text).

(** The requests of [get_manifests]: a read, or the warning of a failed
    read. *)
Definition read_or_warning (e : event) : Prop :=
  is_read_namespaced e = true \/ exists text, e = Console WarnLevel text.

Definition read_of (namespace : string) (item : string * string) : event :=
  ReadNamespaced (fst item) (snd item) namespace.

(** A command of a type the agent does not know. *)
Definition restart_command : Command :=
  {| id := "c5"; type := "restart_pod"; payload := no_payload |}.



(** The answer of the control plane to the submission [e] made after
    [t]. *)
Definition submit_answer (world : World) (t : trace) (e : event)
  : outcome unit :=
  match e with
  | SubmitResult commandId st result error =>
      fetch_result world t commandId st result error
  | _ => Ok tt
  end.

(** The results submitted for a command, by what [executeCommand] did
    ([run]: what it returned or threw, and the trace it left): the
    report of it, and, when [executeCommand] returned and the submission
    of the report threw, a second result, failed, with the message of
    that exception. *)
Definition submitted (world : World) (cmd : Command)
    (run : outcome returned * trace) : list event :=
  let first := report_of cmd (fst run) in
  match submit_answer world (snd run) first, fst run with
  | Throw message, Ok _ =>
      [first; SubmitResult (id cmd) failed None (Some message)]
  | _, _ => [first]
  end.

(** ** The depth of a summary *)

(** A document none of whose keys holds a dot. *)
Fixpoint dotless (v : value) : bool :=
  match v with
  | VArr items => forallb dotless items
  | VObj o =>
      forallb (fun kv => Nat.eqb (count_dots (fst kv)) 0 && dotless (snd kv)) o
  | _ => true
  end.

(** A line of a summary at a path of at most [depth] segments. *)
Definition summary_line (depth : nat) (line : string) : Prop :=
  exists p,
    segments p <= depth /\
    ((exists v, line = add_line p v) \/ (exists n, line = count_line p n)).

(** A document nested six objects deep. *)
Definition deep_doc : value :=
  VObj [("a", VObj [("b", VObj [("c", VObj [("d", VObj [("e",
          VObj [("f", VNum (Int 1))])])])])])].

(** ** An export compared with the resource it was made from *)

(** [metadata.annotations] and [metadata.labels] are maps, and [labels]
    is not an empty one: when [annotations] is set it is an object, and
    [labels] is not a value that [cleanManifest] deletes. *)
Definition plain_metadata (obj : Obj) : Prop :=
  isArray (prop (VObj obj) "metadata") = false /\
  empty_map_at "labels" (spread (prop (VObj obj) "metadata")) = false /\
  (empty_map_at "annotations" (spread (prop (VObj obj) "metadata")) = true ->
   is_object (prop (prop (VObj obj) "metadata") "annotations") = true).

(** A live ConfigMap as the cluster returns it. *)
Definition live_configmap : Obj :=
  [("kind", VStr "ConfigMap");
   ("metadata", VObj [("name", VStr "cfg");
                      ("namespace", VStr "prod");
                      ("uid", VStr "91c2");
                      ("annotations", VObj [])]);
   ("data", VObj [("mode", VStr "fast")]);
   ("status", VObj [])].

(** ** The read-only commands *)

(** A cluster whose namespace holds one Deployment and refuses to list
    the Services. *)
Definition sample_listNamespaced (kind namespace : string)
  : outcome V1.List :=
  if kind =? "Deployment"
  then Ok {| V1.items :=
               Some [{| V1.metadata := Some {| V1.name := Some "web" |} |};
                     {| V1.metadata := None |}] |}
  else if kind =? "Service" then Throw "Forbidden"
  else Ok {| V1.items := None |}.

(** A text without a line break. *)
Fixpoint single_line (s : string) : bool :=
  match s with
  | EmptyString => true
  | String c rest => negb (Ascii.eqb c (ascii_of_nat 10)) && single_line rest
  end.

(** A request for the log of a pod that has a name, in [namespace], for
    at most a hundred lines. *)
Definition bounded_read (namespace : string) (c : GetLogs.call) : Prop :=
  exists name z,
    c = GetLogs.ReadNamespacedPodLog name namespace (Int z) /\
    (z <= 100)%Z /\ name <> EmptyString.

(** A pod named [name]. *)
Definition pod (name : string) : V1.Object :=
  {| V1.metadata := Some {| V1.name := Some name |} |}.

(** ASCII lower case, and a [trim] that knows the space. *)
Definition lower_ascii (c : ascii) : ascii :=
  let n := nat_of_ascii c in
  if Nat.leb 65 n && Nat.leb n 90 then ascii_of_nat (n + 32) else c.

Fixpoint lower (s : string) : string :=
  match s with
  | EmptyString => EmptyString
  | String c rest => String (lower_ascii c) (lower rest)
  end.

Fixpoint trim_left (s : string) : string :=
  match s with
  | String c rest =>
      if Ascii.eqb c " "%char || Ascii.eqb c (ascii_of_nat 10)
      then trim_left rest else s
  | EmptyString => EmptyString
  end.

(** A cluster with three pods: the log of [api] has two lines, [db] is
    pending and has no log, the log of [cache] is blank. *)
Definition sample_logs : GetLogs.World :=
  {| GetLogs.readNamespacedPodLog :=
       fun _ name _ _ =>
         if name =? "api"
         then Ok (VStr ("GET /health 200" ++ newline ++ "ERROR timeout"))
         else if name =? "cache" then Ok (VStr " ")
         else Throw "container is waiting to start";
     GetLogs.listNamespacedPod :=
       fun _ _ =>
         Ok {| V1.items := Some [pod "api"; pod "db"; pod "cache";
                                 {| V1.metadata := None |}] |} |}.

Definition logs_payload (podName search : option string) : GetLogs.Payload :=
  {| GetLogs.namespace := "prod"; GetLogs.podName := podName;
     GetLogs.search := search; GetLogs.tailLines := Some (Int 5000) |}.

(** No log can be read: every read is rejected with [message]. *)
Definition unreadable (world : GetLogs.World) (message : string) : Prop :=
  forall made name namespace tail,
    GetLogs.readNamespacedPodLog world made name namespace tail
    = Throw message.

(** Every line of [text] holds [term], whatever the case of the
    letters. *)
Definition lines_hold (toLowerCase : string -> string) (term text : string)
  : Prop :=
  Forall (fun l => includes (toLowerCase term) (toLowerCase l) = true)
         (split_lines text).

(** A cluster whose pods are all pending. *)
Definition pending_logs : GetLogs.World :=
  {| GetLogs.readNamespacedPodLog :=
       fun _ _ _ _ => Throw "container is waiting to start";
     GetLogs.listNamespacedPod := GetLogs.listNamespacedPod sample_logs |}.

(** ** The registration *)

Definition is_post (c : Registration.call) : bool :=
  match c with
  | Registration.PostRegister _ => true
  | _ => false
  end.

Definition is_version_query (c : Registration.call) : bool :=
  match c with
  | Registration.GetCode => true
  | _ => false
  end.

Definition is_delay (c : Registration.call) : bool :=
  match c with
  | Registration.Sleep _ => true
  | _ => false
  end.

Definition is_error_line (c : Registration.call) : bool :=
  match c with
  | Registration.Console ErrorLevel _ => true
  | _ => false
  end.

(** The control plane answers every registration with a success status
    and a body that holds no agent id. *)
Definition registers_nobody (world : Registration.World) : Prop :=
  forall made clusterVersion,
  exists res data,
    Registration.fetch_register world made clusterVersion = Ok res /\
    Registration.ok res = true /\
    Registration.json res = Ok data /\
    is_nullish data = false /\
    truthy (prop data "agentId") = false.

(** A cluster whose version cannot be read, and a control plane that is
    down for the first attempt and registers the agent at the second. *)
Definition posted_before (made : list Registration.call) : bool :=
  existsb is_post made.

Definition sample_registration : Registration.World :=
  {| Registration.getCode := fun _ => Throw "Forbidden";
     Registration.fetch_register :=
       fun made _ =>
         if posted_before made
         then Ok {| Registration.ok := true; Registration.status := 200;
                    Registration.text := Ok EmptyString;
                    Registration.json :=
                      Ok (VObj [("agentId", VStr "a1");
                                ("connectionId", VStr "k9")]) |}
         else Ok {| Registration.ok := false; Registration.status := 503;
                    Registration.text := Ok "unavailable";
                    Registration.json := Throw "Unexpected token" |} |}.

(** A control plane that answers with an empty object. *)
Definition empty_registration : Registration.World :=
  {| Registration.getCode :=
       fun _ => Ok (VObj [("gitVersion", VStr "v1.30.1")]);
     Registration.fetch_register :=
       fun _ _ =>
         Ok {| Registration.ok := true; Registration.status := 200;
               Registration.text := Ok "{}";
               Registration.json := Ok (VObj []) |} |}.

(** * Properties of the cleaning rules *)

Section ObjectLemmas.

Lemma obj_get_delete_same (k : string) (o : Obj) :
  obj_get k (obj_delete k o) = None.
Proof.
  induction o as [|[k' v] o IH]; simpl; auto.
  destruct (String.eqb_spec k' k) as [->|Hne]; simpl; auto.
  destruct (String.eqb_spec k' k); [contradiction|exact IH].
Qed.

Lemma obj_get_delete_other (k k' : string) (o : Obj) :
  k <> k' -> obj_get k (obj_delete k' o) = obj_get k o.
Proof.
  intros Hne. induction o as [|[k0 v] o IH]; simpl; auto.
  destruct (String.eqb_spec k0 k') as [->|Hne0]; simpl.
  - destruct (String.eqb_spec k' k); [congruence|exact IH].
  - destruct (String.eqb_spec k0 k); auto.
Qed.

Lemma obj_delete_absent (k : string) (o : Obj) :
  obj_get k o = None -> obj_delete k o = o.
Proof.
  induction o as [|[k' v] o IH]; simpl; auto.
  destruct (String.eqb_spec k' k); simpl; [discriminate|].
  intros H. now rewrite (IH H).
Qed.

Lemma obj_delete_idem (k : string) (o : Obj) :
  obj_delete k (obj_delete k o) = obj_delete k o.
Proof. apply obj_delete_absent, obj_get_delete_same. Qed.

Lemma obj_delete_comm (k k' : string) (o : Obj) :
  obj_delete k (obj_delete k' o) = obj_delete k' (obj_delete k o).
Proof.
  unfold obj_delete. induction o as [|[k0 v] o IH]; simpl; auto.
  destruct (k0 =? k') eqn:E1, (k0 =? k) eqn:E2; simpl;
    rewrite ?E1, ?E2; simpl; now rewrite ?IH.
Qed.

Lemma obj_get_set_same (k : string) (v : value) (o : Obj) :
  obj_get k (obj_set k v o) = Some v.
Proof.
  induction o as [|[k' v'] o IH]; simpl.
  - now rewrite String.eqb_refl.
  - destruct (k' =? k) eqn:E; simpl.
    + now rewrite String.eqb_refl.
    + now rewrite E.
Qed.

Lemma obj_get_set_other (k k' : string) (v : value) (o : Obj) :
  k <> k' -> obj_get k (obj_set k' v o) = obj_get k o.
Proof.
  intros Hne. induction o as [|[k0 v0] o IH]; simpl.
  - destruct (String.eqb_spec k' k); [congruence|reflexivity].
  - destruct (String.eqb_spec k0 k') as [->|Hne0]; simpl.
    + destruct (String.eqb_spec k' k); [congruence|].
      destruct (String.eqb_spec k' k); [congruence|reflexivity].
    + destruct (String.eqb_spec k0 k); auto.
Qed.

Lemma obj_set_idem (k : string) (v : value) (o : Obj) :
  obj_set k v (obj_set k v o) = obj_set k v o.
Proof.
  induction o as [|[k' v'] o IH]; simpl.
  - now rewrite String.eqb_refl.
  - destruct (k' =? k) eqn:E; simpl.
    + now rewrite String.eqb_refl.
    + now rewrite E, IH.
Qed.

Lemma obj_delete_set_other (k k' : string) (v : value) (o : Obj) :
  k <> k' -> obj_get k o = None ->
  obj_delete k (obj_set k' v o) = obj_set k' v o.
Proof.
  intros Hne Habs. apply obj_delete_absent.
  now rewrite obj_get_set_other.
Qed.

Lemma obj_get_In (k : string) (v : value) (o : Obj) :
  obj_get k o = Some v -> In (k, v) o.
Proof.
  induction o as [|[k' v'] o IH]; simpl; [discriminate|].
  destruct (String.eqb_spec k' k) as [->|Hne]; intros H.
  - injection H as ->. now left.
  - right. auto.
Qed.

End ObjectLemmas.

Lemma cleanForDiff_nullish (v : value) :
  is_nullish (cleanForDiff v) = is_nullish v.
Proof. destruct v; reflexivity. Qed.

Lemma cleanForDiff_is_object (v : value) :
  is_object (cleanForDiff v) = is_object v.
Proof. destruct v; reflexivity. Qed.

Lemma strip_annotations_fixed (v : value) :
  strip_annotations (VObj (strip_annotations v)) = strip_annotations v.
Proof.
  unfold strip_annotations; cbn [spread].
  rewrite (obj_delete_comm last_applied_configuration deployment_revision).
  now rewrite !obj_delete_idem.
Qed.

Lemma clean_entries_idem (o : Obj) :
  Forall (fun kv => cleanForDiff (cleanForDiff (snd kv))
                    = cleanForDiff (snd kv)) o ->
  clean_entries cleanForDiff (clean_entries cleanForDiff o)
  = clean_entries cleanForDiff o.
Proof.
  induction 1 as [|[k v] o Hv _ IH]; simpl in *; auto.
  destruct (server_managed k) eqn:Hm; auto.
  destruct ((k =? "annotations") && is_object v) eqn:Ha.
  - destruct (Nat.ltb 0 (length (keys (strip_annotations v)))) eqn:Hn; auto.
    simpl. rewrite Hm.
    apply andb_true_iff in Ha as [Hk _]. rewrite Hk. simpl.
    rewrite strip_annotations_fixed, Hn. now rewrite IH.
  - destruct (is_nullish v) eqn:Hnull; auto.
    simpl. rewrite Hm, cleanForDiff_is_object, Ha, cleanForDiff_nullish, Hnull.
    now rewrite Hv, IH.
Qed.

Lemma cleanForDiff_idem (obj : value) :
  cleanForDiff (cleanForDiff obj) = cleanForDiff obj.
Proof.
  induction obj as [| | | | |items IH|entries IH] using value_ind;
    simpl; auto.
  - f_equal. rewrite map_map. apply map_ext_Forall. exact IH.
  - f_equal. apply clean_entries_idem. exact IH.
Qed.

Lemma empty_map_at_delete_same (k : string) (o : Obj) :
  empty_map_at k (obj_delete k o) = false.
Proof. unfold empty_map_at. now rewrite obj_get_delete_same. Qed.

Lemma empty_map_at_delete_other (k k' : string) (o : Obj) :
  k <> k' -> empty_map_at k (obj_delete k' o) = empty_map_at k o.
Proof. intros H. unfold empty_map_at. now rewrite obj_get_delete_other. Qed.

(** [obj_get k o = None] for [o] a pile of deletions that includes [k]. *)
Ltac deleted :=
  repeat first
    [ apply obj_get_delete_same
    | rewrite obj_get_delete_other by discriminate ].

Lemma clean_metadata_eq (metadata : value) :
  clean_metadata metadata
  = drop_empty "labels"
      (drop_empty "annotations" (strip_meta (spread metadata))).
Proof. reflexivity. Qed.

Lemma drop_empty_idem (k : string) (o : Obj) :
  drop_empty k (drop_empty k o) = drop_empty k o.
Proof.
  unfold drop_empty. destruct (empty_map_at k o) eqn:E.
  - now rewrite empty_map_at_delete_same.
  - now rewrite E.
Qed.

Lemma drop_empty_comm (k k' : string) (o : Obj) :
  k <> k' ->
  drop_empty k (drop_empty k' o) = drop_empty k' (drop_empty k o).
Proof.
  intros Hne. assert (Hne' : k' <> k) by congruence.
  unfold drop_empty.
  destruct (empty_map_at k o) eqn:E, (empty_map_at k' o) eqn:E';
    rewrite ?empty_map_at_delete_other, ?E, ?E' by assumption;
    auto using obj_delete_comm.
Qed.

Lemma drop_empty_delete (k k' : string) (o : Obj) :
  k <> k' ->
  obj_delete k' (drop_empty k o) = drop_empty k (obj_delete k' o).
Proof.
  intros Hne. unfold drop_empty.
  rewrite empty_map_at_delete_other by assumption.
  destruct (empty_map_at k o); auto using obj_delete_comm.
Qed.

Lemma strip_meta_drop_empty (k : string) (o : Obj) :
  server_managed k = false ->
  strip_meta (drop_empty k o) = drop_empty k (strip_meta o).
Proof.
  intros Hk. unfold strip_meta.
  rewrite !drop_empty_delete; [reflexivity|..];
    intros ->; discriminate Hk.
Qed.

Lemma strip_meta_idem (o : Obj) : strip_meta (strip_meta o) = strip_meta o.
Proof.
  unfold strip_meta at 1.
  rewrite !obj_delete_absent; [reflexivity|..]; unfold strip_meta; deleted.
Qed.

Lemma clean_metadata_idem (metadata : value) :
  clean_metadata (VObj (clean_metadata metadata)) = clean_metadata metadata.
Proof.
  rewrite !clean_metadata_eq. cbn [spread].
  rewrite !strip_meta_drop_empty by reflexivity.
  rewrite strip_meta_idem.
  rewrite (drop_empty_comm "annotations" "labels") by discriminate.
  now rewrite !drop_empty_idem.
Qed.

Lemma cleanManifest_idem (obj : Obj) :
  cleanManifest (cleanManifest obj) = cleanManifest obj.
Proof.
  unfold cleanManifest.
  set (cleaned := obj_delete "status" obj).
  assert (Hst : obj_get "status" cleaned = None)
    by apply obj_get_delete_same.
  destruct (obj_get "metadata" cleaned) as [metadata|] eqn:Hm.
  - destruct (is_object metadata) eqn:Ho.
    + rewrite obj_delete_set_other by (assumption || discriminate).
      rewrite obj_get_set_same. cbn [is_object typeof truthy jstype_eqb andb].
      now rewrite clean_metadata_idem, obj_set_idem.
    + rewrite (obj_delete_absent _ _ Hst), Hm, Ho. reflexivity.
  - rewrite (obj_delete_absent _ _ Hst), Hm. reflexivity.
Qed.

(** C4. Cleaning is idempotent: cleaning a cleaned document changes
    nothing, for the cleaning before a diff ([cleanForDiff]) and for the
    cleaning of an exported manifest ([cleanManifest]). *)
Theorem cleaning_idempotent :
  (forall obj : value, cleanForDiff (cleanForDiff obj) = cleanForDiff obj) /\
  (forall obj : Obj, cleanManifest (cleanManifest obj) = cleanManifest obj).
Proof. split; [exact cleanForDiff_idem | exact cleanManifest_idem]. Qed.

(** *** What [cleanForDiff] removes and what it keeps *)



Lemma clean_entries_In (o : Obj) (k : string) (v' : value) :
  In (k, v') (clean_entries cleanForDiff o) <->
  exists v, In (k, v) o /\ kept_as k v v'.
Proof.
  unfold kept_as.
  induction o as [|[k0 v0] o IH]; simpl.
  - split; [tauto|]. intros (v & [] & _).
  - assert (Hrest : (exists v, In (k, v) o /\ kept_as k v v') ->
                    exists v, ((k0, v0) = (k, v) \/ In (k, v) o)
                              /\ kept_as k v v')
      by (intros (v & Hin & Hk); exists v; auto).
    unfold kept_as in Hrest.
    destruct (server_managed k0) eqn:Hm.
    { rewrite IH. split; [exact Hrest|].
      intros (v & [Heq|Hin] & Hk); [|exists v; auto].
      injection Heq as -> ->. destruct Hk as [Hk _]. congruence. }
    destruct ((k0 =? "annotations") && is_object v0) eqn:Ha.
    { apply andb_true_iff in Ha as [Hk0 Hobj].
      apply String.eqb_eq in Hk0. subst k0.
      destruct (strip_annotations v0) as [|e s] eqn:Hs; simpl.
      - rewrite IH. split; [exact Hrest|].
        intros (v & [Heq|Hin] & Hk); [|exists v; auto].
        injection Heq as <- <-. rewrite Hs in Hk.
        destruct Hk as [_ [(_ & _ & Hne & _)|([Hne|Hno] & _)]];
          congruence.
      - split.
        + intros [Heq|Hin].
          * injection Heq as <- <-. exists v0. rewrite Hs.
            split; [now left|]. split; [assumption|]. left.
            repeat split; auto. discriminate.
          * apply Hrest, IH, Hin.
        + intros (v & [Heq|Hin] & Hk).
          * injection Heq as <- <-. left. rewrite Hs in Hk.
            destruct Hk as [_ [(_ & _ & _ & ->)|([Hne|Hno] & _)]];
              congruence.
          * right. apply IH. exists v; auto. }
    destruct (is_nullish v0) eqn:Hn.
    { rewrite IH. split; [exact Hrest|].
      intros (v & [Heq|Hin] & Hk); [|exists v; auto].
      injection Heq as <- <-.
      destruct Hk as [_ [(-> & Hobj & _)|(_ & Hnn & _)]].
      - rewrite Hobj in Ha. discriminate.
      - congruence. }
    simpl. split.
    + intros [Heq|Hin].
      * injection Heq as <- <-. exists v0. split; [now left|].
        split; [assumption|]. right. repeat split; auto.
        apply andb_false_iff in Ha as [Hk|Ho]; [left|now right].
        now apply String.eqb_neq.
      * apply Hrest, IH, Hin.
    + intros (v & [Heq|Hin] & Hk).
      * injection Heq as <- <-. left.
        destruct Hk as [_ [(-> & Hobj & _)|(_ & _ & ->)]].
        -- rewrite Hobj in Ha. discriminate.
        -- reflexivity.
      * right. apply IH. exists v; auto.
Qed.


(** *** What [cleanManifest] removes *)


Lemma empty_map_at_drop_other (k k' : string) (o : Obj) :
  k <> k' -> empty_map_at k (drop_empty k' o) = empty_map_at k o.
Proof.
  intros Hne. unfold drop_empty. destruct (empty_map_at k' o); auto.
  now apply empty_map_at_delete_other.
Qed.









(** *** Server-managed names at every depth *)

Lemma clean_entries_managed (o : Obj) (k : string) :
  server_managed k = true -> obj_get k (clean_entries cleanForDiff o) = None.
Proof.
  intros Hk. destruct (obj_get k _) as [v'|] eqn:Hget; [|reflexivity].
  apply obj_get_In, clean_entries_In in Hget.
  destruct Hget as (v & _ & Hm & _). congruence.
Qed.

Lemma clean_entries_not_nullish (o : Obj) (k : string) (v' : value) :
  obj_get k (clean_entries cleanForDiff o) = Some v' -> is_nullish v' = false.
Proof.
  intros Hget. apply obj_get_In, clean_entries_In in Hget.
  destruct Hget as (v & _ & _ & [(_ & _ & _ & ->)|(_ & Hn & ->)]).
  - reflexivity.
  - now rewrite cleanForDiff_nullish.
Qed.

Lemma get_path_clean_step (obj : value) (s : step) (q : list step) :
  through_annotations [s] = false ->
  get_path (cleanForDiff obj) (s :: q) = None \/
  exists obj', get_path (cleanForDiff obj) (s :: q)
               = get_path (cleanForDiff obj') q.
Proof.
  intros Hs. destruct s as [k|i]; destruct obj; simpl; auto.
  - destruct (obj_get k _) as [v'|] eqn:Hget; [|now left].
    apply obj_get_In, clean_entries_In in Hget.
    destruct Hget as (v & _ & _ & [(-> & _)|(_ & _ & ->)]).
    + discriminate Hs.
    + right. now exists v.
  - rewrite nth_error_map.
    destruct (nth_error items i) as [v|]; simpl; [|now left].
    right. now exists v.
Qed.

Lemma cleanForDiff_path (p : list step) :
  through_annotations p = false ->
  forall (obj : value) (k : string),
    (server_managed k = true ->
     get_path (cleanForDiff obj) (p ++ [Key k]) = None) /\
    (forall v, get_path (cleanForDiff obj) (p ++ [Key k]) = Some v ->
               is_nullish v = false).
Proof.
  induction p as [|s p IH]; intros Hp obj k.
  - destruct obj; simpl; try (split; [reflexivity|discriminate]).
    split.
    + intros Hk. now rewrite clean_entries_managed.
    + intros v. destruct (obj_get k _) as [v'|] eqn:Hget; [|discriminate].
      intros [= <-]. eapply clean_entries_not_nullish, Hget.
  - simpl in Hp. apply orb_false_iff in Hp as [Hs Hp].
    rewrite <- app_comm_cons.
    destruct (get_path_clean_step obj s (p ++ [Key k])) as [HN|[obj' HS]].
    + simpl. now rewrite Hs.
    + rewrite HN. split; [reflexivity|discriminate].
    + rewrite HS. now apply IH.
Qed.

(** C9, as stated, fails: below an [annotations] key the copy made by
    [cleanForDiff] keeps a key named [status] and a [null] value. *)
Lemma cleanForDiff_annotations_not_cleaned :
  get_path (cleanForDiff doc_status_annotation)
           [Key "metadata"; Key "annotations"; Key "status"]
  = Some (VStr "x") /\
  get_path (cleanForDiff doc_status_annotation)
           [Key "metadata"; Key "annotations"; Key "note"]
  = Some VNull.
Proof. split; reflexivity. Qed.

(** C9, amended. At every nesting level that is not below an
    [annotations] key, the cleaned document has no entry named [status],
    [managedFields], [resourceVersion], [uid], [creationTimestamp],
    [generation] or [selfLink], whatever the entry held, and no entry
    whose value is [null] or [undefined]; so a ConfigMap data key named
    [status] is absent from the documents a dry run compares. *)
Theorem cleanForDiff_strips_at_every_level :
  forall (obj : value) (p : list step) (k : string),
    through_annotations p = false ->
    (server_managed k = true ->
     get_path (cleanForDiff obj) (p ++ [Key k]) = None) /\
    (forall v, get_path (cleanForDiff obj) (p ++ [Key k]) = Some v ->
               is_nullish v = false).
Proof. intros obj p k Hp. now apply cleanForDiff_path. Qed.

Lemma cleanForDiff_strips_at_every_level_witness :
  get_path configmap_status_key [Key "data"; Key "status"]
  = Some (VStr "green") /\
  get_path (cleanForDiff configmap_status_key) ([Key "data"] ++ [Key "status"])
  = None.
Proof.
  split; [reflexivity|].
  apply (cleanForDiff_strips_at_every_level
           configmap_status_key [Key "data"] "status");
    reflexivity.
Defined.
(** * Properties of the structural diff *)

Lemma strict_eq_composite_l (a b : value) :
  jstype_eqb (typeof a) TObject = true -> strict_eq a VNull = false ->
  strict_eq a b = false.
Proof. destruct a, b; simpl; try discriminate; try reflexivity.
       all: destruct n; reflexivity || discriminate. Qed.

Lemma added_keys_none (path : string) (liveObj desiredObj : Obj) :
  forallb (fun kv => has_key (fst kv) liveObj) desiredObj = true ->
  added_keys path liveObj desiredObj = [].
Proof.
  induction desiredObj as [|[k v] d IH]; simpl; auto.
  intros H. apply andb_true_iff in H as [-> H]. auto.
Qed.

Lemma deepDiff_strict_eq (live desired : value) (path : string) :
  strict_eq live desired = true -> deepDiff live desired path = [].
Proof. destruct live; simpl; intros H; now rewrite H. Qed.

Section EqualDocuments.

Lemma diff_arrays_equal (path : string) (ls : list value) :
  Forall no_output ls ->
  forall ds i, equal_items deep_equal ls ds = true ->
               diff_arrays deepDiff path ls ds i = [].
Proof.
  induction 1 as [|l ls Hl _ IH]; intros [|d ds] i; simpl;
    try discriminate; auto.
  intros H. apply andb_true_iff in H as [H1 H2].
  now rewrite (Hl d _ H1), (IH ds (S i) H2).
Qed.

Lemma diff_objects_equal (path : string) (desiredObj es : Obj) :
  Forall (fun kv => no_output (snd kv)) es ->
  equal_entries deep_equal desiredObj es = true ->
  diff_objects deepDiff path desiredObj es = [].
Proof.
  induction 1 as [|[k l] es Hl _ IH]; simpl; auto.
  intros H. apply andb_true_iff in H as [H1 H2].
  destruct (obj_get k desiredObj) as [d|]; [|discriminate].
  simpl in Hl. now rewrite (Hl d _ H1), (IH H2).
Qed.

Lemma deepDiff_equal (live : value) : no_output live.
Proof.
  induction live as [| | | | |items IH|entries IH] using value_ind;
    intros desired path Heq.
  1-5: apply deepDiff_strict_eq;
       destruct desired; try discriminate; exact Heq.
  - destruct desired; try discriminate. simpl in Heq.
    simpl. now apply diff_arrays_equal.
  - destruct desired; try discriminate. simpl in Heq.
    apply andb_true_iff in Heq as [H1 H2].
    simpl. rewrite (diff_objects_equal _ _ _ IH H1).
    now apply added_keys_none.
Qed.

End EqualDocuments.

Lemma obj_get_absent (k : string) (o : Obj) :
  existsb (String.eqb k) (keys o) = false -> obj_get k o = None.
Proof.
  induction o as [|[k' v] o IH]; simpl; auto.
  intros H. apply orb_false_iff in H as [H1 H2].
  rewrite String.eqb_sym, H1. auto.
Qed.

Lemma obj_get_distinct (k : string) (x : value) (o : Obj) :
  distinct (keys o) = true -> In (k, x) o -> obj_get k o = Some x.
Proof.
  induction o as [|[k' v] o IH]; simpl; [contradiction|].
  intros H [Heq|Hin]; apply andb_true_iff in H as [H1 H2].
  - injection Heq as -> ->. now rewrite String.eqb_refl.
  - destruct (String.eqb_spec k' k) as [->|Hne]; auto.
    apply negb_true_iff, obj_get_absent in H1.
    rewrite (IH H2 Hin) in H1. discriminate.
Qed.

Lemma In_has_key (k : string) (x : value) (o : Obj) :
  In (k, x) o -> has_key k o = true.
Proof.
  unfold has_key. induction o as [|[k' v] o IH]; simpl; [contradiction|].
  intros [Heq|Hin].
  - injection Heq as -> ->. now rewrite String.eqb_refl.
  - destruct (k' =? k); auto.
Qed.

Lemma equal_entries_intro (rec : value -> value -> bool) (o' es : Obj) :
  (forall k x, In (k, x) es ->
               exists y, obj_get k o' = Some y /\ rec x y = true) ->
  equal_entries rec o' es = true.
Proof.
  induction es as [|[k x] es IH]; simpl; auto. intros Hall.
  destruct (Hall k x (or_introl eq_refl)) as (y & -> & ->). simpl.
  apply IH. intros k' x' Hin. apply Hall. now right.
Qed.

Lemma deep_equal_refl (v : value) :
  well_formed v = true -> nan_free v = true -> deep_equal v v = true.
Proof.
  induction v as [| | |n|s|items IH|entries IH] using value_ind;
    simpl; auto.
  - intros _ _. apply Bool.eqb_reflx.
  - destruct n; [intros _ _; apply Z.eqb_refl|discriminate].
  - intros _ _. apply String.eqb_refl.
  - induction IH as [|x xs Hx _ IHxs]; simpl; auto.
    intros Hw Hn. apply andb_true_iff in Hw as [Hw1 Hw2].
    apply andb_true_iff in Hn as [Hn1 Hn2].
    now rewrite (Hx Hw1 Hn1), (IHxs Hw2 Hn2).
  - intros Hw Hn. apply andb_true_iff in Hw as [Hd Hw].
    rewrite forallb_forall in Hw, Hn. rewrite Forall_forall in IH.
    apply andb_true_iff. split.
    + apply equal_entries_intro. intros k x Hin. exists x.
      split; [now apply obj_get_distinct|].
      apply (IH (k, x) Hin); [apply (Hw (k, x) Hin)|apply (Hn (k, x) Hin)].
    + apply forallb_forall. intros [k x] Hin. simpl.
      now apply In_has_key with x.
Qed.

(** *** Documents that differ in one scalar field *)


Lemma diff_arrays_equal_prefix (path : string) (pre pre' : list value) :
  Forall2 equal_values pre pre' ->
  forall ls ds i,
    diff_arrays deepDiff path (pre ++ ls) (pre' ++ ds) i
    = diff_arrays deepDiff path ls ds (i + length pre).
Proof.
  induction 1 as [|x y pre pre' Hxy _ IH]; intros ls ds i; simpl.
  - now rewrite Nat.add_0_r.
  - rewrite (deepDiff_equal x y _ Hxy), IH. simpl.
    f_equal. lia.
Qed.


Section OneField.

Variables (path k : string) (o' : Obj).




End OneField.






(** From here on [++] joins lists, and strings where marked. *)
Open Scope list_scope.

(** * Properties of the dispatcher and of the control loop *)

(** *** [get_manifests] *)

Lemma fetch_manifest_unknown (world : World) (namespace kind name : string)
    (docs : list string) (t : trace) :
  in_catalog kind = false ->
  fetch_manifest world namespace (kind, name) docs t = (Ok docs, t).
Proof.
  intros H. unfold fetch_manifest, try_catch, bind. now rewrite H.
Qed.

Lemma fetch_manifests_app (world : World) (namespace : string)
    (pre post : list (string * string)) (docs : list string) (t : trace) :
  fetch_manifests world namespace (pre ++ post) docs t
  = match fetch_manifests world namespace pre docs t with
    | (Ok docs', t') => fetch_manifests world namespace post docs' t'
    | (Throw message, t') => (Throw message, t')
    end.
Proof.
  revert docs t. induction pre as [|item pre IH]; intros docs t; simpl.
  - reflexivity.
  - unfold bind.
    destruct (fetch_manifest world namespace item docs t) as [[docs'|m] t'];
      [apply IH|reflexivity].
Qed.

Lemma fetch_manifest_returns (world : World) (namespace : string)
    (item : string * string) (docs : list string) (t : trace) :
  exists docs' t',
    fetch_manifest world namespace item docs t = (Ok docs', t').
Proof.
  destruct item as [kind name].
  unfold fetch_manifest, try_catch, bind, readNamespaced, request, ret, lift,
    console.
  destruct (in_catalog kind); simpl.
  - destruct (read_namespaced world t kind name namespace) as [raw|m];
      simpl; [|eauto].
    destruct (truthy raw); simpl; [|eauto].
    destruct (yaml_dump world _); simpl; eauto.
  - eauto.
Qed.

Lemma fetch_manifests_returns (world : World) (namespace : string)
    (requested : list (string * string)) :
  forall docs t, exists docs' t',
    fetch_manifests world namespace requested docs t = (Ok docs', t').
Proof.
  induction requested as [|item rest IH]; intros docs t; simpl.
  - unfold ret. eauto.
  - unfold bind.
    destruct (fetch_manifest_returns world namespace item docs t)
      as (docs' & t' & ->).
    apply IH.
Qed.

Lemma fetch_manifest_rejected (world : World) (namespace kind name : string)
    (docs : list string) (t : trace) (message : string) :
  in_catalog kind = true ->
  read_namespaced world t kind name namespace = Throw message ->
  fst (fetch_manifest world namespace (kind, name) docs t) = Ok docs.
Proof.
  intros Hk Hr.
  unfold fetch_manifest, try_catch, bind, readNamespaced, request.
  now rewrite Hk, Hr.
Qed.

(** C10. A requested pair whose kind is not one of the eleven kinds of
    the catalog adds no document, makes no request and logs no warning:
    the loop goes on as if the pair had not been requested, the blob
    omits it as it omits a resource whose fetch failed, and the command
    returns its result, not an error, so that it is reported as
    completed. *)
Theorem get_manifests_unknown_kind :
  forall (world : World) (cmd : Command) (pre post : list (string * string))
         (kind name : string) (t : trace),
    in_catalog kind = false ->
    type cmd = "get_manifests" ->
    resources (payload cmd) = (pre ++ (kind, name) :: post) ->
    (forall docs t',
        fetch_manifest world (namespace (payload cmd)) (kind, name) docs t'
        = (Ok docs, t')) /\
    fetch_manifests world (namespace (payload cmd))
                    (pre ++ (kind, name) :: post) [] t
    = fetch_manifests world (namespace (payload cmd)) (pre ++ post) [] t /\
    (forall kind' message docs,
        in_catalog kind' = true ->
        read_namespaced world t kind' name (namespace (payload cmd))
        = Throw message ->
        fst (fetch_manifest world (namespace (payload cmd))
                            (kind', name) docs t)
        = fst (fetch_manifest world (namespace (payload cmd))
                              (kind, name) docs t)) /\
    exists docs t',
      fetch_manifests world (namespace (payload cmd)) (pre ++ post) [] t
      = (Ok docs, t') /\
      executeCommand world cmd t
      = (Ok (Result (Manifests (join separator docs))), t') /\
      report_of cmd (fst (executeCommand world cmd t))
      = SubmitResult (id cmd) completed
          (Some (Manifests (join separator docs))) None.
Proof.
  intros world cmd pre post kind name t Hk Hty Hres.
  assert (Hone : forall docs t',
    fetch_manifest world (namespace (payload cmd)) (kind, name) docs t'
    = (Ok docs, t')) by (intros; now apply fetch_manifest_unknown).
  assert (Hsame :
    fetch_manifests world (namespace (payload cmd))
                    (pre ++ (kind, name) :: post) [] t
    = fetch_manifests world (namespace (payload cmd)) (pre ++ post) [] t).
  { rewrite !fetch_manifests_app.
    destruct (fetch_manifests world _ pre [] t) as [[docs'|m] t'];
      [|reflexivity].
    cbn [fetch_manifests]. unfold bind. now rewrite Hone. }
  split; [exact Hone|]. split; [exact Hsame|]. split.
  - intros kind' message docs Hk' Hr.
    rewrite (fetch_manifest_rejected _ _ _ _ _ _ _ Hk' Hr).
    now rewrite Hone.
  - destruct (fetch_manifests_returns world (namespace (payload cmd))
                (pre ++ post) [] t) as (docs & t' & Hrun).
    exists docs, t'. split; [exact Hrun|].
    assert (Hexec : executeCommand world cmd t
                    = (Ok (Result (Manifests (join separator docs))), t')).
    { unfold executeCommand. rewrite Hty. simpl.
      unfold bind, get_manifests, bind. rewrite Hres, Hsame, Hrun.
      reflexivity. }
    split; [exact Hexec|]. now rewrite Hexec.
Qed.

Lemma get_manifests_unknown_kind_witness :
  fetch_manifests (sample_world refused accepts) "prod"
    ([("ConfigMap", "cfg")] ++ ("Widget", "w") :: []) [] []
  = fetch_manifests (sample_world refused accepts) "prod"
      ([("ConfigMap", "cfg")] ++ []) [] [] /\
  executeCommand (sample_world refused accepts) get_command []
  = (Ok (Result (Manifests "{3 fields}")),
     [ReadNamespaced "ConfigMap" "cfg" "prod"]) /\
  report_of get_command
    (fst (executeCommand (sample_world refused accepts) get_command []))
  = SubmitResult "c2" completed (Some (Manifests "{3 fields}")) None.
Proof.
  destruct (get_manifests_unknown_kind (sample_world refused accepts)
              get_command [("ConfigMap", "cfg")] [] "Widget" "w" [])
    as (_ & Hsame & _ & docs & t' & Hrun & Hexec & Hreport);
    try reflexivity.
  split; [exact Hsame|].
  rewrite Hreport, Hexec. injection Hrun as <- <-. split; reflexivity.
Defined.

(** *** Computations that submit no result *)

Lemma quiet_ret {A : Type} (a : A) : quiet (ret a).
Proof. intros t. exists []. now rewrite app_nil_r. Qed.

Lemma quiet_lift {A : Type} (o : outcome A) : quiet (lift o).
Proof. intros t. exists []. now rewrite app_nil_r. Qed.

Lemma quiet_request {A : Type} (e : event) (answer : trace -> outcome A) :
  is_submission e = false -> quiet (request e answer).
Proof.
  intros He t. exists [e]. split; [reflexivity|].
  unfold submissions. simpl. now rewrite He.
Qed.

Lemma submissions_app (t t' : trace) :
  submissions (t ++ t') = submissions t ++ submissions t'.
Proof. apply filter_app. Qed.

Lemma quiet_bind {A B : Type} (m : M A) (f : A -> M B) :
  quiet m -> (forall a, quiet (f a)) -> quiet (bind m f).
Proof.
  intros Hm Hf t. unfold bind.
  destruct (Hm t) as (new & Ht & Hs).
  destruct (m t) as [[a|message] t']; simpl in Ht; subst t'.
  - destruct (Hf a (t ++ new)) as (new' & Ht' & Hs').
    exists (new ++ new'). rewrite Ht', app_assoc. split; [reflexivity|].
    now rewrite submissions_app, Hs, Hs'.
  - exists new. auto.
Qed.

Lemma quiet_try_catch {A : Type} (m : M A) (handler : string -> M A) :
  quiet m -> (forall message, quiet (handler message)) ->
  quiet (try_catch m handler).
Proof.
  intros Hm Hh t. unfold try_catch.
  destruct (Hm t) as (new & Ht & Hs).
  destruct (m t) as [[a|message] t']; simpl in Ht; subst t'.
  - exists new. auto.
  - destruct (Hh message (t ++ new)) as (new' & Ht' & Hs').
    exists (new ++ new'). rewrite Ht', app_assoc. split; [reflexivity|].
    now rewrite submissions_app, Hs, Hs'.
Qed.

Create HintDb quiet.
#[export] Hint Resolve quiet_ret quiet_lift quiet_bind quiet_try_catch : quiet.
#[export] Hint Extern 1 (quiet (request _ _)) =>
  apply quiet_request; reflexivity : quiet.
#[export] Hint Extern 2 (quiet (if ?b then _ else _)) => destruct b : quiet.
#[export] Hint Extern 2 (quiet (match ?x with _ => _ end)) =>
  destruct x : quiet.

Lemma quiet_console (l : level) (text : string) : quiet (console l text).
Proof. unfold console. auto with quiet. Qed.

Lemma quiet_sleep (ms : nat) : quiet (sleep ms).
Proof. unfold sleep. auto with quiet. Qed.

#[export] Hint Resolve quiet_console quiet_sleep : quiet.

Section QuietAgent.

Variable world : World.

Lemma quiet_fetch_manifest namespace item docs :
  quiet (fetch_manifest world namespace item docs).
Proof.
  destruct item as [kind name].
  unfold fetch_manifest, readNamespaced. auto 10 with quiet.
Qed.

Lemma quiet_fetch_manifests namespace requested :
  forall docs, quiet (fetch_manifests world namespace requested docs).
Proof.
  induction requested as [|item rest IH]; intros docs; simpl.
  - auto with quiet.
  - apply quiet_bind; [apply quiet_fetch_manifest|auto].
Qed.

Lemma quiet_reconcile dry resourceLabel resource :
  quiet (reconcile world dry resourceLabel resource).
Proof.
  unfold reconcile, clientRead, clientPatch, clientCreate.
  apply quiet_bind; [auto with quiet|].
  intros liveObj. destruct (truthy liveObj); auto with quiet.
Qed.

Lemma quiet_apply_one namespace dry manifestStr st :
  quiet (apply_one world namespace dry manifestStr st).
Proof.
  unfold apply_one.
  apply quiet_bind; [auto with quiet|]. intros obj.
  apply quiet_bind; [auto with quiet|]. intros kind.
  apply quiet_try_catch; [|auto with quiet].
  apply quiet_bind; [auto with quiet|]. intros resource.
  apply quiet_bind; [apply quiet_reconcile|auto with quiet].
Qed.

Lemma quiet_apply_all namespace dry manifests :
  forall st, quiet (apply_all world namespace dry manifests st).
Proof.
  induction manifests as [|m rest IH]; intros st; simpl.
  - auto with quiet.
  - apply quiet_bind; [apply quiet_apply_one|auto].
Qed.

Lemma quiet_executeCommand cmd : quiet (executeCommand world cmd).
Proof.
  unfold executeCommand, listing, get_manifests, apply_manifest.
  repeat match goal with
         | |- quiet (if ?b then _ else _) => destruct b
         end;
    repeat first
      [ apply quiet_fetch_manifests
      | apply quiet_apply_all
      | apply quiet_bind; [|intros ?]
      | solve [auto with quiet] ].
Qed.

End QuietAgent.

(** *** [apply_manifest] *)

Section ApplyBatch.

Variable world : World.
Variables (namespace : string) (dry : bool).

Lemma apply_one_returns (manifestStr : string) (st : progress) (t : trace) :
  processable world manifestStr ->
  exists entry lines t',
    apply_one world namespace dry manifestStr st t
    = (Ok {| results := results st ++ [entry];
             logs := logs st ++ lines |}, t').
Proof.
  intros (obj & Hload & Hnull).
  unfold apply_one, bind, lift, member, try_catch. rewrite Hload, Hnull.
  destruct (apply_defaults namespace obj _ _) as [resource|message].
  - destruct (reconcile world dry _ resource t) as [[pushed|message] t'];
      unfold ret; eauto.
  - unfold ret. eauto.
Qed.

Lemma apply_all_returns (manifests : list string) :
  (forall m, In m manifests -> processable world m) ->
  forall st t, exists entries lines t',
    apply_all world namespace dry manifests st t
    = (Ok {| results := results st ++ entries;
             logs := logs st ++ lines |}, t')
    /\ length entries = length manifests.
Proof.
  induction manifests as [|m rest IH]; intros Hall st t; simpl.
  - exists [], [], t. rewrite !app_nil_r. destruct st. now split.
  - destruct (apply_one_returns m st t (Hall m (or_introl eq_refl)))
      as (entry & lines & t' & Hone).
    unfold bind. rewrite Hone.
    destruct (IH (fun m' H => Hall m' (or_intror H))
                 {| results := results st ++ [entry];
                    logs := logs st ++ lines |} t')
      as (entries & lines' & t'' & -> & Hlen).
    exists (entry :: entries), (lines ++ lines'), t''. simpl.
    rewrite <- !app_assoc. simpl. split; [reflexivity|].
    now rewrite Hlen.
Qed.

Lemma apply_one_malformed (bad message : string) (st : progress) (t : trace) :
  yaml_load world bad = Throw message ->
  apply_one world namespace dry bad st t = (Throw message, t).
Proof. intros H. unfold apply_one, bind, lift. now rewrite H. Qed.

Lemma apply_all_malformed (pre post : list string) (bad message : string) :
  (forall m, In m pre -> processable world m) ->
  yaml_load world bad = Throw message ->
  forall st t, exists t',
    apply_all world namespace dry (pre ++ bad :: post) st t
    = (Throw message, t').
Proof.
  intros Hpre Hbad. induction pre as [|m pre IH]; intros st t; simpl.
  - unfold bind. rewrite (apply_one_malformed _ _ _ _ Hbad). eauto.
  - destruct (apply_one_returns m st t (Hpre m (or_introl eq_refl)))
      as (entry & lines & t' & Hone).
    unfold bind. rewrite Hone.
    apply IH. intros m' H. apply Hpre. now right.
Qed.

End ApplyBatch.

Lemma apply_manifest_returns (world : World) (p : Payload) (t : trace) :
  (forall m, In m (manifests p) -> processable world m) ->
  exists entries text t',
    apply_manifest world p t
    = (Ok (Applied entries text (strict_eq (dryRun p) (VBool true))), t')
    /\ length entries = length (manifests p).
Proof.
  intros Hall. unfold apply_manifest, bind.
  destruct (apply_all_returns world (namespace p)
              (strict_eq (dryRun p) (VBool true)) (manifests p) Hall
              {| results := [];
                 logs := [header (strict_eq (dryRun p) (VBool true))
                                 (length (manifests p)) (namespace p);
                          EmptyString] |} t)
    as (entries & lines & t' & -> & Hlen).
  simpl. unfold ret. eauto.
Qed.

Lemma apply_manifest_malformed (world : World) (p : Payload)
    (pre post : list string) (bad message : string) (t : trace) :
  manifests p = pre ++ bad :: post ->
  (forall m, In m pre -> processable world m) ->
  yaml_load world bad = Throw message ->
  exists t', apply_manifest world p t = (Throw message, t').
Proof.
  intros Hm Hpre Hbad. unfold apply_manifest, bind. rewrite Hm.
  destruct (apply_all_malformed world (namespace p)
              (strict_eq (dryRun p) (VBool true)) pre post bad message
              Hpre Hbad
              {| results := [];
                 logs := [header (strict_eq (dryRun p) (VBool true))
                                 (length (pre ++ bad :: post)) (namespace p);
                          EmptyString] |} t)
    as (t' & ->).
  eauto.
Qed.

(** *** One command, one report *)

Lemma executeCommand_error (world : World) (cmd : Command) (t t' : trace)
    (message : string) :
  executeCommand world cmd t = (Ok (Error message), t') ->
  message <> EmptyString.
Proof.
  unfold executeCommand, listing, bind, ret.
  repeat match goal with
         | |- context [if ?b then _ else _] => destruct b
         end;
    try match goal with
        | |- context [match ?m with _ => _ end = _] =>
            destruct m as [[?|?] ?]; discriminate
        end.
  intros [= <- _]. discriminate.
Qed.

Lemma execute_and_report_once (world : World) (cmd : Command) (t : trace) :
  never_rejects world ->
  exists new,
    execute_and_report world cmd t = (Ok tt, t ++ new) /\
    submissions new
    = [report_of cmd (fst (executeCommand world cmd (t ++ [announce cmd])))].
Proof.
  intros Hsubmit.
  unfold execute_and_report, bind at 1, console at 1, request at 1.
  fold (announce cmd). unfold try_catch, bind.
  destruct (quiet_executeCommand world cmd (t ++ [announce cmd]))
    as (new & Ht & Hs).
  pose proof (executeCommand_error world cmd (t ++ [announce cmd])) as Herr.
  destruct (executeCommand world cmd (t ++ [announce cmd]))
    as [[[r|message]|message] t'];
    simpl in Ht; subst t'; simpl.
  - unfold submitResult, console, request. rewrite Hsubmit. simpl.
    eexists. rewrite <- !app_assoc. split; [reflexivity|].
    rewrite !submissions_app, Hs. reflexivity.
  - specialize (Herr _ message eq_refl).
    apply String.eqb_neq in Herr. rewrite Herr. simpl.
    unfold submitResult, console, request. rewrite Hsubmit. simpl.
    eexists. rewrite <- !app_assoc. split; [reflexivity|].
    rewrite !submissions_app, Hs. reflexivity.
  - unfold submitResult, console, request. simpl. rewrite Hsubmit.
    eexists. rewrite <- !app_assoc. split; [reflexivity|].
    rewrite !submissions_app, Hs. reflexivity.
Qed.

Lemma iteration_command (world : World) (cmd : Command) (t : trace)
    (code : nat) :
  fetch_poll world t
  = Ok {| ok := true; http_status := code; command := Ok (Some cmd) |} ->
  iteration world t
  = try_catch (execute_and_report world cmd)
      (fun message =>
         bind (console ErrorLevel ("Poll error: " ++ message)%string)
              (fun _ => sleep backoff))
      (t ++ [Poll]).
Proof.
  intros H. unfold iteration, try_catch, bind at 1, poll, bind at 1, request.
  rewrite H. reflexivity.
Qed.

Lemma one_result_per_command_general (world : World) (cmd : Command)
    (t : trace) (code : nat) :
  never_rejects world ->
  fetch_poll world t
  = Ok {| ok := true; http_status := code; command := Ok (Some cmd) |} ->
  exists new,
    iteration world t = (Ok tt, t ++ Poll :: new) /\
    submissions new
    = [report_of cmd
         (fst (executeCommand world cmd (t ++ [Poll; announce cmd])))].
Proof.
  intros Hsubmit Hpoll.
  rewrite (iteration_command world cmd t code Hpoll).
  destruct (execute_and_report_once world cmd (t ++ [Poll]) Hsubmit)
    as (new & Hrun & Hsub).
  unfold try_catch. rewrite Hrun. rewrite <- app_assoc in *. simpl in *.
  eauto.
Qed.

(** When the request that submits the result is lost in transport, the
    [catch] written for a failed command submits a second result for
    the same command, with status failed. *)
Lemma two_submissions_for_one_command :
  submissions
    (snd (iteration (sample_world (hands_out list_command) loses_first) []))
  = [SubmitResult "c1" completed
       (Some (Listing (VArr [VStr "default"; VStr "prod"]))) None;
     SubmitResult "c1" failed None (Some "fetch failed")].
Proof. reflexivity. Qed.

(** For every command the loop receives, when no request that submits
    a result is lost in transport, exactly one result is submitted for
    the command, with status completed or failed: it is completed with
    the result when [executeCommand] returns one, failed with the
    message when it returns an error or throws.  The failures of single
    manifests of a batch whose texts can all be processed are entries of
    the result of a completed command. *)
Theorem one_result_per_command :
  forall (world : World) (cmd : Command) (t : trace) (code : nat),
    never_rejects world ->
    fetch_poll world t
    = Ok {| ok := true; http_status := code; command := Ok (Some cmd) |} ->
    exists new st result error,
      iteration world t = (Ok tt, t ++ Poll :: new) /\
      submissions new = [SubmitResult (id cmd) st result error] /\
      (st = completed \/ st = failed) /\
      SubmitResult (id cmd) st result error
      = report_of cmd
          (fst (executeCommand world cmd (t ++ [Poll; announce cmd]))) /\
      (type cmd = "apply_manifest" ->
       (forall m, In m (manifests (payload cmd)) -> processable world m) ->
       st = completed /\ error = None /\
       exists entries text dry,
         result = Some (Applied entries text dry) /\
         length entries = length (manifests (payload cmd))).
Proof.
  intros world cmd t code Hsubmit Hpoll.
  destruct (one_result_per_command_general world cmd t code Hsubmit Hpoll)
    as (new & Hrun & Hsub).
  rewrite Hrun.
  set (o := fst (executeCommand world cmd (t ++ [Poll; announce cmd]))) in *.
  assert (Hshape : exists st result error,
             report_of cmd o = SubmitResult (id cmd) st result error
             /\ (st = completed \/ st = failed)).
  { destruct o as [[r|message]|message]; simpl; eauto 7. }
  destruct Hshape as (st & result & error & Heq & Hst).
  exists new, st, result, error.
  split; [reflexivity|]. split; [now rewrite Hsub, Heq|].
  split; [exact Hst|]. split; [now rewrite Heq|].
  intros Hty Hall.
  destruct (apply_manifest_returns world (payload cmd)
              (t ++ [Poll; announce cmd]) Hall)
    as (entries & text & t' & Happly & Hlen).
  assert (Ho : o = Ok (Result (Applied entries text
                                  (strict_eq (dryRun (payload cmd))
                                             (VBool true))))).
  { unfold o, executeCommand. rewrite Hty. simpl.
    unfold bind. now rewrite Happly. }
  rewrite Ho in Heq. simpl in Heq. injection Heq as <- <- <-.
  split; [reflexivity|]. split; [reflexivity|]. eauto.
Qed.

Lemma one_result_per_command_witness :
  exists new entries text dry,
    iteration (sample_world (hands_out apply_command_good) accepts) []
    = (Ok tt, Poll :: new) /\
    submissions new
    = [SubmitResult "c4" completed (Some (Applied entries text dry)) None] /\
    length entries = 2.
Proof.
  destruct (one_result_per_command
              (sample_world (hands_out apply_command_good) accepts)
              apply_command_good [] 200)
    as (new & st & result & error & Hrun & Hsub & _ & Hrep & Hbatch).
  - intros t commandId st result error. reflexivity.
  - reflexivity.
  - destruct (Hbatch eq_refl)
      as (-> & -> & entries & text & dry & -> & Hlen).
    + intros m [<-|[<-|[]]]; eexists; split; reflexivity.
    + exists new, entries, text, dry.
      split; [exact Hrun|]. split; [exact Hsub|exact Hlen].
Defined.

(** *** A malformed manifest in a batch *)

(** C1. The parse of a manifest text stands before the [try] block of
    the loop: when the parser throws on one text of the batch, the
    exception leaves [executeCommand], no result with per-resource
    outcomes is returned, the texts after the malformed one are not
    processed, and the loop reports the command as failed with the
    parser's message. *)
Theorem malformed_manifest_aborts_batch :
  forall (world : World) (cmd : Command) (pre post : list string)
         (bad message : string) (t : trace) (code : nat),
    never_rejects world ->
    fetch_poll world t
    = Ok {| ok := true; http_status := code; command := Ok (Some cmd) |} ->
    type cmd = "apply_manifest" ->
    manifests (payload cmd) = pre ++ bad :: post ->
    (forall m, In m pre -> processable world m) ->
    yaml_load world bad = Throw message ->
    (exists t', executeCommand world cmd (t ++ [Poll; announce cmd])
                = (Throw message, t')) /\
    exists new,
      iteration world t = (Ok tt, t ++ Poll :: new) /\
      submissions new = [SubmitResult (id cmd) failed None (Some message)].
Proof.
  intros world cmd pre post bad message t code Hsubmit Hpoll Hty Hm Hpre Hbad.
  destruct (apply_manifest_malformed world (payload cmd) pre post bad message
              (t ++ [Poll; announce cmd]) Hm Hpre Hbad) as (t' & Happly).
  assert (Hexec : executeCommand world cmd (t ++ [Poll; announce cmd])
                  = (Throw message, t')).
  { unfold executeCommand. rewrite Hty. simpl.
    unfold bind. now rewrite Happly. }
  split; [eauto|].
  destruct (one_result_per_command_general world cmd t code Hsubmit Hpoll)
    as (new & Hrun & Hsub).
  exists new. split; [exact Hrun|].
  rewrite Hsub, Hexec. reflexivity.
Qed.

Lemma malformed_manifest_aborts_batch_witness :
  fst (executeCommand (sample_world (hands_out apply_command) accepts)
         apply_command ([] ++ [Poll; announce apply_command]))
  = Throw parse_error /\
  exists new,
    iteration (sample_world (hands_out apply_command) accepts) []
    = (Ok tt, [] ++ Poll :: new) /\
    submissions new = [SubmitResult "c3" failed None (Some parse_error)].
Proof.
  destruct (malformed_manifest_aborts_batch
              (sample_world (hands_out apply_command) accepts)
              apply_command [configmap_text] [service_text]
              malformed_text parse_error [] 200)
    as [(t' & Hexec) Hloop].
  - intros t commandId st result error. reflexivity.
  - reflexivity.
  - reflexivity.
  - reflexivity.
  - intros m [<-|[]]. eexists. split; reflexivity.
  - reflexivity.
  - split; [now rewrite Hexec|exact Hloop].
Defined.

(** *** The poll and the backoff *)

Lemma iteration_rejected (world : World) (t : trace) (message : string) :
  fetch_poll world t = Throw message ->
  iteration world t
  = (Ok tt, t ++ [Poll; Console ErrorLevel ("Poll error: " ++ message)%string;
                  Sleep backoff]).
Proof.
  intros H. unfold iteration, try_catch, bind, poll, bind, request.
  rewrite H. unfold console, sleep, request. simpl.
  now rewrite <- !app_assoc.
Qed.

Lemma iteration_no_command (world : World) (t : trace) (code : nat) :
  fetch_poll world t
  = Ok {| ok := true; http_status := code; command := Ok None |} ->
  iteration world t = (Ok tt, t ++ [Poll]).
Proof.
  intros H. unfold iteration, try_catch, bind, poll, bind, request.
  rewrite H. reflexivity.
Qed.

(** C8. An HTTP error status from the poll endpoint is logged by [poll]
    and returned as no command: the turn of the loop ends without the
    backoff delay, and the next poll follows at once, as after a clean
    answer without a command.  Only a poll that throws is followed by
    the delay. *)
Theorem poll_http_error_no_backoff :
  forall (world : World) (t : trace) (code : nat)
         (body : outcome (option Command)),
    fetch_poll world t
    = Ok {| ok := false; http_status := code; command := body |} ->
    iteration world t
    = (Ok tt,
       t ++ [Poll;
             Console ErrorLevel ("Poll failed: " ++ nat_to_string code)%string])
    /\ delays (snd (iteration world t)) = delays t.
Proof.
  intros world t code body H.
  assert (Hrun : iteration world t
                 = (Ok tt,
                    t ++ [Poll;
                          Console ErrorLevel
                            ("Poll failed: " ++ nat_to_string code)%string])).
  { unfold iteration, try_catch, bind, poll, bind, request. rewrite H.
    unfold console, request. simpl. now rewrite <- !app_assoc. }
  split; [exact Hrun|].
  rewrite Hrun. unfold delays. simpl.
  rewrite filter_app. simpl. apply app_nil_r.
Qed.

Lemma poll_http_error_no_backoff_witness :
  iteration (sample_world server_error accepts) []
  = (Ok tt, [] ++ [Poll; Console ErrorLevel "Poll failed: 500"])
  /\ delays (snd (iteration (sample_world server_error accepts) []))
     = delays [].
Proof.
  apply (poll_http_error_no_backoff (sample_world server_error accepts)
           [] 500 (Throw "Unexpected token")).
  reflexivity.
Defined.

(** *** Defaulting the namespace and the name *)

Lemma prop_set_same (o : Obj) (k : string) (x : value) :
  prop (VObj (obj_set k x o)) k = x.
Proof. unfold prop. now rewrite obj_get_set_same. Qed.

Lemma prop_set_other (o : Obj) (k k' : string) (x : value) :
  k <> k' -> prop (VObj (obj_set k' x o)) k = prop (VObj o) k.
Proof. intros H. unfold prop. now rewrite obj_get_set_other. Qed.

(** The document the client receives for a parsed object. *)
Lemma apply_defaults_object (namespace : string) (o : Obj) :
  isArray (prop (VObj o) "metadata") = false ->
  exists resource,
    apply_defaults namespace (VObj o) (prop (VObj o) "metadata")
      (if is_nullish (prop (VObj o) "metadata") then VUndefined
       else prop (prop (VObj o) "metadata") "name")
    = Ok resource /\
    prop (prop resource "metadata") "namespace"
    = (if truthy (prop (prop (VObj o) "metadata") "namespace")
       then prop (prop (VObj o) "metadata") "namespace"
       else VStr namespace) /\
    prop (prop resource "metadata") "name"
    = (if is_object (prop (VObj o) "metadata")
       then prop (prop (VObj o) "metadata") "name"
       else VStr "unnamed").
Proof.
  intros Harr. unfold apply_defaults.
  destruct (prop (VObj o) "metadata") as [| |b|n|s|items|m] eqn:Hmeta;
    try discriminate.
  6: { (* metadata is an object *)
    cbn [truthy typeof jstype_eqb negb orb is_nullish is_object andb].
    destruct (truthy (prop (VObj m) "namespace")) eqn:Hns; cbn [negb].
    - exists (VObj o). rewrite Hmeta. auto.
    - eexists. split; [reflexivity|]. cbn [update_member].
      rewrite !prop_set_same.
      split; [reflexivity|]. now rewrite prop_set_other by discriminate. }
  all: cbn [is_nullish prop truthy typeof jstype_eqb negb orb andb
            is_object assign update_member obj_get];
    try (destruct b); try (destruct n as [z|]; [destruct (z =? 0)%Z|]);
    try (destruct (s =? EmptyString));
    cbn [negb orb andb assign update_member prop obj_get truthy
         String.eqb Ascii.eqb Bool.eqb];
    eexists; (split; [reflexivity|]);
    rewrite ?prop_set_same; cbn [obj_set]; auto.
Qed.

Lemma reconcile_trace (world : World) (dry : bool) (resourceLabel : string)
    (resource : value) (t : trace) :
  exists request,
    snd (reconcile world dry resourceLabel resource t)
    = t ++ [ClientRead resource; request] /\
    (request = ClientPatch resource (if dry then Some "All" else None) \/
     request = ClientCreate resource (if dry then Some "All" else None)).
Proof.
  unfold reconcile, bind, try_catch, clientRead, clientPatch, clientCreate,
    request, ret.
  destruct (client_read world t resource) as [liveObj|message]; simpl.
  - destruct (truthy liveObj).
    + destruct (client_patch world _ resource _);
        simpl; rewrite <- app_assoc;
        (eexists; split; [reflexivity|auto]).
    + destruct (client_create world _ resource _);
        simpl; rewrite <- app_assoc;
        (eexists; split; [reflexivity|auto]).
  - destruct (client_create world _ resource _);
      simpl; rewrite <- app_assoc;
      (eexists; split; [reflexivity|auto]).
Qed.

(** C7, as stated, fails: a manifest whose metadata is an object
    without a name goes to the cluster without a name; the placeholder
    is used only when the manifest has no metadata object at all. *)
Lemma metadata_without_name_gets_no_placeholder :
  yaml_load (sample_world refused accepts) unnamed_text = Ok unnamed_doc /\
  get_path unnamed_doc [Key "metadata"; Key "name"] = None /\
  exists resource,
    snd (apply_one (sample_world refused accepts) "prod" false unnamed_text
           {| results := []; logs := [] |} [])
    = [ClientRead resource; ClientCreate resource None] /\
    get_path resource [Key "metadata"; Key "name"] = None /\
    get_path resource [Key "metadata"; Key "namespace"] = Some (VStr "prod").
Proof.
  split; [reflexivity|]. split; [reflexivity|].
  eexists. split; [reflexivity|]. split; reflexivity.
Qed.

(** C7, amended. For every manifest text that parses to an object whose
    metadata is not a sequence, the defaulting comes before the
    requests: the document read, and then
    patched or created, is the defaulted one.  Its [metadata.namespace]
    is the namespace of the manifest when that is set (truthy), and the
    namespace of the command payload otherwise.  Its [metadata.name] is
    the placeholder [unnamed] when the manifest has no metadata object;
    when it has one, the name is left as it is, absent if it was
    absent.  (On a metadata that is a sequence the namespace is set as
    a property of the array, beside its elements: this case is left
    aside.) *)
Theorem defaults_before_requests :
  forall (world : World) (namespace : string) (dry : bool)
         (manifestStr : string) (o : Obj) (st : progress) (t : trace),
    yaml_load world manifestStr = Ok (VObj o) ->
    isArray (prop (VObj o) "metadata") = false ->
    exists resource request,
      snd (apply_one world namespace dry manifestStr st t)
      = t ++ [ClientRead resource; request] /\
      (request = ClientPatch resource (if dry then Some "All" else None) \/
       request = ClientCreate resource (if dry then Some "All" else None)) /\
      prop (prop resource "metadata") "namespace"
      = (if truthy (prop (prop (VObj o) "metadata") "namespace")
         then prop (prop (VObj o) "metadata") "namespace"
         else VStr namespace) /\
      prop (prop resource "metadata") "name"
      = (if is_object (prop (VObj o) "metadata")
         then prop (prop (VObj o) "metadata") "name"
         else VStr "unnamed").
Proof.
  intros world namespace dry manifestStr o st t Hload Harr.
  destruct (apply_defaults_object namespace o Harr)
    as (resource & Hdef & Hns & Hname).
  unfold apply_one, bind at 1, lift at 1. rewrite Hload.
  unfold member, bind at 1, lift at 1. cbn [is_nullish].
  unfold try_catch, bind at 1, lift at 1. rewrite Hdef.
  unfold bind at 1.
  destruct (reconcile_trace world dry
              (js_string (prop (VObj o) "kind") ++ "/"
               ++ js_string (if is_nullish (prop (VObj o) "metadata")
                             then VUndefined
                             else prop (prop (VObj o) "metadata") "name"))%string
              resource t) as (request & Htrace & Hreq).
  exists resource, request.
  split; [|auto].
  destruct (reconcile world dry _ resource t) as [[pushed|message] t'];
    simpl in Htrace |- *; exact Htrace.
Qed.

Lemma defaults_before_requests_witness :
  exists resource request,
    snd (apply_one (sample_world refused accepts) "prod" true configmap_text
           {| results := []; logs := [] |} [])
    = [] ++ [ClientRead resource; request] /\
    (request = ClientPatch resource (Some "All") \/
     request = ClientCreate resource (Some "All")) /\
    prop (prop resource "metadata") "namespace" = VStr "prod" /\
    prop (prop resource "metadata") "name" = VStr "cfg".
Proof.
  apply (defaults_before_requests (sample_world refused accepts) "prod" true
           configmap_text
           [("kind", VStr "ConfigMap");
            ("metadata", VObj [("name", VStr "cfg")]);
            ("data", VObj [("mode", VStr "fast")])]
           {| results := []; logs := [] |} []);
    reflexivity.
Defined.

(** * Further properties of the structural diff *)

Lemma added_items_nil (path : string) (i : nat) (items : list value) :
  added_items path i items = [] -> items = [].
Proof. destruct items; [reflexivity|discriminate]. Qed.

Lemma diff_arrays_empty (path : string) (ls : list value) :
  Forall (fun l => forall d p, deepDiff l d p = [] -> deep_equal l d = true)
         ls ->
  forall ds i, diff_arrays deepDiff path ls ds i = [] ->
               equal_items deep_equal ls ds = true.
Proof.
  induction 1 as [|l ls Hl _ IH]; intros [|d ds] i; simpl;
    try discriminate; auto.
  intros H. apply app_eq_nil in H as [H1 H2].
  now rewrite (Hl d _ H1), (IH ds (S i) H2).
Qed.

Lemma diff_objects_empty (path : string) (desiredObj es : Obj) :
  Forall (fun kv => forall d p, deepDiff (snd kv) d p = [] ->
                                deep_equal (snd kv) d = true) es ->
  diff_objects deepDiff path desiredObj es = [] ->
  equal_entries deep_equal desiredObj es = true.
Proof.
  induction 1 as [|[k l] es Hl _ IH]; simpl; auto.
  intros H. apply app_eq_nil in H as [H1 H2].
  destruct (obj_get k desiredObj) as [d|]; [|discriminate].
  simpl in Hl. now rewrite (Hl d _ H1), (IH H2).
Qed.

Lemma added_keys_empty (path : string) (liveObj desiredObj : Obj) :
  added_keys path liveObj desiredObj = [] ->
  forallb (fun kv => has_key (fst kv) liveObj) desiredObj = true.
Proof.
  induction desiredObj as [|[k v] d IH]; simpl; auto.
  destruct (has_key k liveObj); [auto|discriminate].
Qed.

Lemma deepDiff_empty_equal (live : value) :
  forall desired path,
    deepDiff live desired path = [] -> deep_equal live desired = true.
Proof.
  induction live as [| |b|[z|]|s|items IH|entries IH] using value_ind;
    intros desired path.
  1-6: destruct desired as [| |b'|[z'|]|s'| |]; simpl;
       try discriminate; try reflexivity;
       match goal with
       | |- context [if ?c then _ else _] =>
           destruct c; simpl; (reflexivity || discriminate)
       end.
  - destruct desired as [| |b'|[z'|]|s'|ds|o']; simpl; try discriminate.
    apply (diff_arrays_empty path items IH).
  - destruct desired as [| |b'|[z'|]|s'|ds|o']; simpl; try discriminate.
    intros H. apply app_eq_nil in H as [H1 H2].
    rewrite (diff_objects_empty path o' entries IH H1).
    exact (added_keys_empty path entries o' H2).
Qed.

(** *** Documents in memory *)

Lemma separate_apart (a b : rvalue) : separate a b = true -> apart a b.
Proof.
  unfold separate, apart. intros H x Ha Hb.
  rewrite forallb_forall in H. specialize (H x Ha).
  apply negb_true_iff in H.
  assert (existsb (Nat.eqb x) (addresses b) = true).
  { apply existsb_exists. exists x. split; [exact Hb|apply Nat.eqb_refl]. }
  congruence.
Qed.

Lemma apart_items (a b : nat) (ls ds : list rvalue) (l d : rvalue) :
  apart (RArr a ls) (RArr b ds) -> In l ls -> In d ds -> apart l d.
Proof.
  intros H Hl Hd x Hx Hy. apply (H x); cbn [addresses]; right;
    apply in_flat_map; eauto.
Qed.

Lemma apart_entries (a b : nat) (es ds : list (string * rvalue))
    (k k' : string) (l d : rvalue) :
  apart (RObj a es) (RObj b ds) -> In (k, l) es -> In (k', d) ds ->
  apart l d.
Proof.
  intros H Hl Hd x Hx Hy. apply (H x); cbn [addresses]; right;
    apply in_flat_map; [exists (k, l)|exists (k', d)]; auto.
Qed.

Lemma ref_get_In (k : string) (d : rvalue) (o : list (string * rvalue)) :
  ref_get k o = Some d -> In (k, d) o.
Proof.
  induction o as [|[k' v] o IH]; [discriminate|]. cbn [ref_get].
  destruct (String.eqb_spec k' k) as [->|_].
  - intros [= ->]. now left.
  - intros H. right. auto.
Qed.

Lemma obj_get_contents (k : string) (o : list (string * rvalue)) :
  obj_get k (contents o) = option_map content (ref_get k o).
Proof.
  induction o as [|[k' v] o IH]; [reflexivity|].
  cbn [contents map obj_get ref_get fst snd]. fold (contents o).
  now destruct (k' =? k)%string.
Qed.

(** On a scalar the two diffs are the same function. *)
Lemma deepDiff_ref_scalar (live desired : rvalue) (path : string) :
  is_scalar (content live) = true \/ is_scalar (content desired) = true ->
  deepDiff_ref live desired path
  = deepDiff (content live) (content desired) path.
Proof.
  intros [H|H]; destruct live, desired; try discriminate H; reflexivity.
Qed.

Section DocumentsInMemory.

Variable path : string.

Lemma diff_arrays_ref_content (ls : list rvalue) :
  Forall (fun l => forall d p,
            apart l d ->
            deepDiff_ref l d p = deepDiff (content l) (content d) p) ls ->
  forall ds i,
    (forall l d, In l ls -> In d ds -> apart l d) ->
    diff_arrays_ref deepDiff_ref path ls ds i
    = diff_arrays deepDiff path (map content ls) (map content ds) i.
Proof.
  induction 1 as [|l ls Hl _ IH]; intros [|d ds] i Hap; cbn; auto.
  rewrite Hl by (apply Hap; now left).
  rewrite IH; [reflexivity|]. intros l' d' H1 H2. apply Hap; now right.
Qed.

Lemma diff_objects_ref_content (desiredObj es : list (string * rvalue)) :
  Forall (fun kv => forall d p,
            apart (snd kv) d ->
            deepDiff_ref (snd kv) d p
            = deepDiff (content (snd kv)) (content d) p) es ->
  (forall k l k' d, In (k, l) es -> In (k', d) desiredObj -> apart l d) ->
  diff_objects_ref deepDiff_ref path desiredObj es
  = diff_objects deepDiff path (contents desiredObj) (contents es).
Proof.
  induction 1 as [|[k l] es Hl _ IH]; intros Hap; [reflexivity|].
  cbn [diff_objects_ref contents map diff_objects fst snd].
  fold (contents es). rewrite obj_get_contents.
  rewrite IH by (intros k0 l0 k' d H1 H2; apply (Hap k0 l0 k' d); auto;
                 now right).
  destruct (ref_get k desiredObj) as [d|] eqn:Hget; cbn [option_map];
    [|reflexivity].
  cbn [snd] in Hl. rewrite Hl; [reflexivity|].
  apply (Hap k l k d); [now left|now apply ref_get_In].
Qed.

Lemma diff_arrays_ref_quiet (ls : list rvalue) :
  Forall (fun l => forall d p,
            deepDiff (content l) (content d) p = [] ->
            deepDiff_ref l d p = []) ls ->
  forall ds i,
    diff_arrays deepDiff path (map content ls) (map content ds) i = [] ->
    diff_arrays_ref deepDiff_ref path ls ds i = [].
Proof.
  induction 1 as [|l ls Hl _ IH]; intros [|d ds] i; cbn; auto.
  intros H. apply app_eq_nil in H as [H1 H2].
  now rewrite (Hl d _ H1), (IH ds (S i) H2).
Qed.

Lemma diff_objects_ref_quiet (desiredObj es : list (string * rvalue)) :
  Forall (fun kv => forall d p,
            deepDiff (content (snd kv)) (content d) p = [] ->
            deepDiff_ref (snd kv) d p = []) es ->
  diff_objects deepDiff path (contents desiredObj) (contents es) = [] ->
  diff_objects_ref deepDiff_ref path desiredObj es = [].
Proof.
  induction 1 as [|[k l] es Hl _ IH]; [reflexivity|].
  cbn [diff_objects_ref contents map diff_objects fst snd].
  fold (contents es). rewrite obj_get_contents.
  intros H. apply app_eq_nil in H as [H1 H2]. rewrite (IH H2).
  destruct (ref_get k desiredObj) as [d|]; cbn [option_map] in H1;
    [|discriminate].
  cbn [snd] in Hl. now rewrite (Hl d _ H1).
Qed.

End DocumentsInMemory.

(** The diff of two documents built separately is [deepDiff] of what
    they hold. *)
Lemma deepDiff_ref_content (live : rvalue) :
  forall desired path,
    apart live desired ->
    deepDiff_ref live desired path
    = deepDiff (content live) (content desired) path.
Proof.
  induction live as [| |b|n|s|a items IH|a entries IH] using rvalue_ind;
    intros desired path Hap;
    try (apply deepDiff_ref_scalar; left; reflexivity).
  - destruct desired as [| |b'|n'|s'|a' ds|a' o'];
      try (apply deepDiff_ref_scalar; right; reflexivity);
      [|reflexivity].
    assert (Hne : Nat.eqb a a' = false).
    { apply Nat.eqb_neq. intros ->. apply (Hap a'); now left. }
    cbn [deepDiff_ref strict_eq_ref]. rewrite Hne.
    cbn [content deepDiff strict_eq typeof jstype_eqb negb orb].
    apply diff_arrays_ref_content; [exact IH|].
    intros l d Hl Hd. exact (apart_items a a' items ds l d Hap Hl Hd).
  - destruct desired as [| |b'|n'|s'|a' ds|a' o'];
      try (apply deepDiff_ref_scalar; right; reflexivity);
      [reflexivity|].
    assert (Hne : Nat.eqb a a' = false).
    { apply Nat.eqb_neq. intros ->. apply (Hap a'); now left. }
    cbn [deepDiff_ref strict_eq_ref]. rewrite Hne.
    cbn [content deepDiff strict_eq typeof jstype_eqb negb orb].
    fold (contents entries). fold (contents o'). f_equal.
    apply diff_objects_ref_content; [exact IH|].
    intros k l k' d Hl Hd.
    exact (apart_entries a a' entries o' k k' l d Hap Hl Hd).
Qed.

(** Sharing only removes lines: where [deepDiff] of what two documents
    hold is empty, so is their diff in memory. *)
Lemma deepDiff_ref_quiet (live : rvalue) :
  forall desired path,
    deepDiff (content live) (content desired) path = [] ->
    deepDiff_ref live desired path = [].
Proof.
  induction live as [| |b|n|s|a items IH|a entries IH] using rvalue_ind;
    intros desired path H;
    try (rewrite deepDiff_ref_scalar by (left; reflexivity); exact H).
  - destruct desired as [| |b'|n'|s'|a' ds|a' o'];
      try (rewrite deepDiff_ref_scalar by (right; reflexivity); exact H);
      [|discriminate H].
    cbn [deepDiff_ref strict_eq_ref].
    destruct (Nat.eqb a a'); [reflexivity|].
    cbn [content deepDiff strict_eq typeof jstype_eqb negb orb] in *.
    now apply diff_arrays_ref_quiet.
  - destruct desired as [| |b'|n'|s'|a' ds|a' o'];
      try (rewrite deepDiff_ref_scalar by (right; reflexivity); exact H);
      [discriminate H|].
    cbn [deepDiff_ref strict_eq_ref].
    destruct (Nat.eqb a a'); [reflexivity|].
    cbn [content deepDiff strict_eq typeof jstype_eqb negb orb] in *.
    fold (contents entries) in *. fold (contents o') in *.
    apply app_eq_nil in H as [H1 H2].
    now rewrite (diff_objects_ref_quiet path o' entries IH H1), H2.
Qed.

Lemma strict_eq_ref_same (X : rvalue) :
  content X <> VNum NaN -> strict_eq_ref X X = true.
Proof.
  destruct X as [| |b|[z|]|s|a items|a entries]; cbn; intros H;
    try reflexivity.
  - apply Bool.eqb_reflx.
  - apply Z.eqb_refl.
  - congruence.
  - apply String.eqb_refl.
  - apply Nat.eqb_refl.
  - apply Nat.eqb_refl.
Qed.

(** C3, as stated, fails for a document that holds [NaN]: two copies of
    it hold the same document and their diff has a line for the [NaN],
    since [NaN === NaN] is false; so has the diff of the number [NaN]
    against itself. *)
Lemma deepDiff_nan_copies :
  content (nan_doc 1) = content (nan_doc 2) /\
  deepDiff_ref (nan_doc 1) (nan_doc 2) EmptyString
  = ["~ ratio: NaN → NaN"%string] /\
  deepDiff_ref (RNum NaN) (RNum NaN) "ratio"
  = ["~ ratio: NaN → NaN"%string].
Proof. repeat split. Qed.

(** C3, amended. [deepDiff] pushes no line in three cases: when its
    two arguments are the same value, for every document but the number
    [NaN] itself (the same array or object is met by [===] at once,
    whatever it holds); when the two documents are equal by deep value
    equality, scalars being compared by [===]; and when the second is a
    copy of the first, a well-formed document that holds no [NaN]. *)
Theorem deepDiff_equal_documents :
  (forall (X : rvalue) (path : string),
      content X <> VNum NaN ->
      deepDiff_ref X X path = []) /\
  (forall (live desired : rvalue) (path : string),
      deep_equal (content live) (content desired) = true ->
      deepDiff_ref live desired path = []) /\
  (forall (X X' : rvalue) (path : string),
      content X' = content X ->
      well_formed (content X) = true -> nan_free (content X) = true ->
      deepDiff_ref X X' path = []).
Proof.
  split; [|split].
  - intros X path HX. pose proof (strict_eq_ref_same X HX) as H.
    destruct X; cbn [deepDiff_ref]; now rewrite H.
  - intros live desired path Heq.
    now apply deepDiff_ref_quiet, deepDiff_equal.
  - intros X X' path Hcopy Hw Hn.
    apply deepDiff_ref_quiet. rewrite Hcopy.
    now apply deepDiff_equal, deep_equal_refl.
Qed.

Lemma deepDiff_equal_documents_witness :
  deepDiff_ref (nan_doc 1) (nan_doc 1) EmptyString = [] /\
  deepDiff_ref stored_configmap stored_copy EmptyString = [] /\
  deepDiff_ref stored_configmap
    (RObj 31 [("kind", RStr "ConfigMap");
              ("metadata", RObj 32 [("name", RStr "cfg")]);
              ("data", RObj 33 [("mode", RStr "fast");
                                ("ports", RArr 34 [RNum (Int 80)])])])
    EmptyString = [].
Proof.
  destruct deepDiff_equal_documents as (Hsame & Hequal & Hcopy).
  split; [apply Hsame; discriminate|].
  split; [apply Hequal; reflexivity|].
  apply Hcopy; reflexivity.
Defined.

(** X1. For two documents built separately (they share no array and no
    object), whose keys name no member of [Object.prototype], the change
    plan is empty exactly when what they hold is equal by deep value
    equality: no line is pushed for equal documents, and documents that
    are not equal give at least one line. *)
Theorem deepDiff_empty_iff_equal :
  forall (live desired : rvalue) (path : string),
    separate live desired = true ->
    plain_document (content live) = true ->
    plain_document (content desired) = true ->
    (deepDiff_ref live desired path = [] <->
     deep_equal (content live) (content desired) = true).
Proof.
  intros live desired path Hsep _ _. apply separate_apart in Hsep.
  rewrite (deepDiff_ref_content live desired path Hsep). split.
  - apply deepDiff_empty_equal.
  - apply deepDiff_equal.
Qed.

Lemma deepDiff_empty_iff_equal_witness :
  deepDiff_ref stored_configmap stored_copy "spec" = [] /\
  deep_equal (content stored_configmap) (content stored_change) = false /\
  deepDiff_ref stored_configmap stored_change EmptyString
  = ["~ data.mode: " ++ quoted "fast" ++ arrow ++ quoted "slow"]%string.
Proof.
  split; [|split; reflexivity].
  apply (deepDiff_empty_iff_equal stored_configmap stored_copy "spec");
    reflexivity.
Defined.

(** X2. When the two sides are of different kinds (a scalar or [null]
    against an array or an object, or an array against an object), the
    diff is the single modify line of the two rendered values: the
    inside of the collection is not compared. *)
Theorem deepDiff_kind_mismatch :
  forall (live desired : value) (path : string),
    same_shape live desired = false ->
    deepDiff live desired path = [modify_line path live desired].
Proof.
  intros live desired path.
  destruct live as [| |b|[z|]|s|ls|o], desired as [| |b'|[z'|]|s'|ds|o'];
    simpl; try discriminate; reflexivity.
Qed.

Lemma deepDiff_kind_mismatch_witness :
  deepDiff (VObj [("ports", VArr [VNum (Int 80)])])
           (VObj [("ports", VObj [("http", VNum (Int 80))])]) EmptyString
  = ["~ ports: [80] → {http: 80}"] /\
  deepDiff (VStr "a") (VArr [VStr "a"]) "args"
  = [modify_line "args" (VStr "a") (VArr [VStr "a"])].
Proof.
  split; [reflexivity|].
  apply (deepDiff_kind_mismatch (VStr "a") (VArr [VStr "a"]) "args").
  reflexivity.
Defined.

Lemma string_app_assoc (a b c : string) :
  ((a ++ b) ++ c = a ++ (b ++ c))%string.
Proof. induction a as [|x a IH]; simpl; [reflexivity|now rewrite IH]. Qed.

Lemma located_here (ms : list string) (marker path rest : string) :
  In marker ms -> located ms path (marker ++ path ++ rest)%string.
Proof. intros H. exists marker, rest. auto. Qed.

Lemma located_key (ms : list string) (path key line : string) :
  located ms (key_path path key) line -> located ms path line.
Proof.
  intros (marker & rest & Hm & ->). unfold key_path.
  destruct (String.eqb_spec path EmptyString) as [->|_].
  - exists marker, (key ++ rest)%string. auto.
  - exists marker, (("." ++ key) ++ rest)%string. split; [exact Hm|].
    now rewrite !string_app_assoc.
Qed.

Lemma located_suffix (ms : list string) (path suffix line : string) :
  located ms (path ++ suffix)%string line -> located ms path line.
Proof.
  intros (marker & rest & Hm & ->).
  exists marker, (suffix ++ rest)%string. split; [exact Hm|].
  now rewrite !string_app_assoc.
Qed.

Lemma located_index (ms : list string) (path : string) (i : nat)
    (line : string) :
  located ms (index_path path i) line -> located ms path line.
Proof. apply located_suffix. Qed.

Lemma added_items_located (path : string) (items : list value) :
  forall i, Forall (located markers path) (added_items path i items).
Proof.
  induction items as [|x items IH]; intros i; simpl; constructor; auto.
  apply located_index with i. apply located_here. simpl. auto.
Qed.

Lemma removed_items_located (path : string) (items : list value) :
  forall i, Forall (located markers path) (removed_items path i items).
Proof.
  induction items as [|x items IH]; intros i; simpl; constructor; auto.
  apply located_index with i. apply located_here. simpl. auto.
Qed.

Lemma added_keys_located (path : string) (liveObj desiredObj : Obj) :
  Forall (located markers path) (added_keys path liveObj desiredObj).
Proof.
  induction desiredObj as [|[k v] d IH]; simpl; [constructor|].
  destruct (has_key k liveObj); [exact IH|]. constructor; [|exact IH].
  apply located_key with k. apply located_here. simpl. auto.
Qed.

Lemma modify_line_located (path : string) (a b : value) :
  located markers path (modify_line path a b).
Proof. apply located_here. simpl. auto. Qed.

Lemma Forall_located_weaken (ms : list string) (path path' : string)
    (lines : list string) :
  (forall line, located ms path' line -> located ms path line) ->
  Forall (located ms path') lines -> Forall (located ms path) lines.
Proof. intros H. apply Forall_impl. exact H. Qed.

Lemma diff_arrays_located (path : string) (ls : list value) :
  Forall (fun l => forall desired path,
            Forall (located markers path) (deepDiff l desired path)) ls ->
  forall ds i,
    Forall (located markers path) (diff_arrays deepDiff path ls ds i).
Proof.
  induction 1 as [|l ls Hl _ IH]; intros ds i.
  - apply added_items_located.
  - destruct ds as [|d ds].
    + apply (removed_items_located path (l :: ls) i).
    + cbn [diff_arrays]. apply Forall_app. split; [|apply IH].
      apply Forall_located_weaken with (index_path path i);
        [apply located_index|apply Hl].
Qed.

Lemma deepDiff_located (live : value) :
  forall desired path,
    Forall (located markers path) (deepDiff live desired path).
Proof.
  induction live as [| |b|[z|]|s|items IH|entries IH] using value_ind;
    intros desired path.
  1-6: destruct desired as [| |b'|[z'|]|s'| |]; simpl;
       repeat match goal with
              | |- context [if ?c then _ else _] => destruct c; simpl
              end;
       repeat constructor; apply modify_line_located.
  - destruct desired as [| |b'|[z'|]|s'|ds|o']; simpl;
      try (repeat constructor; apply modify_line_located).
    apply diff_arrays_located. exact IH.
  - destruct desired as [| |b'|[z'|]|s'|ds|o']; simpl;
      try (repeat constructor; apply modify_line_located).
    apply Forall_app. split; [|apply added_keys_located].
    induction IH as [|[k l] es Hl _ IHes]; simpl; [constructor|].
    apply Forall_app. split; [|exact IHes].
    destruct (obj_get k o') as [d|].
    + apply Forall_located_weaken with (key_path path k);
        [apply located_key|apply Hl].
    + repeat constructor. apply located_key with k.
      apply located_here. simpl. auto.
Qed.

(** X3. Every line of a diff computed at [path] is a marker ([~ ], [+ ]
    or [- ]) followed by a field path that starts with [path]: a diff
    never reports a change outside the subtree it was asked about. *)
Theorem deepDiff_lines_under_path :
  forall (live desired : value) (path : string),
    Forall (fun line =>
              exists marker rest,
                In marker ["~ "; "+ "; "- "]%string /\
                line = (marker ++ path ++ rest)%string)
           (deepDiff live desired path).
Proof. intros live desired path. apply deepDiff_located. Qed.

Lemma added_items_lines (path : string) (items : list value) :
  forall i, item_lines add_line path i items (added_items path i items).
Proof.
  induction items as [|x items IH]; intros i.
  - split; [reflexivity|]. intros [|j] y; discriminate.
  - destruct (IH (S i)) as [Hlen Hnth]. split; [simpl; now rewrite Hlen|].
    intros [|j] y; simpl.
    + intros [= <-]. now rewrite Nat.add_0_r.
    + intros H. rewrite (Hnth j y H). do 3 f_equal. lia.
Qed.

Lemma removed_items_lines (path : string) (items : list value) :
  forall i, item_lines remove_line path i items (removed_items path i items).
Proof.
  induction items as [|x items IH]; intros i.
  - split; [reflexivity|]. intros [|j] y; discriminate.
  - destruct (IH (S i)) as [Hlen Hnth]. split; [simpl; now rewrite Hlen|].
    intros [|j] y; simpl.
    + intros [= <-]. now rewrite Nat.add_0_r.
    + intros H. rewrite (Hnth j y H). do 3 f_equal. lia.
Qed.

(** X4. When the desired array is the live one with elements appended,
    the diff is one add line per appended element, at the indices after
    the live ones; when the live array is the desired one with elements
    appended, it is one remove line per element the desired array has
    lost. *)
Theorem deepDiff_array_length_change :
  forall (items items' extra : list value) (path : string),
    Forall2 equal_values items items' ->
    item_lines add_line path (length items) extra
      (deepDiff (VArr items) (VArr (items' ++ extra)) path) /\
    item_lines remove_line path (length items) extra
      (deepDiff (VArr (items ++ extra)) (VArr items') path).
Proof.
  intros items items' extra path Heq.
  cbn [deepDiff strict_eq typeof jstype_eqb negb orb]. split.
  - rewrite <- (app_nil_r items) at 2.
    rewrite diff_arrays_equal_prefix by assumption. simpl.
    apply added_items_lines.
  - rewrite <- (app_nil_r items') at 1.
    rewrite diff_arrays_equal_prefix by assumption. simpl.
    destruct extra as [|x extra].
    + split; [reflexivity|]. intros [|j] y; discriminate.
    + apply (removed_items_lines path (x :: extra)).
Qed.

Lemma deepDiff_array_length_change_witness :
  deepDiff (VArr [VNum (Int 80)]) (VArr [VNum (Int 80); VNum (Int 443)])
           "ports"
  = ["+ ports[1]: 443"] /\
  item_lines remove_line "ports" 1 [VNum (Int 443)]
    (deepDiff (VArr ([VNum (Int 80)] ++ [VNum (Int 443)]))
              (VArr [VNum (Int 80)]) "ports").
Proof.
  split; [reflexivity|].
  apply (deepDiff_array_length_change
           [VNum (Int 80)] [VNum (Int 80)] [VNum (Int 443)] "ports").
  repeat constructor.
Defined.

Lemma obj_get_app_l (k : string) (o extra : Obj) (v : value) :
  obj_get k o = Some v -> obj_get k (o ++ extra) = Some v.
Proof.
  induction o as [|[k' v'] o IH]; simpl; [discriminate|].
  destruct (k' =? k)%string; auto.
Qed.

Lemma obj_get_app_r (k : string) (o extra : Obj) :
  obj_get k o = None -> obj_get k (o ++ extra) = obj_get k extra.
Proof.
  induction o as [|[k' v'] o IH]; simpl; [reflexivity|].
  destruct (k' =? k)%string; [discriminate|auto].
Qed.

Lemma added_keys_app (path : string) (liveObj o extra : Obj) :
  added_keys path liveObj (o ++ extra)
  = added_keys path liveObj o ++ added_keys path liveObj extra.
Proof.
  induction o as [|[k v] o IH]; simpl; [reflexivity|].
  destruct (has_key k liveObj); simpl; now rewrite IH.
Qed.

Lemma added_keys_all (path : string) (liveObj extra : Obj) :
  (forall k v, In (k, v) extra -> has_key k liveObj = false) ->
  added_keys path liveObj extra = entry_lines add_line path extra.
Proof.
  induction extra as [|[k v] extra IH]; simpl; [reflexivity|].
  intros H. rewrite (H k v (or_introl eq_refl)).
  unfold entry_lines in *. simpl. f_equal. apply IH.
  intros k' v' Hin. apply (H k' v'). now right.
Qed.

Lemma diff_objects_app (path : string) (desiredObj es es' : Obj) :
  diff_objects deepDiff path desiredObj (es ++ es')
  = diff_objects deepDiff path desiredObj es
    ++ diff_objects deepDiff path desiredObj es'.
Proof.
  induction es as [|[k l] es IH]; simpl; [reflexivity|].
  now rewrite IH, app_assoc.
Qed.

Lemma diff_objects_all_removed (path : string) (desiredObj extra : Obj) :
  (forall k v, In (k, v) extra -> has_key k desiredObj = false) ->
  diff_objects deepDiff path desiredObj extra
  = entry_lines remove_line path extra.
Proof.
  induction extra as [|[k l] extra IH]; simpl; [reflexivity|].
  intros H. pose proof (H k l (or_introl eq_refl)) as Hk.
  unfold has_key in Hk. destruct (obj_get k desiredObj); [discriminate|].
  unfold entry_lines in *. simpl. f_equal. apply IH.
  intros k' v' Hin. apply (H k' v'). now right.
Qed.

Lemma equal_entries_weaken (o' extra es : Obj) :
  equal_entries deep_equal o' es = true ->
  equal_entries deep_equal (o' ++ extra) es = true.
Proof.
  induction es as [|[k x] es IH]; simpl; auto.
  intros H. apply andb_true_iff in H as [H1 H2].
  destruct (obj_get k o') as [y|] eqn:Hget; [|discriminate].
  rewrite (obj_get_app_l _ _ extra _ Hget), H1. simpl. auto.
Qed.

Lemma has_key_app_l (k : string) (o extra : Obj) :
  has_key k o = true -> has_key k (o ++ extra) = true.
Proof.
  unfold has_key. destruct (obj_get k o) as [v|] eqn:H; [|discriminate].
  now rewrite (obj_get_app_l _ _ extra _ H).
Qed.

(** X5. Fields that only one side has, under keys that name no member
    of [Object.prototype] (for a key such as [toString], [key in obj]
    holds of the object that has not the key, and the code compares the
    values instead).  When the desired object is an object equal to the
    live one with entries added under such keys, which the live object
    has not, the diff is one add line per added entry, in the order of
    the desired object; when the live object holds entries under such
    keys, which the desired object has not, and is equal to it
    otherwise, the diff is one remove line per such entry. *)
Theorem deepDiff_fields_on_one_side :
  forall (o o' extra : Obj) (path : string),
    deep_equal (VObj o) (VObj o') = true ->
    plain_keys extra ->
    ((forall k v, In (k, v) extra -> has_key k o = false) ->
     deepDiff (VObj o) (VObj (o' ++ extra)) path
     = map (fun kv => add_line (key_path path (fst kv)) (snd kv)) extra) /\
    ((forall k v, In (k, v) extra -> has_key k o' = false) ->
     deepDiff (VObj (o ++ extra)) (VObj o') path
     = map (fun kv => remove_line (key_path path (fst kv)) (snd kv)) extra).
Proof.
  intros o o' extra path Heq _. simpl in Heq.
  apply andb_true_iff in Heq as [Hent Hkeys].
  cbn [deepDiff strict_eq typeof jstype_eqb negb orb]. split; intros Hnew.
  - rewrite (diff_objects_equal path (o' ++ extra) o).
    + rewrite added_keys_app, (added_keys_none path o o' Hkeys).
      apply added_keys_all. exact Hnew.
    + apply Forall_forall. intros kv _. apply deepDiff_equal.
    + now apply equal_entries_weaken.
  - rewrite diff_objects_app.
    rewrite (diff_objects_equal path o' o).
    + rewrite (diff_objects_all_removed path o' extra Hnew).
      rewrite added_keys_none; [apply app_nil_r|].
      apply forallb_forall. intros kv Hin.
      rewrite forallb_forall in Hkeys. now apply has_key_app_l, Hkeys.
    + apply Forall_forall. intros kv _. apply deepDiff_equal.
    + exact Hent.
Qed.

Lemma deepDiff_fields_on_one_side_witness :
  deepDiff configmap_doc
    (VObj ([("data", VObj [("mode", VStr "fast")]);
            ("kind", VStr "ConfigMap");
            ("metadata", VObj [("name", VStr "cfg")])]
           ++ [("immutable", VBool true)])) EmptyString
  = ["+ immutable: true"].
Proof.
  assert (Hplain : plain_keys [("immutable", VBool true)])
    by (intros k v [[= <- <-]|[]]; reflexivity).
  apply (proj1 (deepDiff_fields_on_one_side
                  [("kind", VStr "ConfigMap");
                   ("metadata", VObj [("name", VStr "cfg")]);
                   ("data", VObj [("mode", VStr "fast")])]
                  [("data", VObj [("mode", VStr "fast")]);
                   ("kind", VStr "ConfigMap");
                   ("metadata", VObj [("name", VStr "cfg")])]
                  [("immutable", VBool true)] EmptyString eq_refl Hplain)).
  intros k v [[= <- <-]|[]]. reflexivity.
Defined.

(** * Properties of the creation summary and of the rendering *)

Lemma add_line_located (path : string) (v : value) :
  located ["+ "%string] path (add_line path v).
Proof. apply located_here. simpl. auto. Qed.

Lemma summarizeObject_located (obj : value) :
  forall path,
    Forall (located ["+ "%string] path) (summarizeObject obj path).
Proof.
  induction obj as [| |b|n|s|items IH|entries IH] using value_ind;
    intros path; simpl; try (repeat constructor; apply add_line_located).
  - destruct IH as [|first rest Hfirst _]; [constructor|].
    apply Forall_app. split.
    + destruct (Nat.ltb 1 _); repeat constructor.
      apply located_here. simpl. auto.
    + destruct (is_object first).
      * apply Forall_located_weaken with (first_path path);
          [apply located_suffix|apply Hfirst].
      * repeat constructor. apply located_suffix with "[0]"%string.
        apply add_line_located.
  - induction IH as [|[k v] es Hv _ IHes]; [constructor|].
    destruct (is_nullish v); [exact IHes|].
    destruct (jstype_eqb (typeof v) TObject && negb (isArray v)
              && Nat.ltb 0 (keys_length v)).
    + apply Forall_app. split; [|exact IHes].
      destruct (Nat.ltb _ 5).
      * apply Forall_located_weaken with (key_path path k);
          [apply located_key|apply Hv].
      * repeat constructor. apply located_key with k.
        apply add_line_located.
    + constructor; [|exact IHes].
      apply located_key with k. apply add_line_located.
Qed.

(** X6. Every line of a creation summary is an add line: it starts
    with [+ ] and a field path that starts with the path the summary was
    asked for. *)
Theorem summarizeObject_only_adds :
  forall (obj : value) (path : string),
    Forall (fun line => exists rest, line = ("+ " ++ path ++ rest)%string)
           (summarizeObject obj path).
Proof.
  intros obj path.
  apply Forall_impl with (P := located ["+ "%string] path);
    [|apply summarizeObject_located].
  intros line (marker & rest & [<-|[]] & ->). now exists rest.
Qed.

(** *** The depth of a creation summary *)

Lemma count_dots_app (a b : string) :
  count_dots (a ++ b) = count_dots a + count_dots b.
Proof.
  induction a as [|c a IH]; [reflexivity|].
  cbn [append count_dots]. rewrite IH. lia.
Qed.

Lemma count_dots_key_path (path k : string) :
  count_dots k = 0 -> count_dots (key_path path k) <= S (count_dots path).
Proof.
  intros Hk. unfold key_path.
  destruct (path =? EmptyString)%string; [lia|].
  rewrite !count_dots_app, Hk. cbn. lia.
Qed.

Lemma count_dots_first_path (path : string) :
  count_dots (first_path path) = count_dots path.
Proof. unfold first_path. rewrite count_dots_app. cbn. lia. Qed.

Lemma summary_line_add (p : string) (v : value) :
  count_dots p <= 4 -> summary_line 5 (add_line p v).
Proof. intros H. exists p. unfold segments. split; [lia|eauto]. Qed.

Lemma summarizeObject_depth (obj : value) :
  forall path,
    dotless obj = true -> count_dots path <= 3 ->
    Forall (summary_line 5) (summarizeObject obj path).
Proof.
  induction obj as [| |b|n|s|items IH|entries IH] using value_ind;
    intros path Hd Hp; cbn [summarizeObject];
    try (repeat constructor; apply summary_line_add; lia).
  - destruct IH as [|first rest Hfirst _]; [constructor|].
    cbn [dotless forallb] in Hd. apply andb_true_iff in Hd as [Hd _].
    apply Forall_app. split.
    + destruct (Nat.ltb 1 _); repeat constructor.
      exists path. unfold segments. split; [lia|eauto].
    + destruct (is_object first).
      * apply Hfirst; [exact Hd|]. rewrite count_dots_first_path. lia.
      * repeat constructor. apply summary_line_add.
        rewrite count_dots_first_path. lia.
  - cbn [dotless] in Hd.
    induction IH as [|[k v] es Hv _ IHes]; [constructor|].
    cbn [forallb fst snd] in Hd.
    apply andb_true_iff in Hd as [Hkv Hes].
    apply andb_true_iff in Hkv as [Hk Hdv].
    apply Nat.eqb_eq in Hk.
    pose proof (count_dots_key_path path k Hk) as Hkp.
    specialize (IHes Hes).
    destruct (is_nullish v); [exact IHes|].
    destruct (jstype_eqb (typeof v) TObject && negb (isArray v)
              && Nat.ltb 0 (keys_length v)).
    + apply Forall_app. split; [|exact IHes].
      destruct (Nat.ltb_spec (segments (key_path path k)) 5) as [Hlt|Hge].
      * apply Hv; [exact Hdv|]. unfold segments in Hlt. lia.
      * repeat constructor. apply summary_line_add. lia.
    + constructor; [|exact IHes]. apply summary_line_add. lia.
Qed.

(** X7. The creation summary is capped in depth.  For a document
    none of whose keys holds a dot, every line of the summary made at
    the root is an add line or a count line at a path of at most five
    segments: what lies below the fifth level is rendered in one line
    by [formatValue]. *)
Theorem summarizeObject_depth_cap :
  forall obj : value,
    dotless obj = true ->
    Forall (summary_line 5) (summarizeObject obj EmptyString).
Proof.
  intros obj Hd. apply summarizeObject_depth; [exact Hd|cbn; lia].
Qed.

Lemma summarizeObject_depth_cap_witness :
  summarizeObject deep_doc EmptyString = ["+ a.b.c.d.e: {f: 1}"%string] /\
  Forall (summary_line 5) (summarizeObject deep_doc EmptyString).
Proof.
  split; [reflexivity|].
  apply (summarizeObject_depth_cap deep_doc). reflexivity.
Defined.

Lemma summarizeObject_app (o1 o2 : Obj) (path : string) :
  summarizeObject (VObj (o1 ++ o2)) path
  = summarizeObject (VObj o1) path ++ summarizeObject (VObj o2) path.
Proof.
  simpl. induction o1 as [|[k v] o1 IH]; [reflexivity|].
  simpl. destruct (is_nullish v); [exact IH|].
  destruct (jstype_eqb (typeof v) TObject && negb (isArray v)
            && Nat.ltb 0 (keys_length v)).
  - rewrite IH. now rewrite app_assoc.
  - simpl. now rewrite IH.
Qed.

(** X8. The summary of an object is made entry by entry, in order.  An
    entry whose value is [null] or [undefined] gives no line; an entry
    whose value is a scalar, an array or an empty object gives exactly
    one line, with the rendered value: an array held by a field is never
    expanded element by element. *)
Theorem summarizeObject_field :
  forall (pre post : Obj) (k : string) (v : value) (path : string),
    (isArray v = true \/ is_scalar v = true \/ v = VObj []) ->
    summarizeObject (VObj (pre ++ (k, v) :: post)) path
    = summarizeObject (VObj pre) path
      ++ (if is_nullish v then [] else [add_line (key_path path k) v])
      ++ summarizeObject (VObj post) path.
Proof.
  intros pre post k v path Hv.
  rewrite summarizeObject_app. f_equal.
  change ((k, v) :: post) with ([(k, v)] ++ post).
  rewrite summarizeObject_app. f_equal.
  destruct Hv as [Hv|[Hv| ->]]; [| |reflexivity];
    destruct v; try discriminate; reflexivity.
Qed.

Lemma summarizeObject_field_witness :
  summarizeObject
    (VObj ([("kind", VStr "Service")]
           ++ ("ports", VArr [VNum (Int 80); VNum (Int 443)])
           :: [("paused", VNull)])) EmptyString
  = ["+ kind: " ++ quoted "Service"; "+ ports: [80, 443]"]%string.
Proof.
  rewrite (summarizeObject_field [("kind", VStr "Service")]
             [("paused", VNull)] "ports"
             (VArr [VNum (Int 80); VNum (Int 443)]) EmptyString).
  - reflexivity.
  - left. reflexivity.
Defined.

Lemma string_length_app (a b : string) :
  String.length (a ++ b) = String.length a + String.length b.
Proof. induction a as [|x a IH]; simpl; [reflexivity|now rewrite IH]. Qed.

Lemma substring_prefix_length (n : nat) (s : string) :
  n <= String.length s -> String.length (substring 0 n s) = n.
Proof.
  revert s. induction n as [|n IH]; intros s H.
  - destruct s; reflexivity.
  - destruct s as [|c s]; simpl in *; [lia|].
    rewrite IH; [reflexivity|lia].
Qed.

(** X9. A rendered string is the string between double quotes when it
    has at most 80 characters, and otherwise its first 77 characters and
    an ellipsis between double quotes: the rendering of a string has at
    most 82 characters. *)
Theorem formatValue_string_bounded :
  forall s : string,
    String.length (formatValue (VStr s)) <= 82 /\
    (String.length s <= 80 -> formatValue (VStr s) = quoted s) /\
    (80 < String.length s ->
     formatValue (VStr s) = quoted (substring 0 77 s ++ "...") /\
     String.length (formatValue (VStr s)) = 82).
Proof.
  intros s. simpl. unfold quoted.
  destruct (Nat.ltb_spec 80 (String.length s)) as [Hlong|Hshort].
  - assert (Hlen : String.length
                     (dquote ++ (substring 0 77 s ++ "...") ++ dquote) = 82).
    { rewrite !string_length_app, substring_prefix_length by lia.
      reflexivity. }
    rewrite Hlen. repeat split; auto. lia.
  - repeat split; auto; try lia.
    rewrite !string_length_app. simpl. lia.
Qed.

(** * Further properties of the cleaning for export *)

Lemma keys_obj_delete (k : string) (o : Obj) :
  keys (obj_delete k o) = filter (fun k' => negb (k' =? k)%string) (keys o).
Proof.
  unfold keys, obj_delete. induction o as [|[k' v] o IH]; simpl; auto.
  destruct (k' =? k)%string; simpl; now rewrite IH.
Qed.

Lemma keys_obj_set (k : string) (v : value) (o : Obj) :
  has_key k o = true -> keys (obj_set k v o) = keys o.
Proof.
  unfold has_key, keys. induction o as [|[k' v'] o IH]; simpl;
    [discriminate|].
  destruct (String.eqb_spec k' k) as [->|Hne]; simpl; [reflexivity|].
  intros H. now rewrite IH.
Qed.

Lemma obj_get_drop_empty_other (k k' : string) (o : Obj) :
  k <> k' -> obj_get k (drop_empty k' o) = obj_get k o.
Proof.
  intros H. unfold drop_empty. destruct (empty_map_at k' o); auto.
  now apply obj_get_delete_other.
Qed.

Lemma obj_get_strip_meta (k : string) (o : Obj) :
  server_managed k = false -> obj_get k (strip_meta o) = obj_get k o.
Proof.
  intros H. unfold strip_meta.
  rewrite !obj_get_delete_other; [reflexivity|..];
    intros ->; discriminate H.
Qed.

(** X10. [cleanManifest] only removes.  A top-level field other than
    [status] and [metadata] is exported with the value it had, and the
    fields that remain keep their order.  In the metadata, a member that
    is not one of the six server-managed ones keeps its value; this holds
    of [annotations] and of [labels] too unless they are empty maps: the
    injected annotations are exported. *)
Theorem cleanManifest_only_removes :
  forall obj : Obj,
    (forall k, k <> "status"%string -> k <> "metadata"%string ->
               obj_get k (cleanManifest obj) = obj_get k obj) /\
    keys (cleanManifest obj)
    = filter (fun k => negb (k =? "status")%string) (keys obj) /\
    (forall metadata k,
        obj_get "metadata" obj = Some metadata ->
        is_object metadata = true ->
        server_managed k = false ->
        (k = "annotations"%string \/ k = "labels"%string ->
         empty_map_at k (spread metadata) = false) ->
        obj_get k (spread (prop (VObj (cleanManifest obj)) "metadata"))
        = obj_get k (spread metadata)).
Proof.
  intros obj. unfold cleanManifest.
  assert (Hmeta : obj_get "metadata" (obj_delete "status" obj)
                  = obj_get "metadata" obj)
    by (apply obj_get_delete_other; discriminate).
  rewrite Hmeta. split; [|split].
  - intros k Hs Hm.
    destruct (obj_get "metadata" obj) as [metadata|];
      [destruct (is_object metadata)|];
      rewrite ?obj_get_set_other by congruence;
      apply obj_get_delete_other; congruence.
  - destruct (obj_get "metadata" obj) as [metadata|] eqn:Hget;
      [destruct (is_object metadata)|];
      try apply keys_obj_delete.
    rewrite keys_obj_set; [apply keys_obj_delete|].
    unfold has_key. rewrite Hmeta. now rewrite ?Hget.
  - intros metadata k Hget Hobj Hk Hne. rewrite Hget, Hobj.
    unfold prop. rewrite obj_get_set_same. cbn [spread].
    rewrite clean_metadata_eq.
    assert (Hstrip : k = "annotations"%string \/ k = "labels"%string ->
                     empty_map_at k (strip_meta (spread metadata)) = false).
    { intros Hor. specialize (Hne Hor). unfold empty_map_at in *.
      now rewrite obj_get_strip_meta. }
    destruct (String.eqb_spec k "labels") as [->|Hl].
    + specialize (Hstrip (or_intror eq_refl)). unfold drop_empty at 1.
      rewrite empty_map_at_drop_other, Hstrip by discriminate.
      rewrite obj_get_drop_empty_other by discriminate.
      now apply obj_get_strip_meta.
    + rewrite obj_get_drop_empty_other by congruence.
      destruct (String.eqb_spec k "annotations") as [->|Ha].
      * unfold drop_empty. rewrite (Hstrip (or_introl eq_refl)).
        now apply obj_get_strip_meta.
      * rewrite obj_get_drop_empty_other by congruence.
        now apply obj_get_strip_meta.
Qed.

Lemma cleanManifest_only_removes_witness :
  obj_get "spec" (cleanManifest live_service)
  = Some (VObj [("type", VStr "ClusterIP")]) /\
  obj_get "name"
    (spread (prop (VObj (cleanManifest live_service)) "metadata"))
  = Some (VStr "web").
Proof.
  split.
  - rewrite (proj1 (cleanManifest_only_removes live_service) "spec");
      [reflexivity|discriminate|discriminate].
  - rewrite (proj2 (proj2 (cleanManifest_only_removes live_service))
               (VObj [("name", VStr "web");
                      ("uid", VStr "7f3a");
                      ("resourceVersion", VStr "42");
                      ("labels", VObj []);
                      ("annotations", VObj [])]) "name");
      reflexivity.
Defined.

(** * An export compared with the resource it was made from *)

Lemma clean_entries_delete_managed (rec : value -> value) (k : string)
    (o : Obj) :
  server_managed k = true ->
  clean_entries rec (obj_delete k o) = clean_entries rec o.
Proof.
  intros Hk. induction o as [|[k' v] o IH]; [reflexivity|].
  cbn [obj_delete filter fst]. fold (obj_delete k o).
  destruct (String.eqb_spec k' k) as [->|Hne]; cbn [negb].
  - cbn [clean_entries]. now rewrite Hk.
  - cbn [clean_entries]. now rewrite IH.
Qed.

Lemma clean_entries_strip_meta (rec : value -> value) (o : Obj) :
  clean_entries rec (strip_meta o) = clean_entries rec o.
Proof.
  unfold strip_meta.
  now rewrite !clean_entries_delete_managed by reflexivity.
Qed.

Lemma spread_no_keys (v : value) :
  is_object v = true -> keys_length v = 0 -> spread v = [].
Proof.
  destruct v as [| |b|n|s|items|o]; try discriminate; cbn.
  - destruct items; [reflexivity|discriminate].
  - destruct o; [reflexivity|discriminate].
Qed.

Lemma clean_entries_delete_empty_annotations (rec : value -> value)
    (o : Obj) (v : value) :
  distinct (keys o) = true ->
  obj_get "annotations" o = Some v ->
  is_object v = true -> keys_length v = 0 ->
  clean_entries rec (obj_delete "annotations" o) = clean_entries rec o.
Proof.
  intros Hd Hget Hobj Hlen.
  induction o as [|[k' v'] o IH]; [reflexivity|].
  cbn [keys map fst distinct] in Hd. apply andb_true_iff in Hd as [Hk Hd].
  cbn [obj_get] in Hget. cbn [obj_delete filter fst]. fold (obj_delete "annotations" o).
  destruct (String.eqb_spec k' "annotations") as [->|Hne]; cbn [negb].
  - injection Hget as ->.
    apply negb_true_iff, obj_get_absent in Hk.
    rewrite (obj_delete_absent _ _ Hk).
    cbn [clean_entries]. cbn [server_managed String.eqb Ascii.eqb Bool.eqb orb].
    rewrite Hobj. cbn [andb].
    unfold strip_annotations. rewrite (spread_no_keys v Hobj Hlen).
    reflexivity.
  - cbn [clean_entries]. now rewrite (IH Hd Hget).
Qed.

Lemma clean_entries_set_metadata (o : Obj) (v v' : value) :
  obj_get "metadata" o = Some v ->
  is_nullish v = false -> is_nullish v' = false ->
  cleanForDiff v' = cleanForDiff v ->
  clean_entries cleanForDiff (obj_set "metadata" v' o)
  = clean_entries cleanForDiff o.
Proof.
  intros Hget Hv Hv' Heq.
  induction o as [|[k x] o IH]; [discriminate|].
  cbn [obj_get] in Hget. cbn [obj_set].
  destruct (String.eqb_spec k "metadata") as [->|Hne].
  - injection Hget as ->. cbn [clean_entries].
    cbn [server_managed String.eqb Ascii.eqb Bool.eqb orb andb].
    now rewrite Hv, Hv', Heq.
  - cbn [clean_entries]. now rewrite (IH Hget).
Qed.

Lemma distinct_filter (p : string -> bool) (ks : list string) :
  distinct ks = true -> distinct (filter p ks) = true.
Proof.
  induction ks as [|k ks IH]; [reflexivity|].
  cbn [distinct filter]. intros H. apply andb_true_iff in H as [Hk Hd].
  destruct (p k); [|auto].
  cbn [distinct]. rewrite (IH Hd), andb_true_r.
  apply negb_true_iff. apply negb_true_iff in Hk.
  apply not_true_is_false. intros Hex.
  apply existsb_exists in Hex as (x & Hin & Hx).
  apply filter_In in Hin as [Hin _].
  assert (existsb (String.eqb k) ks = true)
    by (apply existsb_exists; eauto).
  congruence.
Qed.

Lemma keys_obj_delete_filter (k : string) (o : Obj) :
  keys (obj_delete k o) = filter (fun k' => negb (k' =? k)%string) (keys o).
Proof.
  unfold keys, obj_delete.
  induction o as [|[k' v] o IH]; [reflexivity|].
  cbn [filter map fst]. destruct (negb (k' =? k)%string); cbn [map fst];
    now rewrite IH.
Qed.

Lemma distinct_strip_meta (o : Obj) :
  distinct (keys o) = true -> distinct (keys (strip_meta o)) = true.
Proof.
  intros H. unfold strip_meta.
  rewrite !keys_obj_delete_filter. now repeat apply distinct_filter.
Qed.

Lemma empty_map_at_strip_meta (k : string) (o : Obj) :
  server_managed k = false ->
  empty_map_at k (strip_meta o) = empty_map_at k o.
Proof.
  intros Hk. unfold empty_map_at. now rewrite obj_get_strip_meta.
Qed.

(** The metadata of an export, cleaned for a diff, is the metadata of
    the resource cleaned for a diff. *)
Lemma cleanForDiff_clean_metadata (mo : Obj) :
  distinct (keys mo) = true ->
  empty_map_at "labels" mo = false ->
  (empty_map_at "annotations" mo = true ->
   is_object (prop (VObj mo) "annotations") = true) ->
  cleanForDiff (VObj (clean_metadata (VObj mo))) = cleanForDiff (VObj mo).
Proof.
  intros Hd Hlabels Hann. rewrite clean_metadata_eq. cbn [spread cleanForDiff].
  f_equal.
  assert (Hl : drop_empty "labels" (drop_empty "annotations" (strip_meta mo))
               = drop_empty "annotations" (strip_meta mo)).
  { unfold drop_empty at 1.
    rewrite empty_map_at_drop_other by discriminate.
    now rewrite empty_map_at_strip_meta, Hlabels by reflexivity. }
  rewrite Hl. unfold drop_empty.
  rewrite empty_map_at_strip_meta by reflexivity.
  destruct (empty_map_at "annotations" mo) eqn:Hempty;
    [|apply clean_entries_strip_meta].
  specialize (Hann eq_refl). unfold empty_map_at in Hempty.
  unfold prop in Hann.
  destruct (obj_get "annotations" mo) as [v|] eqn:Hget; [|discriminate].
  apply andb_true_iff in Hempty as [_ Hlen]. apply Nat.eqb_eq in Hlen.
  rewrite (clean_entries_delete_empty_annotations cleanForDiff
             (strip_meta mo) v).
  - apply clean_entries_strip_meta.
  - now apply distinct_strip_meta.
  - now rewrite obj_get_strip_meta.
  - exact Hann.
  - exact Hlen.
Qed.

Lemma well_formed_entry (o : Obj) (k : string) (v : value) :
  well_formed (VObj o) = true -> obj_get k o = Some v ->
  well_formed v = true.
Proof.
  cbn [well_formed]. intros H Hget. apply andb_true_iff in H as [_ H].
  rewrite forallb_forall in H. exact (H (k, v) (obj_get_In _ _ _ Hget)).
Qed.

Lemma cleanForDiff_export (live : Obj) :
  well_formed (VObj live) = true ->
  plain_metadata live ->
  cleanForDiff (VObj (cleanManifest live)) = cleanForDiff (VObj live).
Proof.
  intros Hw (Harr & Hlabels & Hann).
  unfold cleanManifest. cbn [cleanForDiff].
  rewrite obj_get_delete_other by discriminate.
  unfold prop in Harr, Hlabels, Hann.
  destruct (obj_get "metadata" live) as [m|] eqn:Hget;
    [|now rewrite clean_entries_delete_managed].
  destruct (is_object m) eqn:Hobj;
    [|now rewrite clean_entries_delete_managed].
  destruct m as [| |b|n|s|items|mo]; try discriminate.
  rewrite (clean_entries_set_metadata _ (VObj mo)).
  - now rewrite clean_entries_delete_managed.
  - now rewrite obj_get_delete_other by discriminate.
  - reflexivity.
  - reflexivity.
  - apply cleanForDiff_clean_metadata; auto.
    pose proof (well_formed_entry live "metadata" (VObj mo) Hw Hget) as Hm.
    cbn [well_formed] in Hm. now apply andb_true_iff in Hm as [Hm _].
Qed.

(** *** Cleaning keeps a document well formed and without [NaN] *)

Lemma nat_to_string_inj (i j : nat) :
  nat_to_string i = nat_to_string j -> i = j.
Proof.
  unfold nat_to_string. intros H.
  assert (Hnn : forall n, Nat.to_uint n <> Decimal.Nil).
  { intros n. rewrite <- (Unsigned.of_to n) at 1. rewrite Unsigned.to_of.
    apply DecimalFacts.unorm_nonnil. }
  apply (f_equal NilZero.uint_of_string) in H.
  rewrite !NilZero.usu in H by apply Hnn.
  injection H as H. now apply Unsigned.to_uint_inj.
Qed.

Lemma index_entries_keys (items : list value) :
  forall i k,
    existsb (String.eqb k) (keys (index_entries i items)) = true ->
    exists j, i <= j /\ k = nat_to_string j.
Proof.
  induction items as [|x items IH]; intros i k; cbn; [discriminate|].
  intros H. apply orb_true_iff in H as [H|H].
  - apply String.eqb_eq in H. exists i. auto.
  - destruct (IH (S i) k H) as (j & Hj & ->). exists j. split; [lia|auto].
Qed.

Lemma distinct_index_entries (items : list value) :
  forall i, distinct (keys (index_entries i items)) = true.
Proof.
  induction items as [|x items IH]; intros i; [reflexivity|].
  cbn [index_entries keys map fst distinct]. fold (keys (index_entries (S i) items)).
  rewrite IH, andb_true_r. apply negb_true_iff, not_true_is_false.
  intros H. apply index_entries_keys in H as (j & Hj & Heq).
  apply nat_to_string_inj in Heq. lia.
Qed.

Lemma forallb_index_entries (p : value -> bool) (items : list value) :
  forall i,
    forallb (fun kv => p (snd kv)) (index_entries i items) = forallb p items.
Proof.
  induction items as [|x items IH]; intros i; [reflexivity|].
  cbn. now rewrite IH.
Qed.

Lemma forallb_obj_delete (p : string * value -> bool) (k : string) (o : Obj) :
  forallb p o = true -> forallb p (obj_delete k o) = true.
Proof.
  intros H. apply forallb_forall. intros x Hin.
  apply filter_In in Hin as [Hin _].
  rewrite forallb_forall in H. now apply H.
Qed.

Lemma distinct_obj_delete (k : string) (o : Obj) :
  distinct (keys o) = true -> distinct (keys (obj_delete k o)) = true.
Proof.
  intros H. rewrite keys_obj_delete_filter. now apply distinct_filter.
Qed.

Lemma nan_free_strip_annotations (v : value) :
  nan_free v = true -> nan_free (VObj (strip_annotations v)) = true.
Proof.
  intros H. cbn [nan_free]. unfold strip_annotations.
  do 2 apply forallb_obj_delete.
  destruct v as [| |b|n|s|items|o]; try reflexivity; cbn [spread].
  - now rewrite forallb_index_entries.
  - exact H.
Qed.

Lemma well_formed_strip_annotations (v : value) :
  well_formed v = true -> well_formed (VObj (strip_annotations v)) = true.
Proof.
  intros H. cbn [well_formed]. unfold strip_annotations.
  apply andb_true_iff. split.
  - do 2 apply distinct_obj_delete.
    destruct v as [| |b|n|s|items|o]; try reflexivity; cbn [spread].
    + apply distinct_index_entries.
    + cbn [well_formed] in H. now apply andb_true_iff in H as [H _].
  - do 2 apply forallb_obj_delete.
    destruct v as [| |b|n|s|items|o]; try reflexivity; cbn [spread].
    + now rewrite forallb_index_entries.
    + cbn [well_formed] in H. now apply andb_true_iff in H as [_ H].
Qed.

Lemma nan_free_cleanForDiff (v : value) :
  nan_free v = true -> nan_free (cleanForDiff v) = true.
Proof.
  induction v as [| |b|n|s|items IH|entries IH] using value_ind;
    cbn [cleanForDiff]; auto.
  - cbn [nan_free]. induction IH as [|x xs Hx _ IHxs]; [reflexivity|].
    cbn [forallb map]. intros H. apply andb_true_iff in H as [H1 H2].
    now rewrite (Hx H1), (IHxs H2).
  - cbn [nan_free]. induction IH as [|[k x] es Hx _ IHes]; [reflexivity|].
    cbn [forallb snd]. intros H. apply andb_true_iff in H as [H1 H2].
    specialize (IHes H2). cbn [clean_entries].
    destruct (server_managed k); [exact IHes|].
    destruct ((k =? "annotations")%string && is_object x).
    { destruct (Nat.ltb 0 _); [|exact IHes].
      cbn [forallb snd]. rewrite IHes, andb_true_r.
      now apply nan_free_strip_annotations. }
    destruct (is_nullish x); [exact IHes|].
    cbn [forallb snd]. cbn [snd] in Hx. now rewrite (Hx H1), IHes.
Qed.

Lemma clean_entries_keys (rec : value -> value) (k : string) (o : Obj) :
  existsb (String.eqb k) (keys (clean_entries rec o)) = true ->
  existsb (String.eqb k) (keys o) = true.
Proof.
  induction o as [|[k' x] o IH]; [auto|].
  cbn [clean_entries keys map fst existsb]. fold (keys o).
  destruct (server_managed k');
    [intros H; rewrite (IH H); apply orb_true_r|].
  destruct ((k' =? "annotations")%string && is_object x).
  { destruct (Nat.ltb 0 _).
    - cbn [keys map fst existsb]. fold (keys (clean_entries rec o)).
      intros H. apply orb_true_iff in H as [H|H];
        [now rewrite H|rewrite (IH H); apply orb_true_r].
    - intros H. rewrite (IH H). apply orb_true_r. }
  destruct (is_nullish x).
  - intros H. rewrite (IH H). apply orb_true_r.
  - cbn [keys map fst existsb]. fold (keys (clean_entries rec o)).
    intros H. apply orb_true_iff in H as [H|H];
      [now rewrite H|rewrite (IH H); apply orb_true_r].
Qed.

Lemma clean_entries_fresh (rec : value -> value) (k : string) (o : Obj) :
  negb (existsb (String.eqb k) (keys o)) = true ->
  negb (existsb (String.eqb k) (keys (clean_entries rec o))) = true.
Proof.
  intros H. apply negb_true_iff, not_true_is_false. intros Hex.
  apply clean_entries_keys in Hex. apply negb_true_iff in H. congruence.
Qed.

Lemma well_formed_cleanForDiff (v : value) :
  well_formed v = true -> well_formed (cleanForDiff v) = true.
Proof.
  induction v as [| |b|n|s|items IH|entries IH] using value_ind;
    cbn [cleanForDiff]; auto.
  - cbn [well_formed]. induction IH as [|x xs Hx _ IHxs]; [reflexivity|].
    cbn [forallb map]. intros H. apply andb_true_iff in H as [H1 H2].
    now rewrite (Hx H1), (IHxs H2).
  - cbn [well_formed]. induction IH as [|[k x] es Hx _ IHes]; [reflexivity|].
    cbn [keys map fst distinct forallb snd]. fold (keys es).
    intros H. apply andb_true_iff in H as [Hd Hw].
    apply andb_true_iff in Hd as [Hk Hd].
    apply andb_true_iff in Hw as [Hwx Hw].
    assert (IH' : distinct (keys (clean_entries cleanForDiff es))
                  && forallb (fun kv => well_formed (snd kv))
                             (clean_entries cleanForDiff es) = true)
      by (apply IHes; now rewrite Hd, Hw).
    apply andb_true_iff in IH' as [IHd IHw].
    pose proof (clean_entries_fresh cleanForDiff k es Hk) as Hfresh.
    cbn [clean_entries].
    destruct (server_managed k); [now rewrite IHd, IHw|].
    destruct ((k =? "annotations")%string && is_object x).
    { destruct (Nat.ltb 0 _); [|now rewrite IHd, IHw].
      cbn [keys map fst distinct forallb snd].
      fold (keys (clean_entries cleanForDiff es)).
      rewrite Hfresh, IHd, IHw, (well_formed_strip_annotations x Hwx).
      reflexivity. }
    destruct (is_nullish x); [now rewrite IHd, IHw|].
    cbn [keys map fst distinct forallb snd].
    fold (keys (clean_entries cleanForDiff es)).
    cbn [snd] in Hx. now rewrite Hfresh, IHd, IHw, (Hx Hwx).
Qed.

(** X11. An exported manifest shows no change against the resource it was
    exported from.  For a live resource that is a well-formed document
    without [NaN], whose metadata is not a sequence, whose [labels] are
    not an empty map and whose [annotations], when empty, are a map, the
    export made by [cleanManifest] and the resource itself are the same
    document once cleaned for a diff: the structural diff of the one
    against the other is empty. *)
Theorem export_shows_no_change :
  forall live : Obj,
    well_formed (VObj live) = true ->
    nan_free (VObj live) = true ->
    plain_metadata live ->
    cleanForDiff (VObj (cleanManifest live)) = cleanForDiff (VObj live) /\
    forall path,
      deepDiff (cleanForDiff (VObj live))
               (cleanForDiff (VObj (cleanManifest live))) path = [].
Proof.
  intros live Hw Hn Hplain.
  pose proof (cleanForDiff_export live Hw Hplain) as Heq.
  split; [exact Heq|]. intros path. rewrite Heq.
  apply deepDiff_equal, deep_equal_refl.
  - now apply well_formed_cleanForDiff.
  - now apply nan_free_cleanForDiff.
Qed.

Lemma export_shows_no_change_witness :
  cleanManifest live_configmap
  = [("kind", VStr "ConfigMap");
     ("metadata", VObj [("name", VStr "cfg"); ("namespace", VStr "prod")]);
     ("data", VObj [("mode", VStr "fast")])]%string /\
  deepDiff (cleanForDiff (VObj live_configmap))
           (cleanForDiff (VObj (cleanManifest live_configmap))) EmptyString
  = [].
Proof.
  split; [reflexivity|].
  apply (export_shows_no_change live_configmap); try reflexivity.
  repeat split; reflexivity.
Defined.

(** An empty [labels] map is the exception: the export has lost it, and
    the diff reports it as removed. *)
Lemma export_without_empty_labels :
  deepDiff (cleanForDiff (VObj live_service))
           (cleanForDiff (VObj (cleanManifest live_service))) EmptyString
  = ["- metadata.labels: {}"%string].
Proof. reflexivity. Qed.

(** * Invariants of the events a computation records *)

Lemma only_ret {A : Type} (P : event -> Prop) (a : A) : only P (ret a).
Proof. intros t. exists []. now rewrite app_nil_r. Qed.

Lemma only_lift {A : Type} (P : event -> Prop) (o : outcome A) :
  only P (lift o).
Proof. intros t. exists []. now rewrite app_nil_r. Qed.

Lemma only_request {A : Type} (P : event -> Prop) (e : event)
    (answer : trace -> outcome A) :
  P e -> only P (request e answer).
Proof. intros He t. exists [e]. split; [reflexivity|now constructor]. Qed.

Lemma only_bind {A B : Type} (P : event -> Prop) (m : M A) (f : A -> M B) :
  only P m -> (forall a, only P (f a)) -> only P (bind m f).
Proof.
  intros Hm Hf t. unfold bind.
  destruct (Hm t) as (new & Ht & Hs).
  destruct (m t) as [[a|message] t']; simpl in Ht; subst t'.
  - destruct (Hf a (t ++ new)) as (new' & Ht' & Hs').
    exists (new ++ new'). rewrite Ht', app_assoc. split; [reflexivity|].
    now apply Forall_app.
  - exists new. auto.
Qed.

Lemma only_try_catch {A : Type} (P : event -> Prop) (m : M A)
    (handler : string -> M A) :
  only P m -> (forall message, only P (handler message)) ->
  only P (try_catch m handler).
Proof.
  intros Hm Hh t. unfold try_catch.
  destruct (Hm t) as (new & Ht & Hs).
  destruct (m t) as [[a|message] t']; simpl in Ht; subst t'.
  - exists new. auto.
  - destruct (Hh message (t ++ new)) as (new' & Ht' & Hs').
    exists (new ++ new'). rewrite Ht', app_assoc. split; [reflexivity|].
    now apply Forall_app.
Qed.

Lemma only_weaken {A : Type} (P Q : event -> Prop) (m : M A) :
  (forall e, P e -> Q e) -> only P m -> only Q m.
Proof.
  intros H Hm t. destruct (Hm t) as (new & Ht & Hs).
  exists new. split; [exact Ht|]. eapply Forall_impl; eauto.
Qed.

(** One step of a proof that a computation records only events of one
    sort; [solve_event] proves that the event of a request is of it. *)
Ltac only_step solve_event :=
  first
    [ apply only_ret
    | apply only_lift
    | apply only_request; solve_event
    | apply only_bind; [|intros ?]
    | apply only_try_catch; [|intros ?]
    | match goal with
      | |- only _ (if ?b then _ else _) => destruct b
      | |- only _ (match ?x with _ => _ end) => destruct x
      | |- only _ (let (_, _) := ?x in _) => destruct x
      end ].

Ltac only_steps solve_event := repeat only_step solve_event.

Section EventsOfTheAgent.

Variable world : World.

Ltac batch_event :=
  solve [split; [reflexivity|cbn; intros ? [= <-]; reflexivity]
        |split; [reflexivity|cbn; intros ?; discriminate]
        |split; reflexivity].

Lemma reconcile_events dry resourceLabel resource :
  only (batch_write dry) (reconcile world dry resourceLabel resource).
Proof.
  unfold reconcile, clientRead, clientPatch, clientCreate.
  only_steps batch_event.
Qed.

Lemma apply_one_events namespace dry manifestStr st :
  only (batch_write dry) (apply_one world namespace dry manifestStr st).
Proof.
  unfold apply_one.
  apply only_bind; [apply only_lift|intros obj].
  apply only_bind; [apply only_lift|intros kind].
  apply only_try_catch; [|intros; apply only_ret].
  apply only_bind; [apply only_lift|intros resource].
  apply only_bind; [apply reconcile_events|intros; apply only_ret].
Qed.

Lemma apply_all_events namespace dry manifests :
  forall st, only (batch_write dry) (apply_all world namespace dry manifests st).
Proof.
  induction manifests as [|m rest IH]; intros st; simpl.
  - apply only_ret.
  - apply only_bind; [apply apply_one_events|auto].
Qed.

Lemma apply_manifest_events p :
  only (batch_write (strict_eq (dryRun p) (VBool true)))
       (apply_manifest world p).
Proof.
  unfold apply_manifest.
  apply only_bind; [apply apply_all_events|intros; apply only_ret].
Qed.

Lemma fetch_manifest_events namespace item docs :
  only no_write (fetch_manifest world namespace item docs).
Proof.
  destruct item as [kind name].
  unfold fetch_manifest, readNamespaced, console.
  only_steps batch_event.
Qed.

Lemma fetch_manifests_events namespace requested :
  forall docs, only no_write (fetch_manifests world namespace requested docs).
Proof.
  induction requested as [|item rest IH]; intros docs; simpl.
  - apply only_ret.
  - apply only_bind; [apply fetch_manifest_events|auto].
Qed.

Lemma get_manifests_events p : only no_write (get_manifests world p).
Proof.
  unfold get_manifests.
  apply only_bind; [apply fetch_manifests_events|intros; apply only_ret].
Qed.

Lemma listing_events cmd : only no_write (listing world cmd).
Proof. unfold listing. only_steps batch_event. Qed.

End EventsOfTheAgent.

Lemma executeCommand_events (world : World) (cmd : Command) :
  only (fun e =>
          cluster_event e = true /\
          forall d, write_param e = Some d ->
                    type cmd = "apply_manifest"%string /\
                    d = if strict_eq (dryRun (payload cmd)) (VBool true)
                        then Some "All"%string else None)
       (executeCommand world cmd).
Proof.
  unfold executeCommand.
  destruct (type cmd =? "list_namespaces")%string;
    [|destruct (type cmd =? "list_resources")%string;
      [|destruct (type cmd =? "get_manifests")%string;
        [|destruct (String.eqb_spec (type cmd) "apply_manifest");
          [|destruct (type cmd =? "get_logs")%string]]]].
  1,2,5: eapply only_weaken; [|apply listing_events];
    intros ev [Hc Hw]; (split; [exact Hc|]); intros d Hd; congruence.
  - apply only_bind; [|intros; apply only_ret].
    eapply only_weaken; [|apply get_manifests_events].
    intros ev [Hc Hw]. split; [exact Hc|]. intros d Hd. congruence.
  - apply only_bind; [|intros; apply only_ret].
    eapply only_weaken; [|apply apply_manifest_events].
    intros ev [Hc Hw]. split; [exact Hc|]. intros d Hd. split; auto.
  - apply only_ret.
Qed.

(** X12. The only commands that write to the cluster are
    [apply_manifest] commands, and every patch and every create that
    [executeCommand] requests carries the [dryRun] argument of the
    batch: ['All'] when [payload.dryRun === true], none otherwise.  A
    dry run therefore never makes a real write, whatever the cluster
    answers and whether or not the command ends in an exception; and a
    payload whose [dryRun] is anything but the boolean [true] is a real
    deployment. *)
Theorem writes_follow_dry_run :
  forall (world : World) (cmd : Command) (t : trace),
  exists new,
    snd (executeCommand world cmd t) = t ++ new /\
    Forall (fun e =>
              forall d, write_param e = Some d ->
                type cmd = "apply_manifest"%string /\
                d = if strict_eq (dryRun (payload cmd)) (VBool true)
                    then Some "All"%string else None) new.
Proof.
  intros world cmd t.
  destruct (executeCommand_events world cmd t) as (new & Ht & Hall).
  exists new. split; [exact Ht|].
  eapply Forall_impl; [|exact Hall]. now intros e [_ H].
Qed.

(** *** The turns of the control loop *)

Lemma execute_and_report_events (world : World) (cmd : Command) :
  only (fun e => is_poll e = false /\ is_sleep e = false)
       (execute_and_report world cmd).
Proof.
  assert (Hexec : only (fun e => is_poll e = false /\ is_sleep e = false)
                       (executeCommand world cmd)).
  { eapply only_weaken; [|apply executeCommand_events].
    intros [] [Hc _]; try discriminate Hc; split; reflexivity. }
  unfold execute_and_report, submitResult, console.
  apply only_bind; [apply only_request; split; reflexivity|intros _].
  apply only_try_catch.
  - apply only_bind; [exact Hexec|intros r].
    apply only_bind; [|intros _; apply only_request; split; reflexivity].
    destruct r as [r|message];
      [|destruct (negb (message =? EmptyString)%string)];
      apply only_request; split; reflexivity.
  - intros message.
    apply only_bind; [|intros _]; apply only_request; split; reflexivity.
Qed.

Lemma filter_none {A : Type} (p : A -> bool) (l : list A) :
  Forall (fun x => p x = false) l -> filter p l = [].
Proof.
  induction 1 as [|x l Hx _ IH]; [reflexivity|].
  cbn [filter]. now rewrite Hx.
Qed.

Lemma iteration_turn (world : World) (t : trace) :
  exists new,
    iteration world t = (Ok tt, t ++ Poll :: new) /\
    polls new = [] /\
    (delays new = [] \/ delays new = [Sleep backoff]).
Proof.
  unfold iteration, try_catch, bind at 1, poll, bind at 1, request at 1.
  destruct (fetch_poll world t) as [res|message].
  - destruct (ok res); cbn [negb].
    + unfold lift. destruct (command res) as [[cmd|]|message].
      * destruct (execute_and_report_events world cmd (t ++ [Poll]))
          as (new & Ht & Hall).
        assert (Hp : polls new = []).
        { apply filter_none. eapply Forall_impl; [|exact Hall].
          now intros e [He _]. }
        assert (Hd : delays new = []).
        { apply filter_none. eapply Forall_impl; [|exact Hall].
          now intros e [_ He]. }
        destruct (execute_and_report world cmd (t ++ [Poll]))
          as [[[]|message] t']; cbn [snd] in Ht; subst t'.
        -- exists new. rewrite <- app_assoc. auto.
        -- exists (new ++ [Console ErrorLevel ("Poll error: " ++ message)%string;
                          Sleep backoff]).
           unfold bind, console, sleep, request.
           rewrite <- !app_assoc. split; [reflexivity|].
           unfold polls, delays in *. rewrite !filter_app, Hp, Hd. auto.
      * exists []. auto.
      * exists [Console ErrorLevel ("Poll error: " ++ message)%string;
                Sleep backoff].
        unfold bind, console, sleep, request.
        rewrite <- !app_assoc. auto.
    + exists [Console ErrorLevel
                ("Poll failed: " ++ nat_to_string (http_status res))%string].
      unfold bind, console, request, ret. rewrite <- !app_assoc. auto.
  - exists [Console ErrorLevel ("Poll error: " ++ message)%string;
            Sleep backoff].
    unfold bind, console, sleep, request.
    rewrite <- !app_assoc. auto.
Qed.

(** X13. The long-poll loop never ends in an exception: whatever the
    control plane and the cluster answer, [n] turns of the loop return
    normally after exactly [n] polls.  The only delays of the loop are
    back-offs of 3000 ms, and there is at most one per turn. *)
Theorem main_loop_never_throws :
  forall (world : World) (n : nat) (t : trace),
  exists new,
    main_loop world n t = (Ok tt, t ++ new) /\
    length (polls new) = n /\
    length (delays new) <= n /\
    Forall (fun e => e = Sleep backoff) (delays new).
Proof.
  intros world n. induction n as [|n IH]; intros t.
  - exists []. rewrite app_nil_r. simpl. auto.
  - destruct (iteration_turn world t) as (new & Hrun & Hp & Hd).
    destruct (IH (t ++ Poll :: new)) as (new' & Hrun' & Hp' & Hd' & Hall).
    exists (Poll :: new ++ new').
    cbn [main_loop]. unfold bind. rewrite Hrun, Hrun'.
    rewrite <- app_assoc. split; [reflexivity|].
    unfold polls, delays in *. cbn [filter is_poll is_sleep].
    rewrite !filter_app, Hp. cbn [app length].
    split; [now rewrite Hp'|].
    rewrite length_app.
    destruct Hd as [-> | ->]; cbn [length app]; split; try lia; auto.
Qed.

(** *** The results submitted in one turn *)

Lemma execute_and_report_submissions (world : World) (cmd : Command)
    (t : trace) :
  exists new,
    snd (execute_and_report world cmd t) = t ++ announce cmd :: new /\
    submissions new
    = submitted world cmd (executeCommand world cmd (t ++ [announce cmd])).
Proof.
  unfold execute_and_report, bind at 1, console at 1, request at 1.
  fold (announce cmd). unfold try_catch, bind at 1.
  destruct (quiet_executeCommand world cmd (t ++ [announce cmd]))
    as (new & Ht & Hs).
  pose proof (executeCommand_error world cmd (t ++ [announce cmd])) as Herr.
  unfold submitted.
  destruct (executeCommand world cmd (t ++ [announce cmd]))
    as [[[r|message]|message] t'];
    cbn [snd] in Ht; subst t'; cbn [fst snd report_of submit_answer].
  - unfold submitResult at 1, bind at 1, request at 1.
    destruct (fetch_result world _ (id cmd) completed (Some r) None)
      as [[]|m].
    + eexists. unfold console, request. cbn [snd].
      rewrite <- !app_assoc. cbn [app]. split; [reflexivity|].
      rewrite submissions_app, Hs. reflexivity.
    + unfold bind, console, request, submitResult, request.
      destruct (fetch_result world _ (id cmd) failed None (Some m));
        cbn [snd]; eexists; rewrite <- !app_assoc; cbn [app];
        (split; [reflexivity|]); rewrite submissions_app, Hs; reflexivity.
  - specialize (Herr _ message eq_refl).
    apply String.eqb_neq in Herr. rewrite Herr. cbn [negb].
    unfold submitResult at 1, bind at 1, request at 1.
    destruct (fetch_result world _ (id cmd) failed None (Some message))
      as [[]|m].
    + eexists. unfold console, request. cbn [snd].
      rewrite <- !app_assoc. cbn [app]. split; [reflexivity|].
      rewrite submissions_app, Hs. reflexivity.
    + unfold bind, console, request, submitResult, request.
      destruct (fetch_result world _ (id cmd) failed None (Some m));
        cbn [snd]; eexists; rewrite <- !app_assoc; cbn [app];
        (split; [reflexivity|]); rewrite submissions_app, Hs; reflexivity.
  - unfold bind, console, request, submitResult, request.
    repeat match goal with
           | |- context [fetch_result ?w ?tr ?i ?s ?r ?e] =>
               destruct (fetch_result w tr i s r e) as [[]|?]
           end;
      cbn [snd]; eexists; rewrite <- !app_assoc; cbn [app];
      (split; [reflexivity|]); rewrite submissions_app, Hs; reflexivity.
Qed.

Lemma turn_submissions (world : World) (cmd : Command) (t : trace)
    (code : nat) :
  fetch_poll world t
  = Ok {| ok := true; http_status := code; command := Ok (Some cmd) |} ->
  exists new,
    iteration world t = (Ok tt, t ++ Poll :: announce cmd :: new) /\
    submissions new
    = submitted world cmd
        (executeCommand world cmd (t ++ [Poll; announce cmd])).
Proof.
  intros Hpoll.
  rewrite (iteration_command world cmd t code Hpoll).
  destruct (execute_and_report_submissions world cmd (t ++ [Poll]))
    as (new & Ht & Hsub).
  rewrite <- !app_assoc in Ht, Hsub. cbn [app] in Ht, Hsub.
  unfold try_catch.
  destruct (execute_and_report world cmd (t ++ [Poll])) as [[[]|m] t'];
    cbn [snd] in Ht; subst t'.
  - exists new. split; [reflexivity|exact Hsub].
  - exists (new ++ [Console ErrorLevel ("Poll error: " ++ m)%string;
                    Sleep backoff]).
    unfold bind, console, sleep, request. rewrite <- !app_assoc. cbn [app].
    split; [reflexivity|].
    rewrite submissions_app, Hsub. cbn [submissions filter is_submission].
    now rewrite app_nil_r.
Qed.

(** C2. The [catch] written for a command that fails also catches the
    exception of the request that submits the result, and submits
    again.  When [executeCommand] has returned and the submission of
    its report throws, the turn submits two results for the one
    command: the report, and a result with status failed that carries
    the message of the exception. *)
Theorem result_submitted_twice :
  forall (world : World) (cmd : Command) (t t' : trace) (code : nat)
         (r : returned) (message : string),
    fetch_poll world t
    = Ok {| ok := true; http_status := code; command := Ok (Some cmd) |} ->
    executeCommand world cmd (t ++ [Poll; announce cmd]) = (Ok r, t') ->
    submit_answer world t' (report_of cmd (Ok r)) = Throw message ->
    exists new,
      iteration world t = (Ok tt, t ++ Poll :: announce cmd :: new) /\
      submissions new
      = [report_of cmd (Ok r);
         SubmitResult (id cmd) failed None (Some message)].
Proof.
  intros world cmd t t' code r message Hpoll Hrun Hanswer.
  destruct (turn_submissions world cmd t code Hpoll) as (new & Hturn & Hsub).
  exists new. split; [exact Hturn|].
  rewrite Hsub, Hrun. unfold submitted. cbn [fst snd].
  now rewrite Hanswer.
Qed.

Lemma result_submitted_twice_witness :
  exists new,
    iteration (sample_world (hands_out list_command) loses_first) []
    = (Ok tt, [] ++ Poll :: announce list_command :: new) /\
    submissions new
    = [SubmitResult "c1" completed
         (Some (Listing (VArr [VStr "default"; VStr "prod"]))) None;
       SubmitResult "c1" failed None (Some "fetch failed")].
Proof.
  apply (result_submitted_twice
           (sample_world (hands_out list_command) loses_first)
           list_command []
           [Poll; announce list_command;
            Query "list_namespaces" no_payload] 200
           (Result (Listing (VArr [VStr "default"; VStr "prod"])))
           "fetch failed"); reflexivity.
Defined.

(** X14. The results submitted in a turn that polls a command, with no
    hypothesis on the control plane.  The first is the report of what
    [executeCommand] did.  When the submission of that report is
    accepted, or when [executeCommand] threw, it is the only one.  When
    [executeCommand] returned and the submission of the report threw, a
    second result follows for the same command, with status failed and
    the message of that exception as its error.  There is never a
    third. *)
Theorem turn_submits_once_or_twice :
  forall (world : World) (cmd : Command) (t : trace) (code : nat),
    fetch_poll world t
    = Ok {| ok := true; http_status := code; command := Ok (Some cmd) |} ->
    exists new,
      iteration world t = (Ok tt, t ++ Poll :: announce cmd :: new) /\
      submissions new
      = match
          submit_answer world
            (snd (executeCommand world cmd (t ++ [Poll; announce cmd])))
            (report_of cmd
               (fst (executeCommand world cmd (t ++ [Poll; announce cmd])))),
          fst (executeCommand world cmd (t ++ [Poll; announce cmd]))
        with
        | Throw message, Ok _ =>
            [report_of cmd
               (fst (executeCommand world cmd (t ++ [Poll; announce cmd])));
             SubmitResult (id cmd) failed None (Some message)]
        | _, _ =>
            [report_of cmd
               (fst (executeCommand world cmd (t ++ [Poll; announce cmd])))]
        end.
Proof.
  intros world cmd t code Hpoll.
  exact (turn_submissions world cmd t code Hpoll).
Qed.

Lemma turn_submits_once_or_twice_witness :
  exists new,
    iteration (sample_world (hands_out list_command) accepts) []
    = (Ok tt, [] ++ Poll :: announce list_command :: new) /\
    submissions new
    = [SubmitResult "c1" completed
         (Some (Listing (VArr [VStr "default"; VStr "prod"]))) None].
Proof.
  apply (turn_submits_once_or_twice
           (sample_world (hands_out list_command) accepts)
           list_command [] 200 eq_refl).
Defined.

(** X15. A poll that throws, because the request is rejected or
    because the body of a successful response cannot be parsed, is
    caught by the loop: the turn logs the message as a poll error,
    waits 3000 ms and returns normally, without submitting anything. *)
Theorem poll_failure_backs_off :
  forall (world : World) (t : trace) (message : string),
    (fetch_poll world t = Throw message \/
     exists code,
       fetch_poll world t
       = Ok {| ok := true; http_status := code; command := Throw message |}) ->
    iteration world t
    = (Ok tt,
       t ++ [Poll; Console ErrorLevel ("Poll error: " ++ message)%string;
             Sleep 3000]).
Proof.
  intros world t message [H|[code H]].
  - now apply iteration_rejected.
  - unfold iteration, try_catch, bind, poll, bind, request.
    rewrite H. unfold console, sleep, request, lift. cbn.
    now rewrite <- !app_assoc.
Qed.

Lemma poll_failure_backs_off_witness :
  iteration (sample_world refused accepts) []
  = (Ok tt, [Poll; Console ErrorLevel "Poll error: fetch failed"; Sleep 3000]).
Proof.
  apply (poll_failure_backs_off (sample_world refused accepts) []
           "fetch failed").
  left. reflexivity.
Defined.

(** *** The entries of a batch *)

Lemma apply_one_failure (world : World) (namespace : string) (dry : bool)
    (manifestStr : string) (o : Obj) (message : string) (st : progress)
    (t : trace) :
  parses_to world manifestStr o ->
  rejects_writes world message ->
  exists t',
    apply_one world namespace dry manifestStr st t
    = (Ok {| results := results st
                        ++ [failure_entry (label_of (VObj o)) message];
             logs := logs st
                     ++ [failure_line (label_of (VObj o)) message;
                         EmptyString] |}, t').
Proof.
  intros [Hload Harr] Hrej.
  destruct (apply_defaults_object namespace o Harr)
    as (resource & Hdef & _).
  unfold apply_one, bind at 1, lift at 1. rewrite Hload.
  unfold member, bind at 1, lift at 1. cbn [is_nullish].
  fold (label_of (VObj o)).
  unfold try_catch, bind at 1, lift at 1. rewrite Hdef.
  unfold bind at 1, reconcile, bind at 1, try_catch, clientRead, request.
  destruct (client_read world t resource) as [liveObj|m]; cbn [ret].
  - destruct (truthy liveObj); unfold bind, clientPatch, clientCreate, request.
    + rewrite (proj1 (Hrej _ _ _)). unfold ret. eauto.
    + rewrite (proj2 (Hrej _ _ _)). unfold ret. eauto.
  - cbn [truthy]. unfold bind, clientCreate, request.
    rewrite (proj2 (Hrej _ _ _)). unfold ret. eauto.
Qed.

Lemma apply_all_failures (world : World) (namespace : string) (dry : bool)
    (message : string) (manifests : list string) (objs : list Obj) :
  Forall2 (parses_to world) manifests objs ->
  rejects_writes world message ->
  forall st t, exists t',
    apply_all world namespace dry manifests st t
    = (Ok {| results :=
               results st
               ++ map (fun o => failure_entry (label_of (VObj o)) message)
                      objs;
             logs :=
               logs st
               ++ flat_map (fun o => [failure_line (label_of (VObj o)) message;
                                      EmptyString]) objs |}, t').
Proof.
  intros Hall Hrej.
  induction Hall as [|m o ms os Hm _ IH]; intros st t; cbn [apply_all].
  - exists t. cbn [map flat_map]. rewrite !app_nil_r. now destruct st.
  - destruct (apply_one_failure world namespace dry m o message st t Hm Hrej)
      as (t' & Hone).
    unfold bind. rewrite Hone.
    destruct (IH {| results := results st
                               ++ [failure_entry (label_of (VObj o)) message];
                    logs := logs st
                            ++ [failure_line (label_of (VObj o)) message;
                                EmptyString] |} t') as (t'' & ->).
    exists t''. cbn [results logs map flat_map].
    now rewrite <- !app_assoc.
Qed.

Lemma filter_failures (message : string) (objs : list Obj) :
  filter success
         (map (fun o => failure_entry (label_of (VObj o)) message) objs) = []
  /\ length (filter (fun r => negb (success r))
               (map (fun o => failure_entry (label_of (VObj o)) message) objs))
     = length objs.
Proof.
  induction objs as [|o objs [IH1 IH2]]; [auto|].
  cbn [map filter failure_entry success negb length].
  now rewrite IH2.
Qed.

(** X16. A write that the cluster rejects fails its manifest, not the
    command.  When every manifest of a batch parses to an object and the
    cluster rejects every patch and create with [message],
    [apply_manifest] still returns a result: one failed entry per
    manifest, in order, with the cluster's message as its error, a log
    of one failure line per manifest, and the summary line counting no
    manifest as passed and all of them as failed. *)
Theorem rejected_writes_complete_with_failures :
  forall (world : World) (p : Payload) (objs : list Obj) (message : string)
         (t : trace),
    Forall2 (parses_to world) (manifests p) objs ->
    rejects_writes world message ->
    exists t',
      apply_manifest world p t
      = (Ok (Applied
               (map (fun o => failure_entry (label_of (VObj o)) message) objs)
               (join newline
                  ([header (strict_eq (dryRun p) (VBool true))
                           (length (manifests p)) (namespace p);
                    EmptyString]
                   ++ flat_map
                        (fun o => [failure_line (label_of (VObj o)) message;
                                   EmptyString]) objs
                   ++ [("Done: 0 passed, "
                        ++ nat_to_string (length (manifests p))
                        ++ " failed")%string]))
               (strict_eq (dryRun p) (VBool true))), t').
Proof.
  intros world p objs message t Hall Hrej.
  unfold apply_manifest, bind.
  destruct (apply_all_failures world (namespace p)
              (strict_eq (dryRun p) (VBool true)) message (manifests p) objs
              Hall Hrej
              {| results := [];
                 logs := [header (strict_eq (dryRun p) (VBool true))
                                 (length (manifests p)) (namespace p);
                          EmptyString] |} t) as (t' & ->).
  exists t'. cbn [results logs app]. unfold ret, summary.
  destruct (filter_failures message objs) as [-> ->].
  rewrite (Forall2_length Hall). cbn [length].
  rewrite <- ?app_assoc. reflexivity.
Qed.

Lemma rejected_writes_complete_with_failures_witness :
  exists t',
    apply_manifest forbidden_world (payload apply_command_good) []
    = (Ok (Applied
             [failure_entry "ConfigMap/cfg" "Forbidden";
              failure_entry "Service/web" "Forbidden"]
             (join newline
                ["Dry run: 2 resource(s) to namespace " ++ quoted "prod";
                 EmptyString;
                 "  ✗ ConfigMap/cfg failed: Forbidden"; EmptyString;
                 "  ✗ Service/web failed: Forbidden"; EmptyString;
                 "Done: 0 passed, 2 failed"]%string)
             true), t').
Proof.
  apply (rejected_writes_complete_with_failures forbidden_world
           (payload apply_command_good)
           [[("kind", VStr "ConfigMap");
             ("metadata", VObj [("name", VStr "cfg")]);
             ("data", VObj [("mode", VStr "fast")])];
            [("kind", VStr "Service");
             ("metadata", VObj [("name", VStr "web");
                                ("namespace", VStr "edge")])]]
           "Forbidden" []).
  - repeat constructor.
  - intros t resource d. split; reflexivity.
Defined.

(** *** The log of a batch *)

Lemma passed_and_failed (entries : list apply_entry) :
  length (filter success entries)
  + length (filter (fun r => negb (success r)) entries)
  = length entries.
Proof.
  induction entries as [|r entries IH]; [reflexivity|].
  cbn [filter]. destruct (success r); cbn [negb length]; lia.
Qed.

(** X17. The log of a batch whose manifests can all be processed opens
    with the header, which names the mode, the number of manifests and
    the namespace, and closes with the summary line; the two counts of
    the summary, passed and failed, are those of the entries returned
    and add up to the number of manifests. *)
Theorem apply_log_counts_every_manifest :
  forall (world : World) (p : Payload) (t : trace),
    (forall m, In m (manifests p) -> processable world m) ->
    exists entries lines t',
      apply_manifest world p t
      = (Ok (Applied entries
               (join newline
                  ([header (strict_eq (dryRun p) (VBool true))
                           (length (manifests p)) (namespace p);
                    EmptyString]
                   ++ lines
                   ++ [("Done: "
                        ++ nat_to_string (length (filter success entries))
                        ++ " passed, "
                        ++ nat_to_string
                             (length (filter (fun r => negb (success r))
                                             entries))
                        ++ " failed")%string]))
               (strict_eq (dryRun p) (VBool true))), t') /\
      length (filter success entries)
      + length (filter (fun r => negb (success r)) entries)
      = length (manifests p).
Proof.
  intros world p t Hall. unfold apply_manifest, bind.
  destruct (apply_all_returns world (namespace p)
              (strict_eq (dryRun p) (VBool true)) (manifests p) Hall
              {| results := [];
                 logs := [header (strict_eq (dryRun p) (VBool true))
                                 (length (manifests p)) (namespace p);
                          EmptyString] |} t)
    as (entries & lines & t' & -> & Hlen).
  exists entries, lines, t'. cbn [results logs app]. unfold ret, summary.
  rewrite <- ?app_assoc. split; [reflexivity|].
  rewrite passed_and_failed. exact Hlen.
Qed.

Lemma apply_log_counts_every_manifest_witness :
  exists entries lines t',
    apply_manifest (sample_world refused accepts)
      (payload apply_command_good) []
    = (Ok (Applied entries
             (join newline
                ([("Dry run: 2 resource(s) to namespace " ++ quoted "prod")%string;
                  EmptyString]
                 ++ lines
                 ++ [("Done: "
                      ++ nat_to_string (length (filter success entries))
                      ++ " passed, "
                      ++ nat_to_string
                           (length (filter (fun r => negb (success r))
                                           entries))
                      ++ " failed")%string]))
             true), t') /\
    length (filter success entries)
    + length (filter (fun r => negb (success r)) entries)
    = 2.
Proof.
  apply (apply_log_counts_every_manifest (sample_world refused accepts)
           (payload apply_command_good) []).
  intros m [<-|[<-|[]]]; eexists; split; reflexivity.
Defined.

(** X18. The label of an entry is computed from the manifest as
    parsed, before the defaults are applied: it is [`${kind}/${name}`]
    of the parsed document, whether the manifest succeeds or fails.  A
    manifest without a metadata object is therefore reported as
    [Kind/undefined], while the document sent to the cluster is named
    [unnamed]. *)
Theorem entry_label_read_before_defaults :
  forall (world : World) (namespace : string) (dry : bool)
         (manifestStr : string) (o : Obj) (st : progress) (t : trace),
    parses_to world manifestStr o ->
    exists entry lines doc write,
      apply_one world namespace dry manifestStr st t
      = (Ok {| results := results st ++ [entry];
               logs := logs st ++ lines |},
         t ++ [ClientRead doc; write]) /\
      resource entry = label_of (VObj o) /\
      (is_object (prop (VObj o) "metadata") = false ->
       label_of (VObj o)
       = (js_string (prop (VObj o) "kind") ++ "/undefined")%string /\
       prop (prop doc "metadata") "name" = VStr "unnamed").
Proof.
  intros world namespace dry manifestStr o st t [Hload Harr].
  destruct (apply_defaults_object namespace o Harr)
    as (doc & Hdef & _ & Hname).
  destruct (reconcile_trace world dry (label_of (VObj o)) doc t)
    as (write & Htrace & _).
  assert (Hlabel : is_object (prop (VObj o) "metadata") = false ->
                   label_of (VObj o)
                   = (js_string (prop (VObj o) "kind") ++ "/undefined")%string).
  { unfold label_of. intros Hobj.
    destruct (prop (VObj o) "metadata"); try reflexivity; discriminate. }
  unfold apply_one, bind at 1, lift at 1. rewrite Hload.
  unfold member, bind at 1, lift at 1. cbn [is_nullish].
  fold (label_of (VObj o)).
  unfold try_catch, bind at 1, lift at 1. rewrite Hdef.
  unfold bind at 1.
  assert (Hentry : forall pushed t',
             reconcile world dry (label_of (VObj o)) doc t
             = (Ok pushed, t') ->
             resource (fst pushed) = label_of (VObj o)).
  { unfold reconcile, bind, try_catch, clientRead, clientPatch, clientCreate,
      request, ret.
    intros pushed t'.
    destruct (client_read world t doc) as [liveObj|m]; cbn [truthy];
      [destruct (truthy liveObj)|];
      match goal with
      | |- context [client_patch ?w ?t ?r ?d] =>
          destruct (client_patch w t r d)
      | |- context [client_create ?w ?t ?r ?d] =>
          destruct (client_create w t r d)
      end; intros [= <- _]; try discriminate; reflexivity. }
  destruct (reconcile world dry (label_of (VObj o)) doc t)
    as [[pushed|m] t'] eqn:Hrec; cbn [snd] in Htrace; subst t'.
  - exists (fst pushed), (snd pushed ++ [EmptyString]), doc, write.
    unfold ret. split; [reflexivity|].
    split; [exact (Hentry pushed _ eq_refl)|].
    intros Hobj. rewrite Hobj in Hname. auto.
  - exists (failure_entry (label_of (VObj o)) m),
           [failure_line (label_of (VObj o)) m; EmptyString],
           doc, write.
    unfold ret. split; [reflexivity|]. split; [reflexivity|].
    intros Hobj. rewrite Hobj in Hname. auto.
Qed.

Lemma entry_label_read_before_defaults_witness :
  exists entry lines doc write,
    apply_one bare_world "prod" false bare_text
      {| results := []; logs := [] |} []
    = (Ok {| results := [] ++ [entry]; logs := [] ++ lines |},
       [] ++ [ClientRead doc; write]) /\
    resource entry = "Pod/undefined" /\
    prop (prop doc "metadata") "name" = VStr "unnamed".
Proof.
  destruct (entry_label_read_before_defaults
              bare_world "prod" false bare_text bare_doc
              {| results := []; logs := [] |} [])
    as (entry & lines & doc & write & Hrun & Hlabel & Hquirk).
  - split; reflexivity.
  - exists entry, lines, doc, write.
    split; [exact Hrun|]. destruct (Hquirk eq_refl) as [Hl Hn].
    split; [now rewrite Hlabel, Hl|exact Hn].
Defined.

(** *** A manifest that is not an object *)




(** *** A dry run against a live resource *)



(** *** The reads of [get_manifests] *)

Lemma fetch_manifest_reads (world : World) (namespace : string)
    (item : string * string) (docs : list string) (t : trace) :
  exists added new,
    fetch_manifest world namespace item docs t = (Ok (docs ++ added), t ++ new)
    /\ filter is_read_namespaced new
       = (if in_catalog (fst item) then [read_of namespace item] else [])
    /\ length added <= (if in_catalog (fst item) then 1 else 0)
    /\ Forall read_or_warning new.
Proof.
  destruct item as [kind name]. cbn [fst].
  unfold fetch_manifest, try_catch, bind, readNamespaced, request, ret, lift,
    console, request.
  destruct (in_catalog kind).
  - destruct (read_namespaced world t kind name namespace) as [raw|m].
    + destruct (truthy raw).
      * destruct (yaml_dump world _) as [text|m].
        -- exists [text], [ReadNamespaced kind name namespace].
           repeat split; auto. constructor; [now left|constructor].
        -- exists [], [ReadNamespaced kind name namespace;
                       Console WarnLevel
                         ("Failed to fetch " ++ kind ++ "/" ++ name ++ ": "
                          ++ m)%string].
           rewrite app_nil_r, <- app_assoc. repeat split; auto.
           constructor; [now left|constructor; [right; eauto|constructor]].
      * exists [], [ReadNamespaced kind name namespace].
        rewrite app_nil_r. repeat split; auto.
        constructor; [now left|constructor].
    + exists [], [ReadNamespaced kind name namespace;
                  Console WarnLevel
                    ("Failed to fetch " ++ kind ++ "/" ++ name ++ ": "
                     ++ m)%string].
      rewrite app_nil_r, <- app_assoc. repeat split; auto.
      constructor; [now left|constructor; [right; eauto|constructor]].
  - cbn [truthy]. exists [], []. rewrite !app_nil_r. repeat split; auto.
Qed.

Lemma fetch_manifests_reads (world : World) (namespace : string)
    (requested : list (string * string)) :
  forall docs t, exists added new,
    fetch_manifests world namespace requested docs t
    = (Ok (docs ++ added), t ++ new)
    /\ filter is_read_namespaced new
       = map (read_of namespace) (known_pairs requested)
    /\ length added <= length (known_pairs requested)
    /\ Forall read_or_warning new.
Proof.
  induction requested as [|item rest IH]; intros docs t;
    cbn [fetch_manifests known_pairs filter].
  - exists [], []. rewrite !app_nil_r. repeat split; auto.
  - destruct (fetch_manifest_reads world namespace item docs t)
      as (added & new & Hone & Hreads & Hlen & Hall).
    unfold bind. rewrite Hone.
    destruct (IH (docs ++ added) (t ++ new))
      as (added' & new' & -> & Hreads' & Hlen' & Hall').
    exists (added ++ added'), (new ++ new').
    rewrite <- !app_assoc. split; [reflexivity|].
    rewrite filter_app, Hreads, Hreads', length_app.
    fold (known_pairs rest).
    destruct (in_catalog (fst item)); cbn [map app length];
      repeat split; auto using Forall_app; try lia.
    all: apply Forall_app; auto.
Qed.

(** X21. [get_manifests] reads exactly the requested pairs whose kind
    is one of the eleven known kinds, once each, in the order of the
    request and in the namespace of the payload; apart from these reads
    it only logs warnings.  It always returns a blob, made of at most
    one document per such pair. *)
Theorem get_manifests_reads_requested :
  forall (world : World) (p : Payload) (t : trace),
  exists docs new,
    get_manifests world p t = (Ok (Manifests (join separator docs)), t ++ new)
    /\ filter is_read_namespaced new
       = map (read_of (namespace p)) (known_pairs (resources p))
    /\ length docs <= length (known_pairs (resources p))
    /\ Forall read_or_warning new.
Proof.
  intros world p t. unfold get_manifests, bind.
  destruct (fetch_manifests_reads world (namespace p) (resources p) [] t)
    as (docs & new & -> & H).
  exists docs, new. split; [reflexivity|exact H].
Qed.

(** *** A command of an unknown type *)

(** X22. A command whose type is none of the five known types makes
    no request to the cluster: [executeCommand] returns the error
    [Unknown command type: <type>].  The turn of the loop submits one
    result for it, with status failed and that error, and, when the
    submission is accepted, logs the command as completed. *)
Theorem unknown_command_reported_failed :
  forall (world : World) (cmd : Command) (t : trace) (code : nat),
    ~ In (type cmd) known_types ->
    fetch_poll world t
    = Ok {| ok := true; http_status := code; command := Ok (Some cmd) |} ->
    fetch_result world (t ++ [Poll; announce cmd]) (id cmd) failed None
      (Some ("Unknown command type: " ++ type cmd)%string) = Ok tt ->
    (forall t', executeCommand world cmd t'
                = (Ok (Error ("Unknown command type: " ++ type cmd)%string), t'))
    /\ iteration world t
       = (Ok tt,
          t ++ [Poll; announce cmd;
                SubmitResult (id cmd) failed None
                  (Some ("Unknown command type: " ++ type cmd)%string);
                Console LogLevel ("Command " ++ id cmd ++ " completed")%string]).
Proof.
  intros world cmd t code Hty Hpoll Hsubmit.
  assert (Hexec : forall t',
             executeCommand world cmd t'
             = (Ok (Error ("Unknown command type: " ++ type cmd)%string), t')).
  { intros t'. unfold executeCommand, known_types in *.
    repeat match goal with
           | |- context [(type cmd =? ?s)%string] =>
               destruct (String.eqb_spec (type cmd) s) as [Heq|_];
               [exfalso; apply Hty; rewrite Heq; cbn; tauto|]
           end.
    reflexivity. }
  split; [exact Hexec|].
  rewrite (iteration_command world cmd t code Hpoll).
  unfold try_catch, execute_and_report, bind at 1, console at 1, request at 1.
  fold (announce cmd). unfold try_catch, bind at 1.
  rewrite Hexec. unfold bind at 1.
  rewrite <- app_assoc. cbn [app].
  replace (negb ("Unknown command type: " ++ type cmd =? EmptyString)%string)
    with true by reflexivity.
  unfold submitResult, bind, console, request. rewrite Hsubmit.
  now rewrite <- !app_assoc.
Qed.

Lemma unknown_command_reported_failed_witness :
  iteration (sample_world (hands_out restart_command) accepts) []
  = (Ok tt,
     [Poll; Console LogLevel "Executing command c5: restart_pod";
      SubmitResult "c5" failed None (Some "Unknown command type: restart_pod");
      Console LogLevel "Command c5 completed"]%string).
Proof.
  apply (unknown_command_reported_failed
           (sample_world (hands_out restart_command) accepts)
           restart_command [] 200).
  - intros [H|[H|[H|[H|[H|[]]]]]]; discriminate H.
  - reflexivity.
  - reflexivity.
Defined.

(** * Properties of the read-only commands *)

(** *** [list_resources] *)

Lemma rows_In (namespace : string) (fetcher : string * string)
    (answer : outcome V1.List) (r : ListResources.row) :
  In r (ListResources.rows namespace fetcher answer) ->
  ListResources.namespace r = namespace /\
  (ListResources.kind r, ListResources.apiVersion r) = fetcher /\
  exists list, answer = Ok list /\
               In (ListResources.name r) (map name_of (items_of list)).
Proof.
  destruct answer as [list|m]; cbn [ListResources.rows]; [|intros []].
  intros Hin. apply in_map_iff in Hin as (i & <- & Hi).
  cbn. split; [reflexivity|]. split; [now destruct fetcher|].
  exists list. split; [reflexivity|]. now apply in_map.
Qed.

(** X23. [list_resources] gives a partial result instead of failing.
    In whatever order the eleven list calls settle, the rows returned
    are, up to their order, those of the fetchers taken in the order of
    the source.  Every row carries the namespace of the payload, the
    kind and API version of one fetcher, and the name of an item that
    the list call of its kind returned: a kind whose call was rejected
    contributes no row.  When every call is rejected the result is the
    empty list. *)
Theorem list_resources_partial :
  forall (listNamespaced : string -> string -> outcome V1.List)
         (settled : list (string * string)) (namespace : string),
    Permutation settled ListResources.fetchers ->
    Permutation
      (ListResources.list_resources listNamespaced settled namespace)
      (ListResources.list_resources listNamespaced ListResources.fetchers
         namespace) /\
    Forall (fun r =>
              ListResources.namespace r = namespace /\
              In (ListResources.kind r, ListResources.apiVersion r)
                 ListResources.fetchers /\
              exists list,
                listNamespaced (ListResources.kind r) namespace = Ok list /\
                In (ListResources.name r) (map name_of (items_of list)))
           (ListResources.list_resources listNamespaced settled namespace) /\
    ((forall kind, exists message,
         listNamespaced kind namespace = Throw message) ->
     ListResources.list_resources listNamespaced settled namespace = []).
Proof.
  intros listNamespaced settled namespace Hperm.
  assert (Hall : Forall (fun r =>
              ListResources.namespace r = namespace /\
              In (ListResources.kind r, ListResources.apiVersion r)
                 ListResources.fetchers /\
              exists list,
                listNamespaced (ListResources.kind r) namespace = Ok list /\
                In (ListResources.name r) (map name_of (items_of list)))
           (ListResources.list_resources listNamespaced settled namespace)).
  { apply Forall_forall. intros r Hin.
    apply in_flat_map in Hin as (fetcher & Hf & Hr).
    apply rows_In in Hr as (Hns & Hkind & list & Hans & Hname).
    split; [exact Hns|]. split.
    - rewrite Hkind. eapply Permutation_in; eauto.
    - exists list. split; [|exact Hname].
      rewrite <- Hans. now rewrite <- Hkind. }
  split; [|split; [exact Hall|]].
  - unfold ListResources.list_resources. now apply Permutation_flat_map.
  - intros Hfail.
    destruct (ListResources.list_resources listNamespaced settled namespace)
      as [|r rest]; [reflexivity|].
    apply Forall_inv in Hall as (_ & _ & list & Hok & _).
    destruct (Hfail (ListResources.kind r)) as [message Hthrow]. congruence.
Qed.

Lemma list_resources_partial_witness :
  ListResources.list_resources sample_listNamespaced
    (rev ListResources.fetchers) "prod"
  = [{| ListResources.kind := "Deployment";
        ListResources.apiVersion := "apps/v1";
        ListResources.name := "web"; ListResources.namespace := "prod" |};
     {| ListResources.kind := "Deployment";
        ListResources.apiVersion := "apps/v1";
        ListResources.name := EmptyString;
        ListResources.namespace := "prod" |}]%string /\
  Permutation
    (ListResources.list_resources sample_listNamespaced
       (rev ListResources.fetchers) "prod")
    (ListResources.list_resources sample_listNamespaced
       ListResources.fetchers "prod").
Proof.
  split; [reflexivity|].
  apply (list_resources_partial sample_listNamespaced
           (rev ListResources.fetchers) "prod").
  apply Permutation_sym, Permutation_rev.
Defined.

(** *** [get_logs] *)

Section GetLogsProperties.

Variables (toLowerCase trim : string -> string).
Variable world : GetLogs.World.

Lemma requested_tail_int (p : GetLogs.Payload) :
  exists z, GetLogs.requested_tail p = Int z.
Proof.
  unfold GetLogs.requested_tail.
  destruct (GetLogs.tailLines p) as [[z|]|]; cbn; eauto.
  destruct (negb (z =? 0)%Z); eauto.
Qed.

Lemma collect_bounded (p : GetLogs.Payload) (items : list V1.Object) :
  forall pods made, exists added reads,
    GetLogs.collect toLowerCase trim world p items pods made
    = (pods ++ added, made ++ reads) /\
    length reads <= length items /\
    Forall (bounded_read (GetLogs.namespace p)) reads /\
    length added <= length reads /\
    Forall (fun pl =>
              trim (GetLogs.logs pl) <> EmptyString /\
              exists tail,
                In (GetLogs.ReadNamespacedPodLog (GetLogs.name pl)
                      (GetLogs.namespace p) tail) reads) added.
Proof.
  destruct (requested_tail_int p) as [z Hz].
  induction items as [|pod rest IH]; intros pods made; cbn [GetLogs.collect].
  - exists [], []. rewrite !app_nil_r. repeat split; auto.
  - destruct (String.eqb_spec (name_of pod) EmptyString) as [_|Hname].
    { destruct (IH pods made)
        as (added & reads & -> & Hlen & Hreads & Hlen' & Hadded).
      exists added, reads. cbn [length]. repeat split; auto. }
    set (read := GetLogs.ReadNamespacedPodLog (name_of pod)
                   (GetLogs.namespace p)
                   (GetLogs.capped (GetLogs.requested_tail p))).
    assert (Hread : bounded_read (GetLogs.namespace p) read).
    { exists (name_of pod), (Z.min z 100). unfold read. rewrite Hz. cbn.
      repeat split; [lia|exact Hname]. }
    assert (Hweaken : forall added reads,
      Forall (fun pl =>
                trim (GetLogs.logs pl) <> EmptyString /\
                exists tail,
                  In (GetLogs.ReadNamespacedPodLog (GetLogs.name pl)
                        (GetLogs.namespace p) tail) reads) added ->
      Forall (fun pl =>
                trim (GetLogs.logs pl) <> EmptyString /\
                exists tail,
                  In (GetLogs.ReadNamespacedPodLog (GetLogs.name pl)
                        (GetLogs.namespace p) tail) (read :: reads)) added).
    { intros added reads H. eapply Forall_impl; [|exact H].
      intros pl (Ht & tail & Hin). split; [exact Ht|].
      exists tail. now right. }
    destruct (GetLogs.readNamespacedPodLog world made _ _ _) as [log|m].
    + destruct (String.eqb_spec
                  (trim (GetLogs.matching toLowerCase (GetLogs.search p)
                           (GetLogs.text_of log))) EmptyString)
        as [_|Hblank]; cbn [negb].
      * destruct (IH pods (made ++ [read]))
          as (added & reads & -> & Hlen & Hreads & Hlen' & Hadded).
        exists added, (read :: reads). rewrite <- app_assoc. cbn [app length].
        repeat split; auto; lia.
      * destruct (IH (pods ++ [{| GetLogs.name := name_of pod;
                                  GetLogs.logs :=
                                    GetLogs.matching toLowerCase
                                      (GetLogs.search p)
                                      (GetLogs.text_of log) |}])
                     (made ++ [read]))
          as (added & reads & -> & Hlen & Hreads & Hlen' & Hadded).
        eexists (_ :: added), (read :: reads).
        rewrite <- !app_assoc. cbn [app length].
        repeat split; auto; try lia.
        constructor; [|auto].
        split; [exact Hblank|]. eexists. left. reflexivity.
    + destruct (IH pods (made ++ [read]))
        as (added & reads & -> & Hlen & Hreads & Hlen' & Hadded).
      exists added, (read :: reads). rewrite <- app_assoc. cbn [app length].
      repeat split; auto; lia.
Qed.

Lemma get_logs_all_pods (p : GetLogs.Payload) (made : list GetLogs.call) :
  GetLogs.given (GetLogs.podName p) = false ->
  GetLogs.get_logs toLowerCase trim world p made
  = match GetLogs.listNamespacedPod world made (GetLogs.namespace p) with
    | Ok podList =>
        let (pods, made') :=
          GetLogs.collect toLowerCase trim world p
            (firstn 50 (items_of podList)) []
            (made ++ [GetLogs.ListNamespacedPod (GetLogs.namespace p)]) in
        (Ok pods, made')
    | Throw message =>
        (Throw message,
         made ++ [GetLogs.ListNamespacedPod (GetLogs.namespace p)])
    end.
Proof.
  unfold GetLogs.given, GetLogs.get_logs.
  destruct (GetLogs.podName p) as [name|]; [|reflexivity].
  intros H. apply negb_false_iff in H. now rewrite H.
Qed.

End GetLogsProperties.

(** X24. Without a pod name, [get_logs] lists the pods of the
    namespace and, once the list is there, always returns a result.  It
    reads at most fifty logs, each of a pod that has a name, in the
    namespace of the payload and for at most a hundred lines, whatever
    [tailLines] asks for.  It returns at most one entry per log read,
    and only entries whose text is not blank. *)
Theorem get_logs_all_pods_bounded :
  forall (toLowerCase trim : string -> string) (world : GetLogs.World)
         (p : GetLogs.Payload) (made : list GetLogs.call) (podList : V1.List),
    GetLogs.given (GetLogs.podName p) = false ->
    GetLogs.listNamespacedPod world made (GetLogs.namespace p) = Ok podList ->
    exists pods reads,
      GetLogs.get_logs toLowerCase trim world p made
      = (Ok pods,
         made ++ GetLogs.ListNamespacedPod (GetLogs.namespace p) :: reads) /\
      length reads <= 50 /\
      Forall (bounded_read (GetLogs.namespace p)) reads /\
      length pods <= length reads /\
      Forall (fun pl =>
                trim (GetLogs.logs pl) <> EmptyString /\
                exists tail,
                  In (GetLogs.ReadNamespacedPodLog (GetLogs.name pl)
                        (GetLogs.namespace p) tail) reads) pods.
Proof.
  intros toLowerCase trim world p made podList Hpod Hlist.
  rewrite (get_logs_all_pods toLowerCase trim world p made Hpod), Hlist.
  destruct (collect_bounded toLowerCase trim world p
              (firstn 50 (items_of podList)) []
              (made ++ [GetLogs.ListNamespacedPod (GetLogs.namespace p)]))
    as (pods & reads & -> & Hlen & H).
  exists pods, reads. rewrite <- app_assoc. split; [reflexivity|].
  split; [|exact H].
  etransitivity; [exact Hlen|]. apply firstn_le_length.
Qed.

Lemma get_logs_all_pods_bounded_witness :
  GetLogs.get_logs lower trim_left sample_logs (logs_payload None None) []
  = (Ok [{| GetLogs.name := "api";
            GetLogs.logs := "GET /health 200" ++ newline ++ "ERROR timeout" |}],
     [GetLogs.ListNamespacedPod "prod";
      GetLogs.ReadNamespacedPodLog "api" "prod" (Int 100);
      GetLogs.ReadNamespacedPodLog "db" "prod" (Int 100);
      GetLogs.ReadNamespacedPodLog "cache" "prod" (Int 100)])%string.
Proof.
  destruct (get_logs_all_pods_bounded lower trim_left sample_logs
              (logs_payload None None) []
              {| V1.items := Some [pod "api"; pod "db"; pod "cache";
                                   {| V1.metadata := None |}] |})
    as (pods & reads & Hrun & _).
  1-2: reflexivity.
  rewrite Hrun. cbv in Hrun. injection Hrun as <- <-. reflexivity.
Defined.

Lemma collect_unreadable (toLowerCase trim : string -> string)
    (world : GetLogs.World) (message : string) (p : GetLogs.Payload)
    (items : list V1.Object) :
  unreadable world message ->
  forall pods made,
    fst (GetLogs.collect toLowerCase trim world p items pods made) = pods.
Proof.
  intros Hfail. induction items as [|pod rest IH]; intros pods made;
    cbn [GetLogs.collect]; [reflexivity|].
  destruct (name_of pod =? EmptyString)%string; [apply IH|].
  rewrite Hfail. apply IH.
Qed.

(** X25. A log that cannot be read fails the command when the pod was
    asked for by name, and is skipped when the pods of the namespace are
    listed.  When every read is rejected with [message], [get_logs] for
    a named pod throws [message]; for the whole namespace it returns
    the empty list of pods. *)
Theorem get_logs_unreadable_pods :
  forall (toLowerCase trim : string -> string) (world : GetLogs.World)
         (p : GetLogs.Payload) (made : list GetLogs.call) (message : string),
    unreadable world message ->
    (GetLogs.given (GetLogs.podName p) = true ->
     fst (GetLogs.get_logs toLowerCase trim world p made) = Throw message) /\
    (GetLogs.given (GetLogs.podName p) = false ->
     forall podList,
       GetLogs.listNamespacedPod world made (GetLogs.namespace p)
       = Ok podList ->
       fst (GetLogs.get_logs toLowerCase trim world p made) = Ok []).
Proof.
  intros toLowerCase trim world p made message Hfail. split.
  - unfold GetLogs.given, GetLogs.get_logs.
    destruct (GetLogs.podName p) as [name|]; [|discriminate].
    intros ->. now rewrite Hfail.
  - intros Hpod podList Hlist.
    rewrite (get_logs_all_pods toLowerCase trim world p made Hpod), Hlist.
    pose proof (collect_unreadable toLowerCase trim world message p
                  (firstn 50 (items_of podList)) Hfail []
                  (made ++ [GetLogs.ListNamespacedPod (GetLogs.namespace p)]))
      as Hpods.
    destruct (GetLogs.collect _ _ _ _ _ _ _) as [pods made'].
    cbn [fst] in *. now rewrite Hpods.
Qed.

Lemma get_logs_unreadable_pods_witness :
  fst (GetLogs.get_logs lower trim_left pending_logs
         (logs_payload (Some "db") None) [])
  = Throw "container is waiting to start" /\
  fst (GetLogs.get_logs lower trim_left pending_logs
         (logs_payload None None) [])
  = Ok [].
Proof.
  destruct (get_logs_unreadable_pods lower trim_left pending_logs
              (logs_payload (Some "db") None) []
              "container is waiting to start") as [Hone _].
  { intros made name namespace tail. reflexivity. }
  destruct (get_logs_unreadable_pods lower trim_left pending_logs
              (logs_payload None None) []
              "container is waiting to start") as [_ Hall].
  { intros made name namespace tail. reflexivity. }
  split; [apply Hone; reflexivity|].
  eapply Hall; reflexivity.
Defined.

(** *** The search of [get_logs] *)

Lemma split_lines_single (l rest : string) :
  single_line l = true ->
  split_lines (l ++ newline ++ rest) = l :: split_lines rest.
Proof.
  induction l as [|c l IH]; intros H.
  - reflexivity.
  - cbn [single_line] in H. apply andb_true_iff in H as [Hc Hl].
    cbn [append split_lines].
    apply negb_true_iff in Hc. rewrite Hc.
    change (l ++ String (ascii_of_nat 10) rest)%string
      with (l ++ newline ++ rest)%string.
    now rewrite (IH Hl).
Qed.

Lemma split_lines_one (l : string) :
  single_line l = true -> split_lines l = [l].
Proof.
  induction l as [|c l IH]; intros H; [reflexivity|].
  cbn [single_line] in H. apply andb_true_iff in H as [Hc Hl].
  cbn [split_lines]. apply negb_true_iff in Hc. rewrite Hc.
  now rewrite (IH Hl).
Qed.

Lemma split_lines_join (ls : list string) :
  ls <> [] ->
  Forall (fun l => single_line l = true) ls ->
  split_lines (join newline ls) = ls.
Proof.
  intros Hne Hall. induction Hall as [|l ls Hl Hls IH]; [congruence|].
  destruct ls as [|l' ls'].
  - cbn. now apply split_lines_one.
  - change (join newline (l :: l' :: ls'))
      with (l ++ newline ++ join newline (l' :: ls'))%string.
    rewrite (split_lines_single _ _ Hl). f_equal.
    apply IH. discriminate.
Qed.

Lemma split_lines_are_single (s : string) :
  Forall (fun l => single_line l = true) (split_lines s).
Proof.
  induction s as [|c s IH]; [repeat constructor|].
  cbn [split_lines].
  destruct (Ascii.eqb c (ascii_of_nat 10)) eqn:Hc.
  - constructor; [reflexivity|exact IH].
  - destruct (split_lines s) as [|l ls].
    + constructor; [|constructor]. cbn [single_line]. now rewrite Hc.
    + inversion IH as [|? ? Hl Hls]; subst.
      constructor; [|exact Hls]. cbn [single_line]. now rewrite Hc, Hl.
Qed.

Lemma matching_lines (toLowerCase : string -> string) (term text : string) :
  term <> EmptyString ->
  GetLogs.matching toLowerCase (Some term) text = EmptyString \/
  lines_hold toLowerCase term
    (GetLogs.matching toLowerCase (Some term) text).
Proof.
  intros Hterm. unfold GetLogs.matching, lines_hold.
  apply String.eqb_neq in Hterm. rewrite Hterm.
  set (kept := filter _ (split_lines text)).
  destruct kept as [|l ls] eqn:Hkept; [now left|right].
  rewrite split_lines_join; [|discriminate|].
  - rewrite <- Hkept. unfold kept. apply Forall_forall.
    intros x Hx. now apply filter_In in Hx.
  - rewrite <- Hkept. unfold kept. apply Forall_forall. intros x Hx.
    apply filter_In in Hx as [Hx _].
    exact (proj1 (Forall_forall _ _) (split_lines_are_single text) x Hx).
Qed.

Lemma collect_matching (toLowerCase trim : string -> string)
    (world : GetLogs.World) (p : GetLogs.Payload) (term : string)
    (items : list V1.Object) :
  GetLogs.search p = Some term -> term <> EmptyString ->
  forall pods made,
    Forall (fun pl => GetLogs.logs pl = EmptyString \/
                      lines_hold toLowerCase term (GetLogs.logs pl)) pods ->
    Forall (fun pl => GetLogs.logs pl = EmptyString \/
                      lines_hold toLowerCase term (GetLogs.logs pl))
           (fst (GetLogs.collect toLowerCase trim world p items pods made)).
Proof.
  intros Hsearch Hterm.
  induction items as [|pod rest IH]; intros pods made Hpods;
    cbn [GetLogs.collect]; [exact Hpods|].
  destruct (name_of pod =? EmptyString)%string; [now apply IH|].
  destruct (GetLogs.readNamespacedPodLog world made _ _ _) as [log|m];
    [|now apply IH].
  destruct (negb _); [|now apply IH].
  apply IH. apply Forall_app. split; [exact Hpods|].
  constructor; [|constructor]. cbn [GetLogs.logs]. rewrite Hsearch.
  now apply matching_lines.
Qed.

(** X26. With a search term, every entry that [get_logs] returns
    holds only lines that contain the term, letter case aside: its text
    is empty, or each of its lines, lowered, includes the lowered
    term. *)
Theorem get_logs_search_matches :
  forall (toLowerCase trim : string -> string) (world : GetLogs.World)
         (p : GetLogs.Payload) (made : list GetLogs.call) (term : string)
         (pods : list GetLogs.pod_logs),
    GetLogs.search p = Some term ->
    term <> EmptyString ->
    fst (GetLogs.get_logs toLowerCase trim world p made) = Ok pods ->
    Forall (fun pl => GetLogs.logs pl = EmptyString \/
                      lines_hold toLowerCase term (GetLogs.logs pl)) pods.
Proof.
  intros toLowerCase trim world p made term pods Hsearch Hterm.
  assert (Hlisting :
    forall made',
      fst (match GetLogs.listNamespacedPod world made (GetLogs.namespace p)
           with
           | Ok podList =>
               let (pods, made'') :=
                 GetLogs.collect toLowerCase trim world p
                   (firstn 50 (items_of podList)) [] made' in
               (Ok pods, made'')
           | Throw message => (Throw message, made')
           end) = Ok pods ->
      Forall (fun pl => GetLogs.logs pl = EmptyString \/
                        lines_hold toLowerCase term (GetLogs.logs pl)) pods).
  { intros made'.
    destruct (GetLogs.listNamespacedPod world made (GetLogs.namespace p))
      as [podList|m]; [|discriminate].
    pose proof (collect_matching toLowerCase trim world p term
                  (firstn 50 (items_of podList)) Hsearch Hterm [] made'
                  (Forall_nil _)) as H.
    destruct (GetLogs.collect _ _ _ _ _ _ _) as [pods' made''].
    cbn [fst] in *. now intros [= <-]. }
  unfold GetLogs.get_logs.
  destruct (GetLogs.podName p) as [name|]; [|apply Hlisting].
  destruct (negb (name =? EmptyString)%string); [|apply Hlisting].
  destruct (GetLogs.readNamespacedPodLog world made _ _ _) as [log|m];
    [|discriminate].
  cbn [fst]. intros [= <-]. constructor; [|constructor].
  cbn [GetLogs.logs]. rewrite Hsearch. now apply matching_lines.
Qed.

Lemma get_logs_search_matches_witness :
  fst (GetLogs.get_logs lower trim_left sample_logs
         (logs_payload None (Some "Error")) [])
  = Ok [{| GetLogs.name := "api"; GetLogs.logs := "ERROR timeout" |}] /\
  lines_hold lower "Error" "ERROR timeout".
Proof.
  split; [reflexivity|].
  pose proof (get_logs_search_matches lower trim_left sample_logs
                (logs_payload None (Some "Error")) [] "Error"
                [{| GetLogs.name := "api"; GetLogs.logs := "ERROR timeout" |}]
                eq_refl) as H.
  apply Forall_inv in H as [H|H]; [discriminate H|exact H|discriminate|].
  reflexivity.
Defined.

(** * Properties of the registration *)

Section RegistrationProperties.

Variable world : Registration.World.

Lemma cluster_version_calls (made : list Registration.call) :
  exists warning,
    snd (Registration.cluster_version world made)
    = made ++ Registration.GetCode :: warning /\
    Forall (fun c => is_post c = false /\ is_version_query c = false /\
                     is_delay c = false /\ is_error_line c = false) warning.
Proof.
  unfold Registration.cluster_version.
  destruct (Registration.getCode world made) as [info|m];
    [destruct (member info "gitVersion")|]; cbn [snd].
  - exists []. auto.
  - eexists. rewrite <- app_assoc. split; [reflexivity|].
    repeat constructor.
  - eexists. rewrite <- app_assoc. split; [reflexivity|].
    repeat constructor.
Qed.

(** What one attempt does: the version query, at most a warning, one
    registration request, and a log line when an id came back. *)
Lemma register_calls (made : list Registration.call) :
  exists before clusterVersion after,
    snd (Registration.register world made)
    = made ++ Registration.GetCode :: before
      ++ Registration.PostRegister clusterVersion :: after /\
    Forall (fun c => is_post c = false /\ is_version_query c = false /\
                     is_delay c = false /\ is_error_line c = false)
           (before ++ after).
Proof.
  unfold Registration.register.
  destruct (cluster_version_calls made) as (warning & Hv & Hw).
  destruct (Registration.cluster_version world made) as [v made1].
  cbn [snd] in Hv. subst made1.
  exists warning, v.
  destruct (Registration.fetch_register world _ v) as [res|m].
  - destruct (negb (Registration.ok res)).
    + destruct (Registration.text res); exists []; cbn [snd];
        rewrite <- app_assoc, app_nil_r; auto.
    + destruct (Registration.json res) as [data|m];
        [destruct (member data "agentId")|].
      * eexists [_]. cbn [snd]. rewrite <- !app_assoc. cbn [app].
        split; [reflexivity|]. apply Forall_app. split; [exact Hw|].
        repeat constructor.
      * exists []. cbn [snd]. rewrite <- app_assoc, app_nil_r. auto.
      * exists []. cbn [snd]. rewrite <- app_assoc, app_nil_r. auto.
  - exists []. cbn [snd]. rewrite <- app_assoc, app_nil_r. auto.
Qed.

Lemma attempt_counts (made : list Registration.call) :
  exists attempt,
    snd (Registration.register world made) = made ++ attempt /\
    length (filter is_post attempt) = 1 /\
    length (filter is_version_query attempt) = 1 /\
    filter is_delay attempt = [] /\
    filter is_error_line attempt = [].
Proof.
  destruct (register_calls made) as (before & v & after & Hrun & Hall).
  apply Forall_app in Hall as [Hb Ha].
  exists (Registration.GetCode :: before
          ++ Registration.PostRegister v :: after).
  split; [exact Hrun|].
  cbn [filter is_post is_version_query is_delay is_error_line].
  rewrite !filter_app.
  cbn [filter is_post is_version_query is_delay is_error_line].
  rewrite !(filter_none is_post), !(filter_none is_version_query),
    !(filter_none is_delay), !(filter_none is_error_line);
    try (eapply Forall_impl; [|eassumption]; cbn; tauto).
  repeat split; reflexivity.
Qed.

Lemma register_loop_counts (n : nat) :
  forall agentId made, exists agentId' new,
    Registration.register_loop world n agentId made = (agentId', made ++ new)
    /\ length (filter is_post new) = length (filter is_version_query new)
    /\ length (filter is_post new) <= n
    /\ (truthy agentId' = false -> length (filter is_post new) = n)
    /\ filter is_delay new
       = repeat (Registration.Sleep 5000)
                (length (filter is_error_line new))
    /\ length (filter is_error_line new) <= length (filter is_post new).
Proof.
  induction n as [|n IH]; intros agentId made.
  - exists agentId, []. rewrite app_nil_r. cbn.
    destruct (truthy agentId); repeat split; auto.
  - cbn [Registration.register_loop].
    destruct (truthy agentId) eqn:Hid.
    { exists agentId, []. rewrite app_nil_r. cbn.
      repeat split; auto; try lia. congruence. }
    destruct (attempt_counts made) as (attempt & Hrun & Hp & Hq & Hd & He).
    destruct (Registration.register world made) as [[agentId'|m] made'];
      cbn [snd] in Hrun; subst made'.
    + destruct (IH agentId' (made ++ attempt))
        as (final & new & -> & Hpq & Hle & Hlast & Hdelay & Herr).
      exists final, (attempt ++ new). rewrite <- app_assoc.
      split; [reflexivity|].
      rewrite !filter_app, !length_app, Hp, Hq, Hd, He. cbn [app length].
      repeat split; auto; try lia; intros Hf; specialize (Hlast Hf); lia.
    + destruct (IH agentId
                  ((made ++ attempt)
                   ++ [Registration.Console ErrorLevel
                         ("Registration failed, retrying in 5s: " ++ m)%string;
                       Registration.Sleep Registration.retry_delay]))
        as (final & new & -> & Hpq & Hle & Hlast & Hdelay & Herr).
      eexists final, (attempt ++ _ :: _ :: new). rewrite <- !app_assoc.
      cbn [app]. split; [reflexivity|].
      rewrite !filter_app, !length_app, Hp, Hq, Hd, He.
      cbn [filter is_post is_version_query is_delay is_error_line app length
           repeat].
      rewrite Hdelay.
      repeat split; auto; try lia; intros Hf; specialize (Hlast Hf); lia.
Qed.

End RegistrationProperties.

(** X27. The registration loop.  Every attempt asks the cluster for
    its version and then sends one registration request, whether or not
    the version could be read.  The loop makes at most [n] attempts and
    stops before the [n]-th only with an agent id.  The delays are all
    of 5000 ms, one for each error line logged, and there is at most one
    error line per attempt. *)
Theorem registration_retries :
  forall (world : Registration.World) (n : nat)
         (made : list Registration.call),
  exists agentId new,
    Registration.register_loop world n VNull made = (agentId, made ++ new) /\
    length (filter is_post new) = length (filter is_version_query new) /\
    length (filter is_post new) <= n /\
    (truthy agentId = false -> length (filter is_post new) = n) /\
    filter is_delay new
    = repeat (Registration.Sleep 5000) (length (filter is_error_line new)) /\
    length (filter is_error_line new) <= length (filter is_post new).
Proof. intros world n made. apply register_loop_counts. Qed.

Lemma registration_retries_witness :
  Registration.register_loop sample_registration 5 VNull []
  = (VStr "a1",
     [Registration.GetCode;
      Registration.Console WarnLevel "Could not fetch cluster version";
      Registration.PostRegister VUndefined;
      Registration.Console ErrorLevel
        "Registration failed, retrying in 5s: Registration failed: 503 unavailable";
      Registration.Sleep 5000;
      Registration.GetCode;
      Registration.Console WarnLevel "Could not fetch cluster version";
      Registration.PostRegister VUndefined;
      Registration.Console LogLevel "Registered as agent a1, connection k9"])%string.
Proof.
  destruct (registration_retries sample_registration 5 [])
    as (agentId & new & Hrun & _).
  rewrite Hrun. cbv in Hrun. injection Hrun as <- <-. reflexivity.
Defined.

Lemma register_nobody (world : Registration.World)
    (made : list Registration.call) :
  registers_nobody world ->
  exists agentId attempt,
    Registration.register world made = (Ok agentId, made ++ attempt) /\
    truthy agentId = false /\
    length (filter is_post attempt) = 1 /\
    filter is_delay attempt = [] /\
    filter is_error_line attempt = [].
Proof.
  intros Hnobody.
  destruct (attempt_counts world made) as (attempt & Hrun & Hp & _ & Hd & He).
  assert (Hid : exists agentId,
             fst (Registration.register world made) = Ok agentId /\
             truthy agentId = false).
  { unfold Registration.register.
    destruct (Registration.cluster_version world made) as [v made1].
    destruct (Hnobody made1 v) as (res & data & Hres & Hok & Hjson & Hdata & Hid).
    rewrite Hres, Hok, Hjson. cbn [negb]. unfold member. rewrite Hdata.
    exists (prop data "agentId"). auto. }
  destruct Hid as (agentId & Hfst & Hid).
  exists agentId, attempt.
  rewrite (surjective_pairing (Registration.register world made)), Hfst, Hrun.
  auto.
Qed.

(** X28. A registration that succeeds without an agent id is retried
    at once.  When the control plane answers every registration request
    with a success status and a body that holds no agent id, [register]
    returns without an exception: the loop makes all its [n] attempts,
    with no delay and no error line between them, and leaves without an
    agent id. *)
Theorem registration_without_id_retries_at_once :
  forall (world : Registration.World) (n : nat)
         (made : list Registration.call),
    registers_nobody world ->
    exists agentId new,
      Registration.register_loop world n VNull made = (agentId, made ++ new)
      /\ truthy agentId = false
      /\ length (filter is_post new) = n
      /\ filter is_delay new = []
      /\ filter is_error_line new = [].
Proof.
  intros world n made Hnobody.
  assert (Hloop : forall agentId made,
    truthy agentId = false ->
    exists agentId' new,
      Registration.register_loop world n agentId made = (agentId', made ++ new)
      /\ truthy agentId' = false
      /\ length (filter is_post new) = n
      /\ filter is_delay new = []
      /\ filter is_error_line new = []).
  { clear made. induction n as [|n IH]; intros agentId made Hid;
      cbn [Registration.register_loop]; rewrite Hid.
    - exists agentId, []. rewrite app_nil_r. auto.
    - destruct (register_nobody world made Hnobody)
        as (agentId' & attempt & -> & Hid' & Hp & Hd & He).
      destruct (IH agentId' (made ++ attempt) Hid')
        as (final & new & -> & Hf & Hp' & Hd' & He').
      exists final, (attempt ++ new). rewrite <- app_assoc.
      rewrite !filter_app, length_app, Hp, Hp', Hd, Hd', He, He'. auto. }
  now apply Hloop.
Qed.

Lemma registration_without_id_retries_at_once_witness :
  exists agentId new,
    Registration.register_loop empty_registration 3 VNull []
    = (agentId, [] ++ new)
    /\ truthy agentId = false
    /\ length (filter is_post new) = 3
    /\ filter is_delay new = []
    /\ filter is_error_line new = [].
Proof.
  apply (registration_without_id_retries_at_once empty_registration 3 []).
  intros made clusterVersion. eexists. exists (VObj []).
  repeat split; reflexivity.
Defined.
